(** * RealityJaros: the client-side job tracking and polling code, verified

    This development embeds the TypeScript front end of the AI e-mail
    assistant (services/api.ts, contexts/AppContext, hooks/useResponses.ts,
    hooks/useEmails.ts, hooks/useClients.ts, components/Dashboard.tsx) and
    proves properties of it.  The job registry and the response generation
    engine of the back end, which the front end only calls over HTTP, are
    modelled from their specification in the modules [JobRegistry] and
    [Engine].

    Conventions of the embedding:
    - a TypeScript [string] is a [string]; [===] on strings is [String.eqb];
    - a TypeScript [number] the code computes with is an IEEE 754 double,
      the binary64 format of the Standard Library's [SpecFloat] with its
      correctly rounded operations; a number that is only stored, sent or
      compared is kept as the rational [Q] its numeral denotes; a [Date] is
      its millisecond time stamp in [Z];
    - [T | null] and optional fields [f?: T] are [option T];
    - [Map<string, V>] is stdpp's [gmap string V];
    - [Partial<T>] is a record of options, one per field; object spread
      [{...a, ...b}] keeps the field of [a] unless [b] carries it;
    - [any] is a JSON value. *)

From Stdlib Require Import ZArith QArith Qround List Lia Lqa Ascii.
From Stdlib Require Floats.SpecFloat.
From stdpp Require Import base gmap strings list fin_maps.
From stdpp Require Import pretty sorting.

Open Scope string_scope.
Open Scope list_scope.
Set Warnings "-register-all".

(** ** Data model (services/api.ts) *)

(** Values of type [any]. *)
Inductive json : Type :=
| JNull
| JBool (b : bool)
| JNum (q : Q)
| JStr (s : string)
| JArr (l : list json)
| JObj (l : list (string * json)).

Record EmailMessage := {
  em_id : string;
  em_user_id : string;
  em_client_id : option string;
  subject : option string;
  sender : string;
  recipient : string;
  body_text : option string;
  body_html : option string;
  sent_datetime : string;
  received_datetime : option string;
  is_read : bool;
  is_starred : bool;
  has_attachments : bool;
  labels : option (list string);
  urgency_level : option string;
  sentiment_score : option Q;
  topic_categories : option (list string);
  is_processed : bool;
  is_analyzed : bool
}.

Record Client := {
  cl_id : string;
  cl_user_id : string;
  email_address : string;
  client_name : option string;
  organization_name : option string;
  business_category : option string;
  communication_frequency : option string;
  relationship_strength : option Q;
  total_emails_received : Q;
  total_emails_sent : Q;
  first_interaction : option string;
  last_interaction : option string;
  priority_level : string
}.

Record GeneratedResponse := {
  gr_id : string;
  original_email_id : string;
  generated_response : string;
  response_type : string;
  confidence_score : option SpecFloat.spec_float;
  relevance_score : option Q;
  style_match_score : option Q;
  model_used : option string;
  gr_status : string;
  gr_created_at : string
}.

Record TaskStatus := {
  task_id : string;
  status : string;
  result : json;
  error : option string;
  date_done : option string;
  successful : option bool
}.

(** [Partial<T>]: every field optional. *)
Record PartialEmailMessage := {
  pe_id : option string;
  pe_user_id : option string;
  pe_client_id : option (option string);
  pe_subject : option (option string);
  pe_sender : option string;
  pe_recipient : option string;
  pe_body_text : option (option string);
  pe_body_html : option (option string);
  pe_sent_datetime : option string;
  pe_received_datetime : option (option string);
  pe_is_read : option bool;
  pe_is_starred : option bool;
  pe_has_attachments : option bool;
  pe_labels : option (option (list string));
  pe_urgency_level : option (option string);
  pe_sentiment_score : option (option Q);
  pe_topic_categories : option (option (list string));
  pe_is_processed : option bool;
  pe_is_analyzed : option bool
}.

Record PartialClient := {
  pc_id : option string;
  pc_user_id : option string;
  pc_email_address : option string;
  pc_client_name : option (option string);
  pc_organization_name : option (option string);
  pc_business_category : option (option string);
  pc_communication_frequency : option (option string);
  pc_relationship_strength : option (option Q);
  pc_total_emails_received : option Q;
  pc_total_emails_sent : option Q;
  pc_first_interaction : option (option string);
  pc_last_interaction : option (option string);
  pc_priority_level : option string
}.

Record PartialGeneratedResponse := {
  pg_id : option string;
  pg_original_email_id : option string;
  pg_generated_response : option string;
  pg_response_type : option string;
  pg_confidence_score : option (option SpecFloat.spec_float);
  pg_relevance_score : option (option Q);
  pg_style_match_score : option (option Q);
  pg_model_used : option (option string);
  pg_status : option string;
  pg_created_at : option string
}.

(** Object spread [{...x, ...updates}], field by field. *)
Definition spread_email (x : EmailMessage) (u : PartialEmailMessage) : EmailMessage :=
  {| em_id := default (em_id x) (pe_id u);
     em_user_id := default (em_user_id x) (pe_user_id u);
     em_client_id := default (em_client_id x) (pe_client_id u);
     subject := default (subject x) (pe_subject u);
     sender := default (sender x) (pe_sender u);
     recipient := default (recipient x) (pe_recipient u);
     body_text := default (body_text x) (pe_body_text u);
     body_html := default (body_html x) (pe_body_html u);
     sent_datetime := default (sent_datetime x) (pe_sent_datetime u);
     received_datetime := default (received_datetime x) (pe_received_datetime u);
     is_read := default (is_read x) (pe_is_read u);
     is_starred := default (is_starred x) (pe_is_starred u);
     has_attachments := default (has_attachments x) (pe_has_attachments u);
     labels := default (labels x) (pe_labels u);
     urgency_level := default (urgency_level x) (pe_urgency_level u);
     sentiment_score := default (sentiment_score x) (pe_sentiment_score u);
     topic_categories := default (topic_categories x) (pe_topic_categories u);
     is_processed := default (is_processed x) (pe_is_processed u);
     is_analyzed := default (is_analyzed x) (pe_is_analyzed u) |}.

Definition spread_client (x : Client) (u : PartialClient) : Client :=
  {| cl_id := default (cl_id x) (pc_id u);
     cl_user_id := default (cl_user_id x) (pc_user_id u);
     email_address := default (email_address x) (pc_email_address u);
     client_name := default (client_name x) (pc_client_name u);
     organization_name := default (organization_name x) (pc_organization_name u);
     business_category := default (business_category x) (pc_business_category u);
     communication_frequency :=
       default (communication_frequency x) (pc_communication_frequency u);
     relationship_strength :=
       default (relationship_strength x) (pc_relationship_strength u);
     total_emails_received :=
       default (total_emails_received x) (pc_total_emails_received u);
     total_emails_sent := default (total_emails_sent x) (pc_total_emails_sent u);
     first_interaction := default (first_interaction x) (pc_first_interaction u);
     last_interaction := default (last_interaction x) (pc_last_interaction u);
     priority_level := default (priority_level x) (pc_priority_level u) |}.

Definition spread_response (x : GeneratedResponse) (u : PartialGeneratedResponse)
  : GeneratedResponse :=
  {| gr_id := default (gr_id x) (pg_id u);
     original_email_id := default (original_email_id x) (pg_original_email_id u);
     generated_response := default (generated_response x) (pg_generated_response u);
     response_type := default (response_type x) (pg_response_type u);
     confidence_score := default (confidence_score x) (pg_confidence_score u);
     relevance_score := default (relevance_score x) (pg_relevance_score u);
     style_match_score := default (style_match_score x) (pg_style_match_score u);
     model_used := default (model_used x) (pg_model_used u);
     gr_status := default (gr_status x) (pg_status u);
     gr_created_at := default (gr_created_at x) (pg_created_at u) |}.

(** ** Application state (contexts/AppContext) *)

Inductive NotificationType := info | success | warning | error_type.

Record Notification := {
  n_id : string;
  n_type : NotificationType;
  title : string;
  message : string;
  timestamp : Z;
  read : bool
}.

(** [Omit<Notification, 'id' | 'timestamp' | 'read'>]. *)
Record NotificationInput := {
  ni_type : NotificationType;
  ni_title : string;
  ni_message : string
}.

Record SystemHealth := {
  api : bool;
  database : bool;
  vectorDb : bool;
  workers : bool
}.

Record PartialSystemHealth := {
  ph_api : option bool;
  ph_database : option bool;
  ph_vectorDb : option bool;
  ph_workers : option bool
}.

Definition spread_health (h : SystemHealth) (u : PartialSystemHealth) : SystemHealth :=
  {| api := default (api h) (ph_api u);
     database := default (database h) (ph_database u);
     vectorDb := default (vectorDb h) (ph_vectorDb u);
     workers := default (workers h) (ph_workers u) |}.

Inductive View := view_emails | view_responses | view_analytics | view_settings.

Record AppState := {
  emails : list EmailMessage;
  selectedEmail : option EmailMessage;
  emailsLoading : bool;
  emailsError : option string;
  responses : list GeneratedResponse;
  responsesLoading : bool;
  responsesError : option string;
  clients : list Client;
  clientsLoading : bool;
  clientsError : option string;
  activeTasks : gmap string TaskStatus;
  taskHistory : list TaskStatus;
  systemHealth : SystemHealth;
  sidebarOpen : bool;
  selectedView : View;
  notifications : list Notification
}.

Inductive AppAction :=
| SET_EMAILS (payload : list EmailMessage)
| ADD_EMAIL (payload : EmailMessage)
| UPDATE_EMAIL (id : string) (updates : PartialEmailMessage)
| SELECT_EMAIL (payload : option EmailMessage)
| SET_EMAILS_LOADING (payload : bool)
| SET_EMAILS_ERROR (payload : option string)
| SET_RESPONSES (payload : list GeneratedResponse)
| ADD_RESPONSE (payload : GeneratedResponse)
| UPDATE_RESPONSE (id : string) (updates : PartialGeneratedResponse)
| SET_RESPONSES_LOADING (payload : bool)
| SET_RESPONSES_ERROR (payload : option string)
| SET_CLIENTS (payload : list Client)
| ADD_CLIENT (payload : Client)
| UPDATE_CLIENT (id : string) (updates : PartialClient)
| SET_CLIENTS_LOADING (payload : bool)
| SET_CLIENTS_ERROR (payload : option string)
| ADD_TASK (payload : TaskStatus)
| UPDATE_TASK (payload : TaskStatus)
| REMOVE_TASK (payload : string)
| CLEAR_COMPLETED_TASKS
| UPDATE_SYSTEM_HEALTH (payload : PartialSystemHealth)
| TOGGLE_SIDEBAR
| SET_SELECTED_VIEW (payload : View)
| ADD_NOTIFICATION (payload : NotificationInput)
| MARK_NOTIFICATION_READ (payload : string)
| CLEAR_NOTIFICATIONS.

Definition initialState : AppState :=
  {| emails := [];
     selectedEmail := None;
     emailsLoading := false;
     emailsError := None;
     responses := [];
     responsesLoading := false;
     responsesError := None;
     clients := [];
     clientsLoading := false;
     clientsError := None;
     activeTasks := ∅;
     taskHistory := [];
     systemHealth :=
       {| api := false; database := false; vectorDb := false; workers := false |};
     sidebarOpen := true;
     selectedView := view_emails;
     notifications := [] |}.

(** What the reducer reads from outside its arguments when it handles
    ADD_NOTIFICATION: [Math.random().toString(36).substr(2, 9)] and
    [new Date()]. *)
Record Env := {
  random_id : string;
  now : Z
}.

(** The status strings the client tests for. *)
Definition is_terminal (s : string) : bool :=
  String.eqb s "SUCCESS" || String.eqb s "FAILURE".

Definition is_in_progress (s : string) : bool :=
  String.eqb s "PENDING" || String.eqb s "STARTED".

(** Record updates [{ ...state, f: v }]. *)
Definition set_emails (v : list EmailMessage) (s : AppState) : AppState :=
  {| emails := v; selectedEmail := selectedEmail s;
     emailsLoading := emailsLoading s; emailsError := emailsError s;
     responses := responses s; responsesLoading := responsesLoading s;
     responsesError := responsesError s; clients := clients s;
     clientsLoading := clientsLoading s; clientsError := clientsError s;
     activeTasks := activeTasks s; taskHistory := taskHistory s;
     systemHealth := systemHealth s; sidebarOpen := sidebarOpen s;
     selectedView := selectedView s; notifications := notifications s |}.

Definition set_selectedEmail (v : option EmailMessage) (s : AppState) : AppState :=
  {| emails := emails s; selectedEmail := v;
     emailsLoading := emailsLoading s; emailsError := emailsError s;
     responses := responses s; responsesLoading := responsesLoading s;
     responsesError := responsesError s; clients := clients s;
     clientsLoading := clientsLoading s; clientsError := clientsError s;
     activeTasks := activeTasks s; taskHistory := taskHistory s;
     systemHealth := systemHealth s; sidebarOpen := sidebarOpen s;
     selectedView := selectedView s; notifications := notifications s |}.

Definition set_emailsLoading (v : bool) (s : AppState) : AppState :=
  {| emails := emails s; selectedEmail := selectedEmail s;
     emailsLoading := v; emailsError := emailsError s;
     responses := responses s; responsesLoading := responsesLoading s;
     responsesError := responsesError s; clients := clients s;
     clientsLoading := clientsLoading s; clientsError := clientsError s;
     activeTasks := activeTasks s; taskHistory := taskHistory s;
     systemHealth := systemHealth s; sidebarOpen := sidebarOpen s;
     selectedView := selectedView s; notifications := notifications s |}.

Definition set_emailsError (v : option string) (s : AppState) : AppState :=
  {| emails := emails s; selectedEmail := selectedEmail s;
     emailsLoading := emailsLoading s; emailsError := v;
     responses := responses s; responsesLoading := responsesLoading s;
     responsesError := responsesError s; clients := clients s;
     clientsLoading := clientsLoading s; clientsError := clientsError s;
     activeTasks := activeTasks s; taskHistory := taskHistory s;
     systemHealth := systemHealth s; sidebarOpen := sidebarOpen s;
     selectedView := selectedView s; notifications := notifications s |}.

Definition set_responses (v : list GeneratedResponse) (s : AppState) : AppState :=
  {| emails := emails s; selectedEmail := selectedEmail s;
     emailsLoading := emailsLoading s; emailsError := emailsError s;
     responses := v; responsesLoading := responsesLoading s;
     responsesError := responsesError s; clients := clients s;
     clientsLoading := clientsLoading s; clientsError := clientsError s;
     activeTasks := activeTasks s; taskHistory := taskHistory s;
     systemHealth := systemHealth s; sidebarOpen := sidebarOpen s;
     selectedView := selectedView s; notifications := notifications s |}.

Definition set_responsesLoading (v : bool) (s : AppState) : AppState :=
  {| emails := emails s; selectedEmail := selectedEmail s;
     emailsLoading := emailsLoading s; emailsError := emailsError s;
     responses := responses s; responsesLoading := v;
     responsesError := responsesError s; clients := clients s;
     clientsLoading := clientsLoading s; clientsError := clientsError s;
     activeTasks := activeTasks s; taskHistory := taskHistory s;
     systemHealth := systemHealth s; sidebarOpen := sidebarOpen s;
     selectedView := selectedView s; notifications := notifications s |}.

Definition set_responsesError (v : option string) (s : AppState) : AppState :=
  {| emails := emails s; selectedEmail := selectedEmail s;
     emailsLoading := emailsLoading s; emailsError := emailsError s;
     responses := responses s; responsesLoading := responsesLoading s;
     responsesError := v; clients := clients s;
     clientsLoading := clientsLoading s; clientsError := clientsError s;
     activeTasks := activeTasks s; taskHistory := taskHistory s;
     systemHealth := systemHealth s; sidebarOpen := sidebarOpen s;
     selectedView := selectedView s; notifications := notifications s |}.

Definition set_clients (v : list Client) (s : AppState) : AppState :=
  {| emails := emails s; selectedEmail := selectedEmail s;
     emailsLoading := emailsLoading s; emailsError := emailsError s;
     responses := responses s; responsesLoading := responsesLoading s;
     responsesError := responsesError s; clients := v;
     clientsLoading := clientsLoading s; clientsError := clientsError s;
     activeTasks := activeTasks s; taskHistory := taskHistory s;
     systemHealth := systemHealth s; sidebarOpen := sidebarOpen s;
     selectedView := selectedView s; notifications := notifications s |}.

Definition set_clientsLoading (v : bool) (s : AppState) : AppState :=
  {| emails := emails s; selectedEmail := selectedEmail s;
     emailsLoading := emailsLoading s; emailsError := emailsError s;
     responses := responses s; responsesLoading := responsesLoading s;
     responsesError := responsesError s; clients := clients s;
     clientsLoading := v; clientsError := clientsError s;
     activeTasks := activeTasks s; taskHistory := taskHistory s;
     systemHealth := systemHealth s; sidebarOpen := sidebarOpen s;
     selectedView := selectedView s; notifications := notifications s |}.

Definition set_clientsError (v : option string) (s : AppState) : AppState :=
  {| emails := emails s; selectedEmail := selectedEmail s;
     emailsLoading := emailsLoading s; emailsError := emailsError s;
     responses := responses s; responsesLoading := responsesLoading s;
     responsesError := responsesError s; clients := clients s;
     clientsLoading := clientsLoading s; clientsError := v;
     activeTasks := activeTasks s; taskHistory := taskHistory s;
     systemHealth := systemHealth s; sidebarOpen := sidebarOpen s;
     selectedView := selectedView s; notifications := notifications s |}.

Definition set_tasks (a : gmap string TaskStatus) (h : list TaskStatus)
  (s : AppState) : AppState :=
  {| emails := emails s; selectedEmail := selectedEmail s;
     emailsLoading := emailsLoading s; emailsError := emailsError s;
     responses := responses s; responsesLoading := responsesLoading s;
     responsesError := responsesError s; clients := clients s;
     clientsLoading := clientsLoading s; clientsError := clientsError s;
     activeTasks := a; taskHistory := h;
     systemHealth := systemHealth s; sidebarOpen := sidebarOpen s;
     selectedView := selectedView s; notifications := notifications s |}.

Definition set_systemHealth (v : SystemHealth) (s : AppState) : AppState :=
  {| emails := emails s; selectedEmail := selectedEmail s;
     emailsLoading := emailsLoading s; emailsError := emailsError s;
     responses := responses s; responsesLoading := responsesLoading s;
     responsesError := responsesError s; clients := clients s;
     clientsLoading := clientsLoading s; clientsError := clientsError s;
     activeTasks := activeTasks s; taskHistory := taskHistory s;
     systemHealth := v; sidebarOpen := sidebarOpen s;
     selectedView := selectedView s; notifications := notifications s |}.

Definition set_sidebarOpen (v : bool) (s : AppState) : AppState :=
  {| emails := emails s; selectedEmail := selectedEmail s;
     emailsLoading := emailsLoading s; emailsError := emailsError s;
     responses := responses s; responsesLoading := responsesLoading s;
     responsesError := responsesError s; clients := clients s;
     clientsLoading := clientsLoading s; clientsError := clientsError s;
     activeTasks := activeTasks s; taskHistory := taskHistory s;
     systemHealth := systemHealth s; sidebarOpen := v;
     selectedView := selectedView s; notifications := notifications s |}.

Definition set_selectedView (v : View) (s : AppState) : AppState :=
  {| emails := emails s; selectedEmail := selectedEmail s;
     emailsLoading := emailsLoading s; emailsError := emailsError s;
     responses := responses s; responsesLoading := responsesLoading s;
     responsesError := responsesError s; clients := clients s;
     clientsLoading := clientsLoading s; clientsError := clientsError s;
     activeTasks := activeTasks s; taskHistory := taskHistory s;
     systemHealth := systemHealth s; sidebarOpen := sidebarOpen s;
     selectedView := v; notifications := notifications s |}.

Definition set_notifications (v : list Notification) (s : AppState) : AppState :=
  {| emails := emails s; selectedEmail := selectedEmail s;
     emailsLoading := emailsLoading s; emailsError := emailsError s;
     responses := responses s; responsesLoading := responsesLoading s;
     responsesError := responsesError s; clients := clients s;
     clientsLoading := clientsLoading s; clientsError := clientsError s;
     activeTasks := activeTasks s; taskHistory := taskHistory s;
     systemHealth := systemHealth s; sidebarOpen := sidebarOpen s;
     selectedView := selectedView s; notifications := v |}.

Definition mark_read (n : Notification) : Notification :=
  {| n_id := n_id n; n_type := n_type n; title := title n;
     message := message n; timestamp := timestamp n; read := true |}.

(** [appReducer]: one case per action type, in the order of the source;
    it gives the value of the state that is returned.  [take k l] is
    [l.slice(0, k)].  ADD_TASK calls [set] on the Map of the state it is
    given before copying it: the entries of the returned state are the same
    either way, but the Map of the given state is written to.  What happens
    to the Map objects is the subject of [reduce_tasks] below. *)
Definition appReducer (e : Env) (state : AppState) (action : AppAction) : AppState :=
  match action with
  | SET_EMAILS payload => set_emails payload state
  | ADD_EMAIL payload => set_emails (payload :: emails state) state
  | UPDATE_EMAIL id updates =>
      set_selectedEmail
        (match selectedEmail state with
         | Some sel =>
             if String.eqb (em_id sel) id
             then Some (spread_email sel updates) else Some sel
         | None => None
         end)
        (set_emails
           (map (fun email =>
                   if String.eqb (em_id email) id
                   then spread_email email updates else email)
                (emails state))
           state)
  | SELECT_EMAIL payload => set_selectedEmail payload state
  | SET_EMAILS_LOADING payload => set_emailsLoading payload state
  | SET_EMAILS_ERROR payload => set_emailsError payload state
  | SET_RESPONSES payload => set_responses payload state
  | ADD_RESPONSE payload => set_responses (payload :: responses state) state
  | UPDATE_RESPONSE id updates =>
      set_responses
        (map (fun response =>
                if String.eqb (gr_id response) id
                then spread_response response updates else response)
             (responses state))
        state
  | SET_RESPONSES_LOADING payload => set_responsesLoading payload state
  | SET_RESPONSES_ERROR payload => set_responsesError payload state
  | SET_CLIENTS payload => set_clients payload state
  | ADD_CLIENT payload => set_clients (payload :: clients state) state
  | UPDATE_CLIENT id updates =>
      set_clients
        (map (fun client =>
                if String.eqb (cl_id client) id
                then spread_client client updates else client)
             (clients state))
        state
  | SET_CLIENTS_LOADING payload => set_clientsLoading payload state
  | SET_CLIENTS_ERROR payload => set_clientsError payload state
  | ADD_TASK payload =>
      set_tasks (<[task_id payload := payload]> (activeTasks state))
                (taskHistory state) state
  | UPDATE_TASK payload =>
      let updatedTasks := <[task_id payload := payload]> (activeTasks state) in
      if is_terminal (status payload)
      then set_tasks (delete (task_id payload) updatedTasks)
                     (payload :: take 49 (taskHistory state)) state
      else set_tasks updatedTasks (taskHistory state) state
  | REMOVE_TASK payload =>
      set_tasks (delete payload (activeTasks state)) (taskHistory state) state
  | CLEAR_COMPLETED_TASKS => set_tasks (activeTasks state) [] state
  | UPDATE_SYSTEM_HEALTH payload =>
      set_systemHealth (spread_health (systemHealth state) payload) state
  | TOGGLE_SIDEBAR => set_sidebarOpen (negb (sidebarOpen state)) state
  | SET_SELECTED_VIEW payload => set_selectedView payload state
  | ADD_NOTIFICATION payload =>
      let notification :=
        {| n_id := random_id e; n_type := ni_type payload;
           title := ni_title payload; message := ni_message payload;
           timestamp := now e; read := false |} in
      set_notifications (notification :: take 99 (notifications state)) state
  | MARK_NOTIFICATION_READ payload =>
      set_notifications
        (map (fun notif =>
                if String.eqb (n_id notif) payload then mark_read notif else notif)
             (notifications state))
        state
  | CLEAR_NOTIFICATIONS => set_notifications [] state
  end.

(** A run of the store: the actions dispatched so far, each with the
    environment its reduction saw. *)
Definition dispatch_all (s : AppState) (acts : list (Env * AppAction)) : AppState :=
  fold_left (fun st ea => appReducer (fst ea) st (snd ea)) acts s.

(** ** The HTTP layer (class ApiService) *)

Inductive Method := GET | POST | PUT | DELETE.

Record Request := {
  method : Method;
  url : string;
  body : list (string * json)
}.

(** What the hooks read from a rejected request:
    [error?.response?.status] and [error?.response?.data?.detail]. *)
Record HttpError := {
  http_status : option Z;
  detail : option string
}.

Inductive Outcome (A : Type) : Type :=
| Resolved (a : A)
| Rejected (e : HttpError).
Arguments Resolved {A} a.
Arguments Rejected {A} e.

(** An [async] method of ApiService: it awaits requests and returns; a
    rejected request is not caught there and rejects the method's promise.
    [R] is the type of [response.data]. *)
Inductive Api (R A : Type) : Type :=
| Ret (a : A)
| Await (req : Request) (k : R -> Api R A).
Arguments Ret {R A} a.
Arguments Await {R A} req k.

(** Running a method against the answers of the server, in order.  The
    result is the requests sent and, when the promise settled, its outcome
    ([None]: still waiting for an answer). *)
Fixpoint run_api {R A : Type} (p : Api R A) (server : list (Outcome R))
  : list Request * option (Outcome A) :=
  match p with
  | Ret a => ([], Some (Resolved a))
  | Await req k =>
      match server with
      | [] => ([req], None)
      | Rejected e :: _ => ([req], Some (Rejected e))
      | Resolved d :: rest =>
          let '(reqs, out) := run_api (k d) rest in (req :: reqs, out)
      end
  end.

(** [{ task_id: string }], the body answered to a submission. *)
Record TaskRef := { ref_task_id : string }.

(** A field whose value is [undefined] is left out of the JSON body. *)
Definition opt_field (name : string) (v : option json) : list (string * json) :=
  match v with
  | Some j => [(name, j)]
  | None => []
  end.

Definition submitEmailAnalysis (emailId userId : string) (priority : option string)
  : Api TaskRef TaskRef :=
  Await {| method := POST; url := "/tasks/analysis/email";
           body := [("email_id", JStr emailId); ("user_id", JStr userId);
                    ("priority", JStr (default "normal" priority))] |}
        (fun data => Ret data).

Definition submitBatchAnalysis (emailIds : list string) (userId : string)
  (maxConcurrent : option Q) : Api TaskRef TaskRef :=
  Await {| method := POST; url := "/tasks/analysis/batch";
           body := [("email_ids", JArr (map JStr emailIds));
                    ("user_id", JStr userId);
                    ("max_concurrent", JNum (default 5%Q maxConcurrent))] |}
        (fun data => Ret data).

Definition submitResponseGeneration (emailId userId : string)
  (generationOptions : option json) : Api TaskRef TaskRef :=
  Await {| method := POST; url := "/tasks/generation/response";
           body := [("email_id", JStr emailId); ("user_id", JStr userId)]
                   ++ opt_field "generation_options" generationOptions |}
        (fun data => Ret data).

Definition submitVectorization (emailIds : list string) (userId : string)
  (updateExisting : option bool) : Api TaskRef TaskRef :=
  Await {| method := POST; url := "/tasks/vectorization/emails";
           body := [("email_ids", JArr (map JStr emailIds));
                    ("user_id", JStr userId);
                    ("update_existing", JBool (default false updateExisting))] |}
        (fun data => Ret data).

Definition submitProfileUpdate (userId : string) : Api TaskRef TaskRef :=
  Await {| method := POST; url := "/tasks/profile/update";
           body := [("user_id", JStr userId)] |}
        (fun data => Ret data).

Definition getTaskStatus_request (taskId : string) : Request :=
  {| method := GET; url := "/tasks/status/" +:+ taskId; body := [] |}.

Definition getTaskStatus (taskId : string) : Api TaskStatus TaskStatus :=
  Await (getTaskStatus_request taskId) (fun data => Ret data).

Definition cancelTask (taskId : string) : Api json json :=
  Await {| method := DELETE; url := "/tasks/cancel/" +:+ taskId; body := [] |}
        (fun data => Ret data).

(** Options of [generateResponse]; the spread puts them after
    [use_rag: true], so a given [use_rag] replaces it. *)
Record GenerateOptions := {
  use_rag : option bool;
  max_context_length : option Q;
  custom_instructions : option string
}.

Definition generateResponse_request (emailId : string) (options : option GenerateOptions)
  : Request :=
  {| method := POST; url := "/responses/generate";
     body :=
       [("email_id", JStr emailId);
        ("use_rag", JBool (default true (options ≫= use_rag)))]
       ++ opt_field "max_context_length" (JNum <$> (options ≫= max_context_length))
       ++ opt_field "custom_instructions" (JStr <$> (options ≫= custom_instructions)) |}.

(** Declared [Promise<any>]; the hook reads [data.task_id] from it. *)
Definition generateResponse (emailId : string) (options : option GenerateOptions)
  : Api TaskRef TaskRef :=
  Await (generateResponse_request emailId options) (fun data => Ret data).

(** ** Effects of the hooks and of the context's convenience methods *)

(** What a callback does to the outside, in program order. *)
Inductive Effect :=
| Http (req : Request)
| Dispatch (a : AppAction)
| Toast (t : NotificationType) (text : string)
| InvalidateQueries (queryKey : list string)
| SetTimeout (ms : Z)
| SetInterval (ms : Z)
| ClearInterval
| OnUpdate (data : TaskStatus)
| ConsoleError (text : string).

(** Where a polling loop stands once the answers received so far have been
    handled: [Idle], polling was never started; [Scheduled], the next poll is
    pending (a timer is set or its request awaits an answer); [Stopped], no
    further poll will be made. *)
Inductive Poller := Idle | Scheduled | Stopped.

(** [s || d] on an optional string: [undefined], [null] and the empty
    string are falsy. *)
Definition or_string (s : option string) (d : string) : string :=
  match s with
  | Some EmptyString | None => d
  | Some v => v
  end.

(** [s.slice(0, 8)]. *)
Definition slice8 (s : string) : string := String.substring 0 8 s.

Definition addNotification (n : NotificationInput) : list Effect :=
  [Dispatch (ADD_NOTIFICATION n);
   Toast (ni_type n) (ni_title n +:+ ": " +:+ ni_message n)].

Definition updateTaskStatus (taskStatus : TaskStatus) : list Effect :=
  Dispatch (UPDATE_TASK taskStatus) ::
  if String.eqb (status taskStatus) "SUCCESS" then
    addNotification
      {| ni_type := success; ni_title := "Task Completed";
         ni_message := "Task " +:+ slice8 (task_id taskStatus)
                       +:+ " completed successfully" |}
  else if String.eqb (status taskStatus) "FAILURE" then
    addNotification
      {| ni_type := error_type; ni_title := "Task Failed";
         ni_message := "Task " +:+ slice8 (task_id taskStatus) +:+ " failed: "
                       +:+ or_string (error taskStatus) "Unknown error" |}
  else [].

(** The effects of [await apiService.m(...)] inside a callback, given the
    answer of the server to the request it makes. *)
Definition await {R A : Type} (p : Api R A) (answer : Outcome R)
  : list Effect * option (Outcome A) :=
  let '(reqs, out) := run_api p [answer] in (map Http reqs, out).

(** One call of a [pollTask] closure: [handle] is the body of its [try]
    after [updateTaskStatus(status)], and answers whether it called
    [setTimeout(pollTask, 2000)].  The [catch] logs and does nothing else. *)
Definition pollTask_once (taskId : string)
  (handle : TaskStatus -> list Effect * bool) (answer : Outcome TaskStatus)
  : list Effect * bool :=
  let '(sent, out) := await (getTaskStatus taskId) answer in
  match out with
  | Some (Resolved st) =>
      let '(effs, again) := handle st in
      (sent ++ updateTaskStatus st ++ effs, again)
  | Some (Rejected _) => (sent ++ [ConsoleError "Error polling task status:"], false)
  | None => (sent, false)
  end.

(** The loop that [setTimeout(pollTask, ...)] unfolds into, over the answers
    of the server to the successive status requests. *)
Fixpoint pollTask (taskId : string) (handle : TaskStatus -> list Effect * bool)
  (server : list (Outcome TaskStatus)) : list Effect * Poller :=
  match server with
  | [] => ([], Scheduled)
  | answer :: rest =>
      let '(effs, again) := pollTask_once taskId handle answer in
      if again
      then let '(more, p) := pollTask taskId handle rest in (effs ++ more, p)
      else (effs, Stopped)
  end.

(** hooks/useResponses.ts, [useGenerateResponse]: the branches of
    [pollTask] on [status.status]. *)
Definition useGenerateResponse_handle (st : TaskStatus) : list Effect * bool :=
  if String.eqb (status st) "SUCCESS" then
    (InvalidateQueries ["responses"] ::
     addNotification
       {| ni_type := success; ni_title := "Response generated";
          ni_message := "AI response has been generated successfully" |},
     false)
  else if String.eqb (status st) "PENDING" || String.eqb (status st) "STARTED" then
    ([SetTimeout 2000], true)
  else if String.eqb (status st) "FAILURE" then
    (addNotification
       {| ni_type := error_type; ni_title := "Response generation failed";
          ni_message := or_string (error st) "Failed to generate AI response" |},
     false)
  else ([], false).

(** hooks/useEmails.ts, [useAnalyzeEmail]: the branches of [pollTask]. *)
Definition useAnalyzeEmail_handle (emailId : string) (st : TaskStatus)
  : list Effect * bool :=
  if String.eqb (status st) "SUCCESS" then
    ([InvalidateQueries ["emails"; "detail"; emailId];
      InvalidateQueries ["emails"; "list"]], false)
  else if String.eqb (status st) "PENDING" || String.eqb (status st) "STARTED" then
    ([SetTimeout 2000], true)
  else ([], false).

(** A mutation: [mutationFn], then [onSuccess] or [onError]. *)
Definition useMutation {R : Type} (mutationFn : Api R R) (answer : Outcome R)
  (onSuccess : R -> list Effect * Poller) (onError : HttpError -> list Effect)
  : list Effect * Poller :=
  let '(sent, out) := await mutationFn answer in
  match out with
  | Some (Resolved data) =>
      let '(effs, p) := onSuccess data in (sent ++ effs, p)
  | Some (Rejected e) => (sent ++ onError e, Idle)
  | None => (sent, Idle)
  end.

Definition useGenerateResponse (emailId : string) (options : option GenerateOptions)
  (answer : Outcome TaskRef) (server : list (Outcome TaskStatus))
  : list Effect * Poller :=
  useMutation (generateResponse emailId options) answer
    (fun data =>
       let '(polls, p) :=
         pollTask (ref_task_id data) useGenerateResponse_handle server in
       (addNotification
          {| ni_type := info; ni_title := "Response generation started";
             ni_message := "AI response generation in progress ("
                           +:+ slice8 (ref_task_id data) +:+ "...)" |}
        ++ SetTimeout 1000 :: polls, p))
    (fun e =>
       addNotification
         {| ni_type := error_type;
            ni_title := "Failed to start response generation";
            ni_message := or_string (detail e)
                            "Failed to start AI response generation" |}).

Definition useAnalyzeEmail (emailId userId : string) (priority : option string)
  (answer : Outcome TaskRef) (server : list (Outcome TaskStatus))
  : list Effect * Poller :=
  useMutation (submitEmailAnalysis emailId userId priority) answer
    (fun data =>
       let '(polls, p) :=
         pollTask (ref_task_id data) (useAnalyzeEmail_handle emailId) server in
       (addNotification
          {| ni_type := info; ni_title := "Analysis started";
             ni_message := "Email analysis task submitted ("
                           +:+ slice8 (ref_task_id data) +:+ "...)" |}
        ++ SetTimeout 1000 :: polls, p))
    (fun e =>
       addNotification
         {| ni_type := error_type; ni_title := "Failed to start analysis";
            ni_message := or_string (detail e)
                            "Failed to submit email for analysis" |}).

(** services/api.ts, [streamTaskUpdates]: the callback of [setInterval],
    once per tick, over the answers of the server, when each answer arrives
    before the next tick.  The interval with several requests in flight is
    [stream_step] below, of which this is the case of timely answers. *)
Fixpoint streamTaskUpdates_ticks (taskId : string)
  (server : list (Outcome TaskStatus)) : list Effect * Poller :=
  match server with
  | [] => ([], Scheduled)
  | answer :: rest =>
      let '(sent, out) := await (getTaskStatus taskId) answer in
      match out with
      | Some (Resolved st) =>
          if String.eqb (status st) "SUCCESS" || String.eqb (status st) "FAILURE"
          then (sent ++ [OnUpdate st; ClearInterval], Stopped)
          else
            let '(more, p) := streamTaskUpdates_ticks taskId rest in
            (sent ++ OnUpdate st :: more, p)
      | Some (Rejected _) =>
          (sent ++ [ConsoleError "Error polling task status:"; ClearInterval],
           Stopped)
      | None => (sent, Scheduled)
      end
  end.

Definition streamTaskUpdates (taskId : string) (server : list (Outcome TaskStatus))
  : list Effect * Poller :=
  let '(effs, p) := streamTaskUpdates_ticks taskId server in
  (SetInterval 2000 :: effs, p).

(** Observations on a trace of effects. *)
Definition is_status_request (ef : Effect) : bool :=
  match ef with
  | Http {| method := GET; url := u |} => String.prefix "/tasks/status/" u
  | _ => false
  end.

Definition polls_made (tr : list Effect) : nat :=
  length (List.filter is_status_request tr).

(** A notification that reports the outcome of the job to the user. *)
Definition is_outcome_notification (ef : Effect) : bool :=
  match ef with
  | Dispatch (ADD_NOTIFICATION n) =>
      match ni_type n with
      | success | error_type => true
      | _ => false
      end
  | _ => false
  end.

Definition outcome_notified (tr : list Effect) : bool :=
  existsb is_outcome_notification tr.

(** The store after the dispatches of a trace, the [k]-th reduction seeing
    the environment [envs k]. *)
Fixpoint apply_effects (envs : nat -> Env) (k : nat) (s : AppState)
  (tr : list Effect) : AppState :=
  match tr with
  | [] => s
  | Dispatch a :: rest => apply_effects envs (S k) (appReducer (envs k) s a) rest
  | _ :: rest => apply_effects envs k s rest
  end.

(** Sample values used by the examples below. *)
Definition env0 : Env := {| random_id := "k3x9q0z1a"; now := 1700000000000%Z |}.

Definition task (tid st : string) (res : json) (err : option string) : TaskStatus :=
  {| task_id := tid; status := st; result := res; error := err;
     date_done := None; successful := None |}.

(** An action after which task [t] is listed in [activeTasks]: an ADD_TASK
    for it, or an UPDATE_TASK for it whose status is not SUCCESS or FAILURE. *)
Definition reactivates (t : string) (a : AppAction) : bool :=
  match a with
  | ADD_TASK p => String.eqb (task_id p) t
  | UPDATE_TASK p => String.eqb (task_id p) t && negb (is_terminal (status p))
  | _ => false
  end.

(** An action that reports task [t] as PENDING or STARTED. *)
Definition reports_in_progress (t : string) (a : AppAction) : bool :=
  match a with
  | ADD_TASK p | UPDATE_TASK p =>
      String.eqb (task_id p) t && is_in_progress (status p)
  | _ => false
  end.

(** The job [t], if listed, is not listed as PENDING or STARTED. *)
Definition not_in_progress (t : string) (s : AppState) : Prop :=
  forall q, activeTasks s !! t = Some q -> is_in_progress (status q) = false.

(** A generation job that succeeded, the same job reported as started
    again, and the same job reported as failed. *)
Definition job_done : TaskStatus := task "7f3a9c2e-11" "SUCCESS" (JStr "Dear Ann, ...") None.
Definition job_started : TaskStatus := task "7f3a9c2e-11" "STARTED" JNull None.
Definition job_failed : TaskStatus :=
  task "7f3a9c2e-11" "FAILURE" JNull (Some "worker lost").

(** An answer after which the hooks' [pollTask] polls again. *)
Definition in_progress_answer (r : Outcome TaskStatus) : bool :=
  match r with
  | Resolved st => is_in_progress (status st)
  | Rejected _ => false
  end.

(** An answer after which [streamTaskUpdates] keeps its interval. *)
Definition keeps_interval (r : Outcome TaskStatus) : bool :=
  match r with
  | Resolved st => negb (is_terminal (status st))
  | Rejected _ => false
  end.

(** What the [pollTask] closures of the hooks have in common: they poll
    again exactly on PENDING and STARTED, make no status request of their
    own, and report an outcome to the user only for SUCCESS or FAILURE. *)
Class PollHandle (handle : TaskStatus -> list Effect * bool) : Prop := {
  handle_again : forall st, snd (handle st) = is_in_progress (status st);
  handle_no_poll : forall st, polls_made (fst (handle st)) = 0;
  handle_notifies : forall st,
    outcome_notified (fst (handle st)) = true -> is_terminal (status st) = true
}.

(** The status Celery reports for a cancelled (revoked) task, and the
    answer of the server for a task id it does not know. *)
Definition revoked (tid : string) : TaskStatus := task tid "REVOKED" JNull None.

Definition not_found : HttpError :=
  {| http_status := Some 404%Z; detail := Some "Task not found" |}.

(** The body answered to a submission in the examples. *)
Definition submitted : TaskRef := {| ref_task_id := "7f3a9c2e-11" |}.

(** ** JavaScript numbers *)

(** [x || d] on an optional number that is only compared: [null],
    [undefined] and [0] are falsy. *)
Definition or_number (x : option Q) (d : Q) : Q :=
  match x with
  | Some v => if Qeq_bool v 0 then d else v
  | None => d
  end.

(** A number the code computes with is an IEEE 754 double: [spec_float]
    at precision 53 with exponents up to 1024, whose operations round to
    the nearest double, ties to even. *)
Abbreviation number := SpecFloat.spec_float.

Definition js_add : number -> number -> number := SpecFloat.SFadd 53 1024.
Definition js_mul : number -> number -> number := SpecFloat.SFmul 53 1024.
Definition js_div : number -> number -> number := SpecFloat.SFdiv 53 1024.

(** The double of an integer, and the double of a numeral [n/d]: the
    quotient of the two integers, which is the double nearest to the
    numeral when both are below 2^53, as for every decimal numeral of up to
    15 digits. *)
Definition number_of_Z (z : Z) : number :=
  SpecFloat.binary_normalize 53 1024 z 0 false.

Definition js_number (q : Q) : number :=
  js_div (number_of_Z (Qnum q)) (number_of_Z (Zpos (Qden q))).

(** [x || d] on a number the code computes with: [null], [undefined], [0],
    [-0] and [NaN] are falsy. *)
Definition number_or (x : option number) (d : number) : number :=
  match x with
  | Some (SpecFloat.S754_finite s m e) => SpecFloat.S754_finite s m e
  | Some (SpecFloat.S754_infinity s) => SpecFloat.S754_infinity s
  | _ => d
  end.

(** [Math.round]: the integer nearest to [x], halves rounded up; a double
    whose exponent is not negative is an integer already; zero, the
    infinities and [NaN] are returned as they are, and a result 0 keeps the
    sign of [x]. *)
Definition Math_round (x : number) : number :=
  match x with
  | SpecFloat.S754_finite s m e =>
      if (0 <=? e)%Z then x
      else
        let n := SpecFloat.cond_Zopp s (Zpos m) in
        let r := ((n + 2 ^ (- e - 1)) / 2 ^ (- e))%Z in
        if (r =? 0)%Z then SpecFloat.S754_zero s else number_of_Z r
  | _ => x
  end.

(** The real number a finite double stands for. *)
Definition value (x : number) : option Q :=
  match x with
  | SpecFloat.S754_zero _ => Some 0%Q
  | SpecFloat.S754_finite s m e =>
      let n := SpecFloat.cond_Zopp s (Zpos m) in
      Some (if (0 <=? e)%Z then inject_Z (n * 2 ^ e)
            else Qmake n (Z.to_pos (2 ^ (- e))))
  | _ => None
  end.

(** A double that lies in the interval [0,1]. *)
Definition in_unit_interval (x : number) : bool :=
  match value x with
  | Some v => Qle_bool 0 v && Qle_bool v 1
  | None => false
  end.

(** Whether a location tells that the value lies above the mantissa. *)
Definition inexact (l : SpecFloat.location) : bool :=
  match l with
  | SpecFloat.loc_Exact => false
  | SpecFloat.loc_Inexact _ => true
  end.

(** What [k] right shifts do to the record of [m] at location [l]: the
    quotient, and flags that are set only when the value lies above it. *)
Definition shifted (l : SpecFloat.location) (m k : Z) (r : SpecFloat.shr_record)
  : Prop :=
  SpecFloat.shr_m r = (m / 2 ^ k)%Z
  /\ (inexact l = false -> (m mod 2 ^ k)%Z = 0%Z
      -> SpecFloat.shr_r r = false /\ SpecFloat.shr_s r = false).

(** A double that is not negative, whose exponent is at most [c - 53] and
    whose value is at most the integer [b]. *)
Definition at_most (b c : Z) (x : number) : Prop :=
  match x with
  | SpecFloat.S754_zero false => True
  | SpecFloat.S754_finite false m e =>
      (e <= c - 53)%Z /\ (Zpos m <= b * 2 ^ (- e))%Z
  | _ => False
  end.

(** ** components/Dashboard.tsx: one generated response in the list *)


(** The value of the progress bar, [(confidence_score || 0) * 100]. *)
Definition confidence_progress (response : GeneratedResponse) : number :=
  js_mul (number_or (confidence_score response) (number_of_Z 0)) (number_of_Z 100).

(** The number shown in the badge, [Math.round((confidence_score || 0) * 100)]. *)
Definition confidence_percent (response : GeneratedResponse) : number :=
  Math_round (confidence_progress response).



Definition scored_response : GeneratedResponse :=
  {| gr_id := "r-2"; original_email_id := "mail-2";
     generated_response := "Hi Bob, Friday works for me.";
     response_type := "friendly";
     confidence_score := Some (js_number (87 # 100));
     relevance_score := Some (3 # 4)%Q;
     style_match_score := None; model_used := Some "gpt-4";
     gr_status := "draft"; gr_created_at := "2025-01-07T10:05:00Z" |}.

(** A response whose score, 0.285, is not a double: the nearest double is
    a little smaller. *)
Definition near_tie_response : GeneratedResponse :=
  {| gr_id := "r-3"; original_email_id := "mail-3";
     generated_response := "Dear Eve, please find the offer attached.";
     response_type := "formal";
     confidence_score := Some (js_number (285 # 1000));
     relevance_score := None;
     style_match_score := None; model_used := None;
     gr_status := "draft"; gr_created_at := "2025-01-07T10:10:00Z" |}.

(** ** hooks/useClients.ts: [useClientStats] *)

Record CategoryCount := {
  category : string;
  count : nat
}.

Record ClientStats := {
  totalClients : nat;
  activeClients : nat;
  highPriorityClients : nat;
  averageRelationshipStrength : number;
  topBusinessCategories : list CategoryCount;
  recentInteractions : nat
}.

(** The own keys of an object come in this order: the array indices
    ("0", "1", ... up to 2^32 - 2, written without leading zeros) by
    value, then the other keys by insertion. *)
Definition digit_of (a : ascii) : option N :=
  let n := N_of_ascii a in
  if ((48 <=? n) && (n <=? 57))%N then Some (n - 48)%N else None.

Fixpoint digits_value (s : string) (acc : N) : option N :=
  match s with
  | EmptyString => Some acc
  | String a s' =>
      match digit_of a with
      | Some d => digits_value s' (10 * acc + d)%N
      | None => None
      end
  end.

Definition array_index (s : string) : option N :=
  match s with
  | EmptyString => None
  | String a rest =>
      if Ascii.eqb a "0"%char
      then (if String.eqb rest "" then Some 0%N else None)
      else match digits_value s 0 with
           | Some v => if (v <=? 4294967294)%N then Some v else None
           | None => None
           end
  end.

(** [acc[k] = (acc[k] || 0) + 1] on an object kept as its entries in
    insertion order.  Category names are taken not to be names that every
    object inherits ([constructor], [toString], ...), for which [acc[k]] is
    not a number. *)
Fixpoint increment (k : string) (acc : list (string * nat)) : list (string * nat) :=
  match acc with
  | [] => [(k, 1)]
  | (k', n) :: rest =>
      if String.eqb k' k then (k', S n) :: rest else (k', n) :: increment k rest
  end.

Fixpoint insert_by_index (i : N) (e : string * nat) (l : list (N * (string * nat)))
  : list (N * (string * nat)) :=
  match l with
  | [] => [(i, e)]
  | (j, e') :: rest =>
      if (i <? j)%N then (i, e) :: l else (j, e') :: insert_by_index i e rest
  end.

(** [Object.entries]. *)
Definition Object_entries (obj : list (string * nat)) : list (string * nat) :=
  let indexed :=
    fold_left (fun acc e =>
                 match array_index (fst e) with
                 | Some i => insert_by_index i e acc
                 | None => acc
                 end) obj [] in
  map snd indexed
  ++ List.filter (fun e => match array_index (fst e) with
                           | Some _ => false
                           | None => true
                           end) obj.

(** [entries.sort(([,a], [,b]) => b - a)]: by count, largest first; the sort
    is stable. *)
Fixpoint insert_by_count (e : string * nat) (l : list (string * nat))
  : list (string * nat) :=
  match l with
  | [] => [e]
  | e' :: rest =>
      if (snd e' <? snd e)%nat then e :: l else e' :: insert_by_count e rest
  end.

Definition sort_by_count (l : list (string * nat)) : list (string * nat) :=
  fold_left (fun acc e => insert_by_count e acc) l [].

Definition days (n : Z) : Z := (n * 24 * 60 * 60 * 1000)%Z.

Section ClientStats.

(** [new Date(s).getTime()], [None] for an invalid date, and the time
    [new Date()] at which the statistics are computed. *)
Variable parseDate : string -> option Z.
Variable now_ms : Z.

(** [lastInteraction && lastInteraction > since]: an empty or missing
    string gives [null]; an invalid date compares false. *)
Definition interacted_since (since : Z) (client : Client) : bool :=
  match last_interaction client with
  | None | Some EmptyString => false
  | Some s =>
      match parseDate s with
      | Some t => (since <? t)%Z
      | None => false
      end
  end.

Definition useClientStats (clients : list Client) : ClientStats :=
  match clients with
  | [] =>
      {| totalClients := 0; activeClients := 0; highPriorityClients := 0;
         averageRelationshipStrength := number_of_Z 0;
         topBusinessCategories := []; recentInteractions := 0 |}
  | _ =>
      let thirtyDaysAgo := (now_ms - days 30)%Z in
      let activeClients := List.filter (interacted_since thirtyDaysAgo) clients in
      let highPriorityClients :=
        List.filter (fun client => String.eqb (priority_level client) "high")
                    clients in
      let avgRelationshipStrength :=
        js_div (fold_left (fun sum client =>
                             js_add sum
                               (js_number
                                  (or_number (relationship_strength client) 0)))
                          clients (number_of_Z 0))
               (number_of_Z (Z.of_nat (length clients))) in
      let businessCategories :=
        fold_left (fun acc client =>
                     match business_category client with
                     | None | Some EmptyString => acc
                     | Some c => increment c acc
                     end) clients [] in
      let topBusinessCategories :=
        map (fun e => {| category := fst e; count := snd e |})
            (take 5 (sort_by_count (Object_entries businessCategories))) in
      let recentInteractions :=
        length (List.filter (interacted_since (now_ms - days 7)%Z) clients) in
      {| totalClients := length clients;
         activeClients := length activeClients;
         highPriorityClients := length highPriorityClients;
         averageRelationshipStrength :=
           js_div (Math_round (js_mul avgRelationshipStrength (number_of_Z 100)))
                  (number_of_Z 100);
         topBusinessCategories := topBusinessCategories;
         recentInteractions := recentInteractions |}
  end.

End ClientStats.

(** The mean of the clients' relationship strengths, a missing strength
    counting as 0, as the description of the statistics has it. *)
Definition strength_or_zero (client : Client) : Q :=
  default 0%Q (relationship_strength client).

Definition mean_strength (clients : list Client) : Q :=
  (fold_right Qplus 0 (map strength_or_zero clients)
   / inject_Z (Z.of_nat (length clients)))%Q.

(** [r] is [x] rounded to two decimal places: a whole number of hundredths,
    the nearest to [x], halves rounded up. *)
Definition rounded_to_hundredths (x r : Q) : Prop :=
  exists n : Z,
    (r == inject_Z n / 100
     /\ x * 100 - (1 # 2) < inject_Z n
     /\ inject_Z n <= x * 100 + (1 # 2))%Q.

Definition client (cid : string) (strength : option Q) (cat last : option string)
  (prio : string) : Client :=
  {| cl_id := cid; cl_user_id := "u-1"; email_address := cid +:+ "@example.com";
     client_name := None; organization_name := None; business_category := cat;
     communication_frequency := None; relationship_strength := strength;
     total_emails_received := 0%Q; total_emails_sent := 0%Q;
     first_interaction := None; last_interaction := last;
     priority_level := prio |}.

(** Three clients: two with a strength, one without. *)
Definition sample_clients : list Client :=
  [client "ann" (Some (8 # 10)%Q) (Some "legal") (Some "2025-01-05") "high";
   client "bob" None (Some "retail") None "normal";
   client "cy" (Some (1 # 2)%Q) (Some "legal") (Some "2024-11-30") "normal"].

(** A date parser for the examples: the two dates above, in milliseconds. *)
Definition sample_parseDate (s : string) : option Z :=
  if String.eqb s "2025-01-05" then Some 1736035200000%Z
  else if String.eqb s "2024-11-30" then Some 1732924800000%Z
  else None.

(** Five clients whose strengths are doubles and whose mean, 0.575, lies
    halfway between two hundredths. *)
Definition tie_clients : list Client :=
  [client "a" (Some (1 # 2)%Q) None None "normal";
   client "b" (Some (1 # 2)%Q) None None "normal";
   client "c" (Some (7 # 8)%Q) None None "normal";
   client "d" (Some (1 # 2)%Q) None None "normal";
   client "e" (Some (1 # 2)%Q) None None "normal"].

Definition no_clients_stats : ClientStats :=
  {| totalClients := 0; activeClients := 0; highPriorityClients := 0;
     averageRelationshipStrength := number_of_Z 0;
     topBusinessCategories := []; recentInteractions := 0 |}.

(** ** The job registry of the back end *)

Module JobRegistry.

(** Modelled from the spec: the kinds of job of section 3; the back-end
    job registry is not among the sources. *)
Inductive JobKind := Analyze | Vectorize | GenerateResponse | ProfileUpdate.

(** Modelled from the spec: the states of the state machine of section
    4.1, missing from the sources with the registry. *)
Inductive JobState := PENDING | RUNNING | SUCCEEDED | FAILED | CANCELLED.

(** Modelled from the spec: the error taxonomy of section 7. *)
Inductive ErrorKind :=
| ValidationError | RetrievalUnavailable | NotFound
| Timeout | CancelledError | ExecutionError.

Definition terminal (s : JobState) : bool :=
  match s with
  | SUCCEEDED | FAILED | CANCELLED => true
  | PENDING | RUNNING => false
  end.

Section Registry.

Context {Payload Result : Type}.

(** Whether a payload has the shape its kind expects. *)
Variable well_formed : JobKind -> Payload -> bool.

(** Modelled from the spec: the Job of section 3, whose implementation
    is missing; the identity is the key of the job table. *)
Record Job := {
  job_kind : JobKind;
  job_state : JobState;
  submitted_at : Z;
  started_at : option Z;
  completed_at : option Z;
  job_result : option Result;
  job_error : option ErrorKind;
  cancellation_flag : bool
}.

#[local] Abbreviation JobId := positive.

Definition with_state (j : Job) (s : JobState) (started completed : option Z)
  (r : option Result) (err : option ErrorKind) (flag : bool) : Job :=
  {| job_kind := job_kind j; job_state := s; submitted_at := submitted_at j;
     started_at := started; completed_at := completed;
     job_result := r; job_error := err; cancellation_flag := flag |}.

(** Modelled from the spec: [Submit] of section 4.1, missing from the
    sources: a malformed payload is rejected and no job is created;
    otherwise the job is created in PENDING under a new id. *)
Definition Submit (kind : JobKind) (payload : Payload) (now : Z)
  (reg : gmap positive Job) : gmap positive Job * (JobId + ErrorKind) :=
  if well_formed kind payload then
    let id := fresh (dom reg) in
    (<[id := {| job_kind := kind; job_state := PENDING; submitted_at := now;
                started_at := None; completed_at := None;
                job_result := None; job_error := None;
                cancellation_flag := false |}]> reg,
     inl id)
  else (reg, inr ValidationError).

(** Modelled from the spec: what a poll shows of a job (section 4.3):
    once cancellation is accepted the job is reported CANCELLED, not
    RUNNING, and carries no result. *)
Definition snapshot (j : Job) : Job :=
  match job_state j with
  | RUNNING =>
      if cancellation_flag j
      then with_state j CANCELLED (started_at j) (completed_at j) None None true
      else j
  | _ => j
  end.

(** Modelled from the spec: [GetStatus] of section 4.1. *)
Definition GetStatus (id : JobId) (reg : gmap positive Job) : Job + ErrorKind :=
  match reg !! id with
  | Some j => inl (snapshot j)
  | None => inr NotFound
  end.

(** Modelled from the spec: [Cancel] of section 4.1: NotFound for an
    unknown job, PENDING becomes CANCELLED at once, a running worker is
    signalled through the cancellation flag, and a terminal job is left
    as it is. *)
Definition Cancel (id : JobId) (now : Z) (reg : gmap positive Job)
  : gmap positive Job * option ErrorKind :=
  match reg !! id with
  | None => (reg, Some NotFound)
  | Some j =>
      match job_state j with
      | PENDING =>
          (<[id := with_state j CANCELLED (started_at j) (Some now)
                     None None true]> reg, None)
      | RUNNING =>
          (<[id := with_state j RUNNING (started_at j) (completed_at j)
                     (job_result j) (job_error j) true]> reg, None)
      | _ => (reg, None)
      end
  end.

(** Modelled from the spec: the worker takes a PENDING job to RUNNING
    (section 2, control flow). *)
Definition start (id : JobId) (now : Z) (reg : gmap positive Job)
  : gmap positive Job :=
  match reg !! id with
  | Some j =>
      match job_state j with
      | PENDING =>
          <[id := with_state j RUNNING (Some now) None None None
                    (cancellation_flag j)]> reg
      | _ => reg
      end
  | None => reg
  end.

(** Modelled from the spec: the internal finalize operation of sections
    4.1 and 5: the first terminal write wins, a raised error (a timeout
    among them) is recorded as FAILED, and a worker whose job was
    cancelled leaves it CANCELLED, its result discarded. *)
Definition finalize (id : JobId) (outcome : Result + ErrorKind) (now : Z)
  (reg : gmap positive Job) : gmap positive Job :=
  match reg !! id with
  | Some j =>
      match job_state j with
      | RUNNING =>
          if cancellation_flag j then
            <[id := with_state j CANCELLED (started_at j) (Some now)
                      None None true]> reg
          else
            match outcome with
            | inl r =>
                <[id := with_state j SUCCEEDED (started_at j) (Some now)
                          (Some r) None false]> reg
            | inr e =>
                <[id := with_state j FAILED (started_at j) (Some now)
                          None (Some e) false]> reg
            end
      | _ => reg
      end
  | None => reg
  end.

(** Modelled from the spec: [Evict] of section 4.1. *)
Definition Evict (now retention : Z) (reg : gmap positive Job)
  : gmap positive Job :=
  filter (fun kj => match completed_at (snd kj) with
                    | Some t => (now - retention <=? t)%Z
                    | None => true
                    end = true) reg.

(** Modelled from the spec: the calls of the property "State-machine
    legality" of section 8: Submit, Cancel and the worker's start and
    completion. *)
Inductive Call :=
| CallSubmit (kind : JobKind) (payload : Payload) (now : Z)
| CallCancel (id : JobId) (now : Z)
| CallStart (id : JobId) (now : Z)
| CallFinalize (id : JobId) (outcome : Result + ErrorKind) (now : Z).

Definition call (reg : gmap positive Job) (c : Call) : gmap positive Job :=
  match c with
  | CallSubmit kind payload now => fst (Submit kind payload now reg)
  | CallCancel id now => fst (Cancel id now reg)
  | CallStart id now => start id now reg
  | CallFinalize id outcome now => finalize id outcome now reg
  end.

Definition calls (reg : gmap positive Job) (cs : list Call) : gmap positive Job :=
  fold_left call cs reg.

(** Modelled from the spec: the worker wrapper of section 4.1: it runs
    the work of a job and records what it returned or raised. *)
Definition execute (work : Payload -> Result + ErrorKind) (id : JobId)
  (payload : Payload) (now : Z) (reg : gmap positive Job) : gmap positive Job :=
  finalize id (work payload) now (start id now reg).

End Registry.

End JobRegistry.

(** ** A submission and the back end's answer to it *)

Section BackEnd.

Context {Result : Type}.

(** Whether the body of a submission has the shape its kind expects, and
    how the back end writes the id of a job in its answers. *)
Variable well_formed : JobRegistry.JobKind -> list (string * json) -> bool.
Variable task_id_of : positive -> string.

(** Modelled from the spec: the back end is not among the sources.  It
    answers a submission from [Submit] (sections 4.1 and 6): the job is
    registered as PENDING and the answer carries its id at once; a body that
    does not validate is rejected with a ValidationError (the status code is
    immaterial) and no job is created. *)
Definition answer_submission (kind : JobRegistry.JobKind) (req : Request) (now : Z)
  (reg : gmap positive (@JobRegistry.Job Result))
  : gmap positive (@JobRegistry.Job Result) * Outcome TaskRef :=
  match JobRegistry.Submit well_formed kind (body req) now reg with
  | (reg', inl id) => (reg', Resolved {| ref_task_id := task_id_of id |})
  | (reg', inr _) =>
      (reg', Rejected {| http_status := Some 422%Z;
                         detail := Some "ValidationError" |})
  end.

(** What C8 says of a submission method [p]: it sends the one request [req],
    which is no status request, and its promise settles with the answer to
    that request as soon as the answer is there, whatever answers follow;
    and when the back end answers from [Submit], what [p] returns is the id
    of a job that was not in the registry before and is in it now as
    PENDING, neither started nor completed and without a result, while a
    rejected submission has created no job. *)
Definition returns_registered_job (p : Api TaskRef TaskRef) (req : Request) : Prop :=
  is_status_request (Http req) = false
  /\ run_api p [] = ([req], None)
  /\ (forall answer later, run_api p (answer :: later) = ([req], Some answer))
  /\ forall (kind : JobRegistry.JobKind) (now : Z)
        (reg : gmap positive (@JobRegistry.Job Result)),
       match answer_submission kind req now reg with
       | (reg', Resolved data) =>
           run_api p [Resolved data] = ([req], Some (Resolved data))
           /\ exists id j,
               ref_task_id data = task_id_of id
               /\ reg !! id = None
               /\ reg' !! id = Some j
               /\ JobRegistry.job_state j = JobRegistry.PENDING
               /\ JobRegistry.started_at j = None
               /\ JobRegistry.completed_at j = None
               /\ JobRegistry.job_result j = None
       | (reg', Rejected err) =>
           run_api p [Rejected err] = ([req], Some (Rejected err))
           /\ reg' = reg
       end.

End BackEnd.

(** A job whose cancellation was accepted while it ran: the flag is set and
    the job is still RUNNING, or already CANCELLED with no result. *)
Definition cancellation_accepted {Result : Type} (id : positive)
  (reg : gmap positive (@JobRegistry.Job Result)) : Prop :=
  exists j,
    reg !! id = Some j
    /\ JobRegistry.cancellation_flag j = true
    /\ (JobRegistry.job_state j = JobRegistry.RUNNING
        \/ (JobRegistry.job_state j = JobRegistry.CANCELLED
            /\ JobRegistry.job_result j = None)).

(** A running job, for the examples. *)
Definition running_job : @JobRegistry.Job string :=
  {| JobRegistry.job_kind := JobRegistry.GenerateResponse;
     JobRegistry.job_state := JobRegistry.RUNNING;
     JobRegistry.submitted_at := 100; JobRegistry.started_at := Some 101%Z;
     JobRegistry.completed_at := None; JobRegistry.job_result := None;
     JobRegistry.job_error := None; JobRegistry.cancellation_flag := false |}.

(** ** The response generation engine of the back end *)

Module Engine.

(** Modelled from the spec: the strategies of section 4.2; the response
    generation engine is not among the sources. *)
Inductive Strategy := RAG | Rule | Hybrid | Template.

(** Modelled from the spec: the GenerationRequest of section 3, missing
    from the sources with the engine; a missing body is [None]. *)
Record GenerationRequest := {
  req_sender : string;
  req_subject : string;
  req_body : option string;
  thread_id : string;
  style_profile_ref : string;
  req_instructions : option string;
  max_context : option nat
}.

(** Modelled from the spec: one entry of the RetrievedContext of section 3. *)
Record Passage := {
  passage_text : string;
  source_id : string;
  similarity : Q
}.

(** Modelled from the spec: the GeneratedDraft of section 3. *)
Record GeneratedDraft := {
  text : string;
  strategy : Strategy;
  confidence : Q;
  relevance : option Q;
  style_match : option Q;
  sources : list string
}.

(** Modelled from the spec: the ResponseRule and the StyleProfile of
    sections 2 and 3. *)
Record ResponseRule := {
  triggers : list string;
  template : string;
  required_tags : list string;
  formality : Q
}.

Record StyleProfile := {
  formality_score : Q;
  signature_patterns : list string
}.

(** Modelled from the spec: what section 4.2 leaves to the implementer
    (section 9, open question): thresholds, weights, the composition of
    drafts, style adaptation and its score, rule matching and placeholder
    substitution, the fallback template and the bounds of the quality
    check. *)
Record Config := {
  similarity_threshold : Q;
  acceptance_threshold : Q;
  compose : GenerationRequest -> list Passage -> string;
  adapt : StyleProfile -> string -> string;
  style_similarity : StyleProfile -> string -> Q;
  combine : Q -> option Q -> Q;
  matches : ResponseRule -> GenerationRequest -> bool;
  substitute : ResponseRule -> GenerationRequest -> string;
  rule_confidence : ResponseRule -> Q;
  merge : ResponseRule -> GenerationRequest -> list Passage -> string;
  hybrid_weight : Q;
  template_text : string;
  template_confidence : Q;
  unresolved_placeholder : string -> bool;
  min_length : nat;
  max_length : nat
}.

Section Generation.

Variable cfg : Config.

(** Modelled from the spec: the quality validation of section 4.2: the
    draft is not empty, has no unresolved placeholder and is within the
    length bounds. *)
Definition quality_ok (t : string) : bool :=
  negb (String.eqb t "")
  && negb (unresolved_placeholder cfg t)
  && (min_length cfg <=? String.length t)%nat
  && (String.length t <=? max_length cfg)%nat.

(** Modelled from the spec: style adaptation of section 4.2; without a
    profile no adaptation is possible and there is no style-match score. *)
Definition styled (profile : option StyleProfile) (t : string)
  : string * option Q :=
  match profile with
  | Some p => (adapt cfg p t, Some (style_similarity cfg p (adapt cfg p t)))
  | None => (t, None)
  end.

Definition mean (l : list Q) : Q :=
  (fold_right Qplus 0 l / inject_Z (Z.of_nat (length l)))%Q.

(** The passages that clear the similarity threshold; an unavailable
    retriever gives none. *)
Definition usable (retrieved : list Passage + JobRegistry.ErrorKind)
  : list Passage :=
  match retrieved with
  | inl passages =>
      List.filter (fun p => Qle_bool (similarity_threshold cfg) (similarity p))
                  passages
  | inr _ => []
  end.

(** Modelled from the spec: the RAG strategy of section 4.2. *)
Definition rag_strategy (req : GenerationRequest)
  (retrieved : list Passage + JobRegistry.ErrorKind)
  (profile : option StyleProfile) : option GeneratedDraft :=
  match usable retrieved with
  | [] => None
  | used =>
      let '(t, sm) := styled profile (compose cfg req used) in
      let rel := mean (map similarity used) in
      Some {| text := t; strategy := RAG; confidence := combine cfg rel sm;
              relevance := Some rel; style_match := sm;
              sources := map source_id used |}
  end.

(** Modelled from the spec: the Rule strategy of section 4.2: the first
    rule, in order, that matches the message. *)
Definition rule_strategy (req : GenerationRequest) (rules : list ResponseRule)
  (profile : option StyleProfile) : option GeneratedDraft :=
  match List.find (fun r => matches cfg r req) rules with
  | Some r =>
      let '(t, sm) := styled profile (substitute cfg r req) in
      Some {| text := t; strategy := Rule; confidence := rule_confidence cfg r;
              relevance := None; style_match := sm; sources := [] |}
  | None => None
  end.

(** Modelled from the spec: the Hybrid strategy of section 4.2, only
    attempted when retrieval gave some context and a rule matched. *)
Definition hybrid_strategy (req : GenerationRequest)
  (retrieved : list Passage + JobRegistry.ErrorKind)
  (rules : list ResponseRule) (profile : option StyleProfile)
  : option GeneratedDraft :=
  match usable retrieved, List.find (fun r => matches cfg r req) rules with
  | p :: ps, Some r =>
      let used := p :: ps in
      let '(t, sm) := styled profile (merge cfg r req used) in
      let rel := mean (map similarity used) in
      Some {| text := t; strategy := Hybrid;
              confidence := (hybrid_weight cfg * combine cfg rel sm
                             + (1 - hybrid_weight cfg) * rule_confidence cfg r)%Q;
              relevance := Some rel; style_match := sm;
              sources := map source_id used |}
  | _, _ => None
  end.

(** Modelled from the spec: the Template fallback of section 4.2. *)
Definition template_fallback : GeneratedDraft :=
  {| text := template_text cfg; strategy := Template;
     confidence := template_confidence cfg;
     relevance := None; style_match := None; sources := [] |}.

Definition acceptable (d : GeneratedDraft) : bool :=
  Qle_bool (acceptance_threshold cfg) (confidence d) && quality_ok (text d).

(** The first attempt that gave a draft clearing the confidence bar and
    the quality check; the fallback when there is none. *)
Fixpoint first_acceptable (attempts : list (option GeneratedDraft))
  (fallback : GeneratedDraft) : GeneratedDraft :=
  match attempts with
  | [] => fallback
  | Some d :: rest =>
      if acceptable d then d else first_acceptable rest fallback
  | None :: rest => first_acceptable rest fallback
  end.

(** Modelled from the spec: the engine of section 4.2: a request without
    a body is a ValidationError; otherwise the strategies are tried in
    the order RAG, Rule, Hybrid, and Template is the last resort. *)
Definition generate (req : GenerationRequest)
  (retrieved : list Passage + JobRegistry.ErrorKind)
  (rules : list ResponseRule) (profile : option StyleProfile)
  : GeneratedDraft + JobRegistry.ErrorKind :=
  match req_body req with
  | None => inr JobRegistry.ValidationError
  | Some _ =>
      inl (first_acceptable
             [rag_strategy req retrieved profile;
              rule_strategy req rules profile;
              hybrid_strategy req retrieved rules profile]
             template_fallback)
  end.

End Generation.

(** Modelled from the spec: the shape [Submit] expects of a payload
    (section 4.1): a GenerationRequest must carry a body. *)
Definition well_formed (kind : JobRegistry.JobKind) (req : GenerationRequest)
  : bool :=
  match req_body req with
  | Some _ => true
  | None => false
  end.

End Engine.

(** A configuration, a request and retrieved passages for the examples:
    the scenario "RAG success" of the specification. *)
Definition sample_config : Engine.Config :=
  {| Engine.similarity_threshold := (7 # 10)%Q;
     Engine.acceptance_threshold := (1 # 2)%Q;
     Engine.compose := fun req used =>
       "Regarding your message: " +:+ default "" (Engine.passage_text <$> head used);
     Engine.adapt := fun _ t => t;
     Engine.style_similarity := fun _ _ => 1%Q;
     Engine.combine := fun rel sm => rel;
     Engine.matches := fun r req =>
       existsb (fun t => String.eqb t (Engine.req_subject req)) (Engine.triggers r);
     Engine.substitute := fun r _ => Engine.template r;
     Engine.rule_confidence := fun _ => (6 # 10)%Q;
     Engine.merge := fun r _ _ => Engine.template r;
     Engine.hybrid_weight := (1 # 2)%Q;
     Engine.template_text := "Thank you for your message. I will get back to you shortly.";
     Engine.template_confidence := (1 # 10)%Q;
     Engine.unresolved_placeholder := fun _ => false;
     Engine.min_length := 1;
     Engine.max_length := 2000 |}.

Definition deadline_request : Engine.GenerationRequest :=
  {| Engine.req_sender := "ann@example.com"; Engine.req_subject := "Deadline";
     Engine.req_body := Some "Can we move the deadline to Friday?";
     Engine.thread_id := "th-1"; Engine.style_profile_ref := "u-1";
     Engine.req_instructions := None; Engine.max_context := None |}.

Definition deadline_passages : list Engine.Passage :=
  [{| Engine.passage_text := "The deadline was moved once before.";
      Engine.source_id := "m-10"; Engine.similarity := (91 # 100)%Q |};
   {| Engine.passage_text := "Friday is usually fine.";
      Engine.source_id := "m-11"; Engine.similarity := (84 # 100)%Q |};
   {| Engine.passage_text := "Lunch on Tuesday?";
      Engine.source_id := "m-12"; Engine.similarity := (6 # 10)%Q |}].

Definition no_jobs : gmap positive (@JobRegistry.Job Engine.GeneratedDraft) := ∅.

(** ** Further observations on the store *)

(** The parts of the state, one per group of actions of the reducer. *)
Inductive Slice :=
| EmailSlice | ResponseSlice | ClientSlice | TaskSlice
| HealthSlice | InterfaceSlice | NotificationSlice.

Definition slice_of (a : AppAction) : Slice :=
  match a with
  | SET_EMAILS _ | ADD_EMAIL _ | UPDATE_EMAIL _ _ | SELECT_EMAIL _
  | SET_EMAILS_LOADING _ | SET_EMAILS_ERROR _ => EmailSlice
  | SET_RESPONSES _ | ADD_RESPONSE _ | UPDATE_RESPONSE _ _
  | SET_RESPONSES_LOADING _ | SET_RESPONSES_ERROR _ => ResponseSlice
  | SET_CLIENTS _ | ADD_CLIENT _ | UPDATE_CLIENT _ _
  | SET_CLIENTS_LOADING _ | SET_CLIENTS_ERROR _ => ClientSlice
  | ADD_TASK _ | UPDATE_TASK _ | REMOVE_TASK _ | CLEAR_COMPLETED_TASKS => TaskSlice
  | UPDATE_SYSTEM_HEALTH _ => HealthSlice
  | TOGGLE_SIDEBAR | SET_SELECTED_VIEW _ => InterfaceSlice
  | ADD_NOTIFICATION _ | MARK_NOTIFICATION_READ _ | CLEAR_NOTIFICATIONS =>
      NotificationSlice
  end.

(** [s'] differs from [s] at most in the fields of the slice [sl]. *)
Definition same_outside (sl : Slice) (s s' : AppState) : Prop :=
  (sl = EmailSlice
   \/ (emails s' = emails s /\ selectedEmail s' = selectedEmail s
       /\ emailsLoading s' = emailsLoading s /\ emailsError s' = emailsError s))
  /\ (sl = ResponseSlice
      \/ (responses s' = responses s /\ responsesLoading s' = responsesLoading s
          /\ responsesError s' = responsesError s))
  /\ (sl = ClientSlice
      \/ (clients s' = clients s /\ clientsLoading s' = clientsLoading s
          /\ clientsError s' = clientsError s))
  /\ (sl = TaskSlice
      \/ (activeTasks s' = activeTasks s /\ taskHistory s' = taskHistory s))
  /\ (sl = HealthSlice \/ systemHealth s' = systemHealth s)
  /\ (sl = InterfaceSlice
      \/ (sidebarOpen s' = sidebarOpen s /\ selectedView s' = selectedView s))
  /\ (sl = NotificationSlice \/ notifications s' = notifications s).

(** An ADD_TASK whose payload already has a terminal status. *)
Definition adds_finished_task (a : AppAction) : bool :=
  match a with
  | ADD_TASK p => is_terminal (status p)
  | _ => false
  end.

Definition unread (l : list Notification) : nat :=
  length (List.filter (fun n => negb (read n)) l).

(** The selected email, when there is one, is one of the listed emails. *)
Definition selected_is_listed (s : AppState) : Prop :=
  match selectedEmail s with
  | Some sel => In sel (emails s)
  | None => True
  end.

Definition sample_email (eid : string) (starred : bool) : EmailMessage :=
  {| em_id := eid; em_user_id := "u-1"; em_client_id := None;
     subject := Some "Deadline"; sender := "ann@example.com";
     recipient := "me@example.com"; body_text := Some "Can we move it?";
     body_html := None; sent_datetime := "2025-01-05T09:00:00Z";
     received_datetime := None; is_read := false; is_starred := starred;
     has_attachments := false; labels := None; urgency_level := Some "high";
     sentiment_score := None; topic_categories := None;
     is_processed := false; is_analyzed := false |}.

(** [Partial<EmailMessage>] with no field, and [{ is_read }], [{ is_starred }]. *)
Definition no_updates : PartialEmailMessage :=
  {| pe_id := None; pe_user_id := None; pe_client_id := None; pe_subject := None;
     pe_sender := None; pe_recipient := None; pe_body_text := None;
     pe_body_html := None; pe_sent_datetime := None; pe_received_datetime := None;
     pe_is_read := None; pe_is_starred := None; pe_has_attachments := None;
     pe_labels := None; pe_urgency_level := None; pe_sentiment_score := None;
     pe_topic_categories := None; pe_is_processed := None; pe_is_analyzed := None |}.

Definition read_update (isRead : bool) : PartialEmailMessage :=
  {| pe_id := None; pe_user_id := None; pe_client_id := None; pe_subject := None;
     pe_sender := None; pe_recipient := None; pe_body_text := None;
     pe_body_html := None; pe_sent_datetime := None; pe_received_datetime := None;
     pe_is_read := Some isRead; pe_is_starred := None; pe_has_attachments := None;
     pe_labels := None; pe_urgency_level := None; pe_sentiment_score := None;
     pe_topic_categories := None; pe_is_processed := None; pe_is_analyzed := None |}.

Definition star_update (isStarred : bool) : PartialEmailMessage :=
  {| pe_id := None; pe_user_id := None; pe_client_id := None; pe_subject := None;
     pe_sender := None; pe_recipient := None; pe_body_text := None;
     pe_body_html := None; pe_sent_datetime := None; pe_received_datetime := None;
     pe_is_read := None; pe_is_starred := Some isStarred; pe_has_attachments := None;
     pe_labels := None; pe_urgency_level := None; pe_sentiment_score := None;
     pe_topic_categories := None; pe_is_processed := None; pe_is_analyzed := None |}.

(** ** The other polling hooks (hooks/useResponses.ts, hooks/useClients.ts) *)

(** hooks/useResponses.ts, [useGenerateRagResponse]: the branches of
    [pollTask]. *)
Definition useGenerateRagResponse_handle (st : TaskStatus) : list Effect * bool :=
  if String.eqb (status st) "SUCCESS" then
    (InvalidateQueries ["responses"] ::
     addNotification
       {| ni_type := success; ni_title := "Enhanced response generated";
          ni_message := "RAG-enhanced AI response has been generated successfully" |},
     false)
  else if String.eqb (status st) "PENDING" || String.eqb (status st) "STARTED" then
    ([SetTimeout 2000], true)
  else if String.eqb (status st) "FAILURE" then
    (addNotification
       {| ni_type := error_type; ni_title := "RAG response generation failed";
          ni_message := or_string (error st)
                          "Failed to generate enhanced AI response" |},
     false)
  else ([], false).

(** hooks/useResponses.ts, [useAnalyzeWritingStyle]. *)
Definition useAnalyzeWritingStyle_handle (st : TaskStatus) : list Effect * bool :=
  if String.eqb (status st) "SUCCESS" then
    (addNotification
       {| ni_type := success; ni_title := "Writing style analysis completed";
          ni_message := "Your writing style analysis is ready" |},
     false)
  else if String.eqb (status st) "PENDING" || String.eqb (status st) "STARTED" then
    ([SetTimeout 2000], true)
  else if String.eqb (status st) "FAILURE" then
    (addNotification
       {| ni_type := error_type; ni_title := "Writing style analysis failed";
          ni_message := or_string (error st) "Failed to analyze writing style" |},
     false)
  else ([], false).

(** hooks/useResponses.ts, [useComprehensiveAnalysis]. *)
Definition useComprehensiveAnalysis_handle (st : TaskStatus) : list Effect * bool :=
  if String.eqb (status st) "SUCCESS" then
    (addNotification
       {| ni_type := success; ni_title := "Comprehensive analysis completed";
          ni_message := "Your comprehensive communication analysis is ready" |},
     false)
  else if String.eqb (status st) "PENDING" || String.eqb (status st) "STARTED" then
    ([SetTimeout 2000], true)
  else if String.eqb (status st) "FAILURE" then
    (addNotification
       {| ni_type := error_type; ni_title := "Comprehensive analysis failed";
          ni_message := or_string (error st)
                          "Failed to complete comprehensive analysis" |},
     false)
  else ([], false).

(** hooks/useClients.ts, [useAnalyzeClient]. *)
Definition useAnalyzeClient_handle (clientEmail : string) (st : TaskStatus)
  : list Effect * bool :=
  if String.eqb (status st) "SUCCESS" then
    (InvalidateQueries ["clients"] ::
     addNotification
       {| ni_type := success; ni_title := "Client analysis completed";
          ni_message := "Analysis for " +:+ clientEmail +:+ " is ready" |},
     false)
  else if String.eqb (status st) "PENDING" || String.eqb (status st) "STARTED" then
    ([SetTimeout 2000], true)
  else if String.eqb (status st) "FAILURE" then
    (addNotification
       {| ni_type := error_type; ni_title := "Client analysis failed";
          ni_message := or_string (error st)
                          ("Failed to analyze " +:+ clientEmail) |},
     false)
  else ([], false).

(** The body answered to [analyzeClient], [analyzeWritingStyle] and
    [comprehensiveAnalysis] (declared [any]): the hooks read [data.task_id],
    which is missing when the result is immediate. *)
Record MaybeTaskRef := { maybe_task_id : option string }.

Definition analyzeClient (userId clientEmail : string)
  : Api MaybeTaskRef MaybeTaskRef :=
  Await {| method := POST; url := "/clients/analyze";
           body := [("user_id", JStr userId); ("client_email", JStr clientEmail)] |}
        (fun data => Ret data).

Definition analyzeWritingStyle (userId : string) (emailIds : option (list string))
  : Api MaybeTaskRef MaybeTaskRef :=
  Await {| method := POST; url := "/analysis/style";
           body := [("user_id", JStr userId)]
                   ++ opt_field "email_ids" ((fun l => JArr (map JStr l)) <$> emailIds) |}
        (fun data => Ret data).

(** [if (data.task_id)]: a missing or empty id is falsy. *)
Definition truthy_id (data : MaybeTaskRef) : option string :=
  match maybe_task_id data with
  | Some EmptyString | None => None
  | Some tid => Some tid
  end.

Definition useAnalyzeClient (userId clientEmail : string)
  (answer : Outcome MaybeTaskRef) (server : list (Outcome TaskStatus))
  : list Effect * Poller :=
  useMutation (analyzeClient userId clientEmail) answer
    (fun data =>
       match truthy_id data with
       | Some tid =>
           let '(polls, p) :=
             pollTask tid (useAnalyzeClient_handle clientEmail) server in
           (addNotification
              {| ni_type := info; ni_title := "Client analysis started";
                 ni_message := "Analyzing communication patterns for "
                               +:+ clientEmail +:+ " (" +:+ slice8 tid +:+ "...)" |}
            ++ SetTimeout 1000 :: polls, p)
       | None =>
           (InvalidateQueries ["clients"] ::
            addNotification
              {| ni_type := success; ni_title := "Client analysis completed";
                 ni_message := "Analysis for " +:+ clientEmail
                               +:+ " has been completed" |},
            Idle)
       end)
    (fun e =>
       addNotification
         {| ni_type := error_type; ni_title := "Failed to analyze client";
            ni_message := or_string (detail e)
                            ("Failed to start analysis for " +:+ clientEmail) |}).

Definition useAnalyzeWritingStyle (userId : string) (emailIds : option (list string))
  (answer : Outcome MaybeTaskRef) (server : list (Outcome TaskStatus))
  : list Effect * Poller :=
  useMutation (analyzeWritingStyle userId emailIds) answer
    (fun data =>
       match truthy_id data with
       | Some tid =>
           let '(polls, p) := pollTask tid useAnalyzeWritingStyle_handle server in
           (addNotification
              {| ni_type := info; ni_title := "Writing style analysis started";
                 ni_message := "Analyzing writing style patterns ("
                               +:+ slice8 tid +:+ "...)" |}
            ++ SetTimeout 1000 :: polls, p)
       | None =>
           (addNotification
              {| ni_type := success; ni_title := "Writing style analysis completed";
                 ni_message := "Writing style analysis has been completed" |},
            Idle)
       end)
    (fun e =>
       addNotification
         {| ni_type := error_type; ni_title := "Failed to analyze writing style";
            ni_message := or_string (detail e)
                            "Failed to start writing style analysis" |}).

(** Observations on traces: the calls of [onUpdate], the task actions
    dispatched, and whether the interval was cleared. *)
Definition updates_delivered (tr : list Effect) : list TaskStatus :=
  flat_map (fun ef => match ef with OnUpdate st => [st] | _ => [] end) tr.

Definition is_task_dispatch (ef : Effect) : bool :=
  match ef with
  | Dispatch a => match slice_of a with TaskSlice => true | _ => false end
  | _ => false
  end.

Definition resolved_of (server : list (Outcome TaskStatus)) : list TaskStatus :=
  flat_map (fun r => match r with Resolved st => [st] | Rejected _ => [] end) server.

Definition no_task_id : MaybeTaskRef := {| maybe_task_id := None |}.

(** The number of actions a trace dispatches. *)
Definition dispatches (tr : list Effect) : nat :=
  length (List.filter (fun ef => match ef with Dispatch _ => true | _ => false end) tr).

(** ** Batch update of emails (hooks/useEmails.ts, [useBatchEmailOperations]) *)

Definition updateEmail (emailId : string) (updates : list (string * json))
  : Api EmailMessage EmailMessage :=
  Await {| method := PUT; url := "/emails/" +:+ emailId; body := updates |}
        (fun data => Ret data).

Definition is_resolved {A : Type} (r : option (Outcome A)) : bool :=
  match r with
  | Some (Resolved _) => true
  | _ => false
  end.

(** [batchMarkRead]: [Promise.all] over one [updateEmail] per id.  Every
    call sends its request at once; the promise resolves when all of them
    did and rejects when one did not.  [jobs] pairs each email id with the
    answer of the server to its request. *)
Definition batchMarkRead (jobs : list (string * Outcome EmailMessage)) (isRead : bool)
  : list Effect :=
  let runs :=
    map (fun job => run_api (updateEmail (fst job) [("is_read", JBool isRead)])
                            [snd job]) jobs in
  flat_map (fun run => map Http (fst run)) runs
  ++ if forallb (fun run => is_resolved (snd run)) runs
     then InvalidateQueries ["emails"; "list"] ::
          addNotification
            {| ni_type := success; ni_title := "Emails updated";
               ni_message := "Marked " +:+ pretty (length jobs) +:+ " emails as "
                             +:+ (if isRead then "read" else "unread") |}
     else addNotification
            {| ni_type := error_type; ni_title := "Batch update failed";
               ni_message := "Failed to update emails" |}.

Definition http_requests (tr : list Effect) : list Request :=
  flat_map (fun ef => match ef with Http req => [req] | _ => [] end) tr.

Definition invalidations (tr : list Effect) : list (list string) :=
  flat_map (fun ef => match ef with InvalidateQueries k => [k] | _ => [] end) tr.

Definition notified (tr : list Effect) : list NotificationInput :=
  flat_map (fun ef => match ef with
                      | Dispatch (ADD_NOTIFICATION n) => [n]
                      | _ => []
                      end) tr.

(** ** Authentication in ApiService (services/api.ts) *)

(** The token of the instance, together with the two globals its methods
    write: [localStorage] and [window.location.href]. *)
Record ApiState := {
  authToken : option string;
  localStorage : gmap string string;
  location_href : string
}.

(** [if (token)]: [null] and the empty string are falsy. *)
Definition truthy (s : option string) : option string :=
  match s with
  | Some EmptyString | None => None
  | Some v => Some v
  end.

Definition setAuthToken (token : string) (a : ApiState) : ApiState :=
  {| authToken := Some token;
     localStorage := <["auth_token" := token]> (localStorage a);
     location_href := location_href a |}.

Definition clearAuth (a : ApiState) : ApiState :=
  {| authToken := None;
     localStorage := delete "auth_token" (localStorage a);
     location_href := location_href a |}.

Definition loadAuthToken (a : ApiState) : ApiState :=
  match truthy (localStorage a !! "auth_token") with
  | Some token =>
      {| authToken := Some token; localStorage := localStorage a;
         location_href := location_href a |}
  | None => a
  end.

(** The constructor: the token starts as [null] and is loaded from
    [localStorage]. *)
Definition new_ApiService (storage : gmap string string) (href : string) : ApiState :=
  loadAuthToken {| authToken := None; localStorage := storage; location_href := href |}.

(** The request interceptor: the headers a request goes out with. *)
Definition request_headers (a : ApiState) : list (string * string) :=
  ("Content-Type", "application/json")
  :: match truthy (authToken a) with
     | Some token => [("Authorization", "Bearer " +:+ token)]
     | None => []
     end.

(** The response interceptor: a 401 clears the authentication and sends the
    page to [/login]; the answer itself is passed on as it is. *)
Definition on_response {R : Type} (a : ApiState) (answer : Outcome R) : ApiState :=
  match answer with
  | Resolved _ => a
  | Rejected e =>
      match http_status e with
      | Some 401%Z =>
          {| authToken := None;
             localStorage := delete "auth_token" (localStorage a);
             location_href := "/login" |}
      | _ => a
      end
  end.

(** [logout]: [await this.api.post('/auth/logout'); this.clearAuth()]. *)
Definition ApiService_logout (a : ApiState) (answer : Outcome json)
  : ApiState * Outcome unit :=
  match answer with
  | Resolved _ => (clearAuth (on_response a answer), Resolved tt)
  | Rejected e => (on_response a answer, Rejected e)
  end.

(** ** AuthContext *)

Record User := {
  user_id : string;
  user_email : string;
  display_name : option string;
  profile_picture : option string;
  is_active : bool;
  user_created_at : string;
  last_login : option string
}.

Record AuthState := {
  isAuthenticated : bool;
  user : option User;
  isLoading : bool;
  auth_error : option string
}.

(** What [checkAuthStatus] reads of the answer of [/auth/status]. *)
Record AuthStatusBody := {
  is_authenticated : bool;
  status_user : option User
}.

Definition initial_auth : AuthState :=
  {| isAuthenticated := false; user := None; isLoading := true; auth_error := None |}.

Definition signed_out : AuthState :=
  {| isAuthenticated := false; user := None; isLoading := false; auth_error := None |}.

Definition checkAuthStatus (answer : Outcome AuthStatusBody) : AuthState :=
  match answer with
  | Resolved authStatus =>
      if is_authenticated authStatus
      then {| isAuthenticated := true; user := status_user authStatus;
              isLoading := false; auth_error := None |}
      else signed_out
  | Rejected _ =>
      {| isAuthenticated := false; user := None; isLoading := false;
         auth_error := Some "Failed to check authentication status" |}
  end.

Definition redirect (href : string) (a : ApiState) : ApiState :=
  {| authToken := authToken a; localStorage := localStorage a;
     location_href := href |}.

(** [login]: the state is set to loading and the error cleared; when the
    call resolves the page is sent to the authorization URL and the state
    stays loading; when it is rejected the error is recorded and shown. *)
Definition AuthContext_login (a : ApiState) (answer : Outcome string)
  (prev : AuthState) : ApiState * AuthState * list Effect :=
  match answer with
  | Resolved authUrl =>
      (redirect authUrl a,
       {| isAuthenticated := isAuthenticated prev; user := user prev;
          isLoading := true; auth_error := None |},
       [])
  | Rejected _ =>
      (on_response a answer,
       {| isAuthenticated := isAuthenticated prev; user := user prev;
          isLoading := false;
          auth_error := Some "Login failed. Please try again." |},
       [ConsoleError "Login failed:";
        Toast error_type "Login failed. Please try again."])
  end.

(** [logout] of the context: it calls [apiService.logout] and sets the same
    signed-out state whether the call resolved or was rejected; only what is
    shown differs. *)
Definition AuthContext_logout (a : ApiState) (answer : Outcome json)
  : ApiState * AuthState * list Effect :=
  match ApiService_logout a answer with
  | (a', Resolved _) => (a', signed_out, [Toast success "Successfully logged out"])
  | (a', Rejected _) =>
      (a', signed_out,
       [ConsoleError "Logout failed:";
        Toast error_type "Logout failed, but you have been logged out locally"])
  end.

Definition clearError (prev : AuthState) : AuthState :=
  {| isAuthenticated := isAuthenticated prev; user := user prev;
     isLoading := isLoading prev; auth_error := None |}.

(** The operations of the context; [refreshAuth] is [checkAuthStatus]. *)
Inductive AuthOp :=
| DoCheckAuthStatus (answer : Outcome AuthStatusBody)
| DoLogin (answer : Outcome string)
| DoLogout (answer : Outcome json)
| DoClearError.

Definition auth_step (st : ApiState * AuthState) (op : AuthOp) : ApiState * AuthState :=
  match op with
  | DoCheckAuthStatus answer => (on_response (fst st) answer, checkAuthStatus answer)
  | DoLogin answer => fst (AuthContext_login (fst st) answer (snd st))
  | DoLogout answer => fst (AuthContext_logout (fst st) answer)
  | DoClearError => (fst st, clearError (snd st))
  end.

Definition auth_run (st : ApiState * AuthState) (ops : list AuthOp)
  : ApiState * AuthState :=
  fold_left auth_step ops st.

(** pages/Index.tsx: what the page shows. *)
Inductive Page := LoadingPage | LoginPage | DashboardPage.

Definition Index (st : AuthState) : Page :=
  if isLoading st then LoadingPage
  else if negb (isAuthenticated st) then LoginPage
  else DashboardPage.

Definition server_error : HttpError :=
  {| http_status := Some 500%Z; detail := Some "Internal Server Error" |}.

Definition unauthorized : HttpError :=
  {| http_status := Some 401%Z; detail := Some "Not authenticated" |}.

Definition signed_in_api : ApiState :=
  setAuthToken "tok-123"
    {| authToken := None; localStorage := ∅; location_href := "/" |}.

(** The calls that change the authentication state of an ApiService
    instance: its own methods, and every answer that passes its response
    interceptor. *)
Inductive ApiOp :=
| CallSetAuthToken (token : string)
| CallClearAuth
| CallLoadAuthToken
| Answered (answer : Outcome json)
| CallLogout (answer : Outcome json).

Definition api_step (a : ApiState) (op : ApiOp) : ApiState :=
  match op with
  | CallSetAuthToken token => setAuthToken token a
  | CallClearAuth => clearAuth a
  | CallLoadAuthToken => loadAuthToken a
  | Answered answer => on_response a answer
  | CallLogout answer => fst (ApiService_logout a answer)
  end.

(** The token of the instance and the stored one agree, as far as the code
    can tell them apart (an empty token counts as none). *)
Definition token_in_sync (a : ApiState) : Prop :=
  truthy (authToken a) = truthy (localStorage a !! "auth_token").

(** ** hooks/useClients.ts: [useClientFilters] *)

(** [hay.includes(needle)]. *)
Fixpoint includes (needle hay : string) : bool :=
  String.prefix needle hay
  || match hay with
     | EmptyString => false
     | String _ rest => includes needle rest
     end.

(** [array.sort(compare)] for a comparison that orders the elements
    consistently: the sorted arrangement that keeps equal elements in their
    original order.  [after y x] tells that [compare(y, x) > 0].  For a
    comparison that is not consistent (one that returns [NaN] for some
    pairs, as the one of the client list does for an invalid date) the
    order the engine gives depends on its algorithm and is not modelled:
    only that the result is a rearrangement of the array holds of it. *)
Fixpoint insert_sorted {A : Type} (after : A -> A -> bool) (x : A) (l : list A)
  : list A :=
  match l with
  | [] => [x]
  | y :: rest =>
      if after y x then x :: l else y :: insert_sorted after x rest
  end.

Definition Array_sort {A : Type} (after : A -> A -> bool) (l : list A) : list A :=
  fold_left (fun acc x => insert_sorted after x acc) l [].

Inductive SortOrder := asc | desc.

Record Filters := {
  search : string;
  businessCategory : string;
  priorityLevel : string;
  relationshipStrengthMin : Q;
  sortBy : string;
  sortOrder : SortOrder
}.

(** The initial filters, which [resetFilters] sets again. *)
Definition initial_filters : Filters :=
  {| search := ""; businessCategory := ""; priorityLevel := "";
     relationshipStrengthMin := 0; sortBy := "last_interaction";
     sortOrder := desc |}.

(** A value the sort compares: a string, or a number ([None] for [NaN]). *)
Inductive SortValue :=
| SortString (s : string)
| SortNumber (x : option Q).

Section ClientFilters.

(** [String.prototype.toLowerCase], [String.prototype.localeCompare] and
    [new Date(s).getTime()] ([None] for [NaN]) of the JavaScript engine. *)
Variable toLowerCase : string -> string.
Variable localeCompare : string -> string -> Z.
Variable getTime : string -> option Z.

(** [s?.toLowerCase().includes(searchLower)]. *)
Definition matches_search (searchLower : string) (s : option string) : bool :=
  match s with
  | Some v => includes searchLower (toLowerCase v)
  | None => false
  end.

Definition search_filter (filters : Filters) (client : Client) : bool :=
  let searchLower := toLowerCase (search filters) in
  matches_search searchLower (client_name client)
  || includes searchLower (toLowerCase (email_address client))
  || matches_search searchLower (organization_name client).

Definition category_filter (filters : Filters) (client : Client) : bool :=
  match business_category client with
  | Some c => String.eqb c (businessCategory filters)
  | None => false
  end.

Definition priority_filter (filters : Filters) (client : Client) : bool :=
  String.eqb (priority_level client) (priorityLevel filters).

Definition strength_filter (filters : Filters) (client : Client) : bool :=
  Qle_bool (relationshipStrengthMin filters)
           (or_number (relationship_strength client) 0).

(** The [switch] on [filters.sortBy]. *)
Definition sort_value (filters : Filters) (client : Client) : SortValue :=
  if String.eqb (sortBy filters) "client_name" then
    SortString (or_string (client_name client) (email_address client))
  else if String.eqb (sortBy filters) "relationship_strength" then
    SortNumber (Some (or_number (relationship_strength client) 0))
  else if String.eqb (sortBy filters) "total_emails_received" then
    SortNumber (Some (total_emails_received client))
  else
    SortNumber
      match last_interaction client with
      | None | Some EmptyString => Some 0%Q
      | Some s => inject_Z <$> getTime s
      end.

(** The comparison function handed to [sort]; [None] is [NaN]. *)
Definition compare_clients (filters : Filters) (a b : Client) : option Q :=
  let comparison :=
    match sort_value filters a, sort_value filters b with
    | SortString x, SortString y => Some (inject_Z (localeCompare x y))
    | SortNumber (Some x), SortNumber (Some y) => Some (x - y)%Q
    | _, _ => None
    end in
  match sortOrder filters with
  | asc => comparison
  | desc => Qopp <$> comparison
  end.

(** [compare(a, b) > 0]; a [NaN] counts as 0. *)
Definition sorts_after (filters : Filters) (a b : Client) : bool :=
  match compare_clients filters a b with
  | Some c => negb (Qle_bool c 0)
  | None => false
  end.

Definition filteredClients (filters : Filters) (clients : list Client) : list Client :=
  let filtered := clients in
  let filtered :=
    if String.eqb (search filters) "" then filtered
    else List.filter (search_filter filters) filtered in
  let filtered :=
    if String.eqb (businessCategory filters) "" then filtered
    else List.filter (category_filter filters) filtered in
  let filtered :=
    if String.eqb (priorityLevel filters) "" then filtered
    else List.filter (priority_filter filters) filtered in
  let filtered :=
    if Qle_bool (relationshipStrengthMin filters) 0 then filtered
    else List.filter (strength_filter filters) filtered in
  Array_sort (sorts_after filters) filtered.

(** A client passes the filters that are switched on. *)
Definition passes (filters : Filters) (client : Client) : bool :=
  (String.eqb (search filters) "" || search_filter filters client)
  && (String.eqb (businessCategory filters) "" || category_filter filters client)
  && (String.eqb (priorityLevel filters) "" || priority_filter filters client)
  && (Qle_bool (relationshipStrengthMin filters) 0 || strength_filter filters client).

(** The texts the search looks at: the name and the organization when the
    client has them, and the address. *)
Definition searchable (client : Client) : list string :=
  option_list (client_name client) ++ [email_address client]
  ++ option_list (organization_name client).

(** The clients a user of the filters expects to see, said of the fields of
    the client: a filter that is left empty (a minimum that is not positive)
    asks for nothing; the search asks for a searched text that contains the
    search text, both in lower case; the category and the priority ask for
    that very value; the minimum asks for a strength that is at least as
    large, a missing strength counting as 0. *)
Definition wanted (filters : Filters) (client : Client) : Prop :=
  (search filters = ""
   \/ Exists (fun text => includes (toLowerCase (search filters))
                                   (toLowerCase text) = true)
             (searchable client))
  /\ (businessCategory filters = ""
      \/ business_category client = Some (businessCategory filters))
  /\ (priorityLevel filters = ""
      \/ priority_level client = priorityLevel filters)
  /\ ((relationshipStrengthMin filters <= 0)%Q
      \/ (relationshipStrengthMin filters
          <= default 0%Q (relationship_strength client))%Q).

End ClientFilters.

Definition strength_of (client : Client) : Q :=
  or_number (relationship_strength client) 0.

Definition by_strength (order : SortOrder) : Filters :=
  {| search := ""; businessCategory := ""; priorityLevel := "";
     relationshipStrengthMin := 0; sortBy := "relationship_strength";
     sortOrder := order |}.

(** Stand-ins for the engine's functions in the examples: ASCII text needs
    no case folding here, strings compare equal, dates are those of
    [sample_parseDate]. *)
Definition sample_toLowerCase (s : string) : string := s.
Definition sample_localeCompare (x y : string) : Z := 0%Z.

(** The number of clients whose business category is [c]. *)
Definition clients_in_category (c : string) (clients : list Client) : nat :=
  length (List.filter (fun cl => match business_category cl with
                                 | Some c' => String.eqb c' c
                                 | None => false
                                 end) clients).

(** The count an object kept as its entries holds for a key; 0 when the
    key is missing. *)
Fixpoint count_of (k : string) (acc : list (string * nat)) : nat :=
  match acc with
  | [] => 0
  | (k', n) :: rest => if String.eqb k' k then n else count_of k rest
  end.

(** The property names every object inherits from [Object.prototype]: for
    these [acc[k]] is not [undefined] on a fresh object, and counting with
    [increment] does not describe what the reduction does. *)
Definition inherited_names : list string :=
  ["constructor"; "hasOwnProperty"; "isPrototypeOf"; "propertyIsEnumerable";
   "toLocaleString"; "toString"; "valueOf"; "__proto__";
   "__defineGetter__"; "__defineSetter__"; "__lookupGetter__"; "__lookupSetter__"].

Definition ordinary_category (cl : Client) : bool :=
  match business_category cl with
  | Some c => negb (existsb (String.eqb c) inherited_names)
  | None => true
  end.

(** ** The email list (component EmailPreview) *)

Section EmailPreview.

(** [new Date(s).getTime()] ([None] for an invalid date) and
    [date.toLocaleDateString('cs-CZ')] of the JavaScript engine, and the
    time [new Date()] of the call. *)
Variable getTime : string -> option Z.
Variable toLocaleDateString : string -> string.
Variable now_ms : Z.

(** [formatTimeAgo]; with an invalid date every comparison is false and the
    date is printed as the engine prints it. *)
Definition formatTimeAgo (dateString : string) : string :=
  match getTime dateString with
  | None => toLocaleDateString dateString
  | Some date =>
      let diffInMinutes := ((now_ms - date) / (1000 * 60))%Z in
      if (diffInMinutes <? 1)%Z then "právě teď"
      else if (diffInMinutes <? 60)%Z
           then "před " +:+ pretty diffInMinutes +:+ " minutami"
      else
        let diffInHours := (diffInMinutes / 60)%Z in
        if (diffInHours <? 24)%Z
        then "před " +:+ pretty diffInHours +:+ " hodinami"
        else
          let diffInDays := (diffInHours / 24)%Z in
          if (diffInDays <? 7)%Z
          then "před " +:+ pretty diffInDays +:+ " dny"
          else toLocaleDateString dateString
  end.

End EmailPreview.

(** [handleToggleStar]: the update that [star] or [unstar] asks for. *)
Definition handleToggleStar (email : EmailMessage) : string * PartialEmailMessage :=
  if is_starred email
  then (em_id email, star_update false)
  else (em_id email, star_update true).

(** The age of a date in milliseconds, put into words directly. *)
Definition age_in_words (toLocaleDateString : string -> string)
  (dateString : string) (age : Z) : string :=
  if (age <? 60000)%Z then "právě teď"
  else if (age <? 3600000)%Z
       then "před " +:+ pretty (age / 60000)%Z +:+ " minutami"
  else if (age <? 86400000)%Z
       then "před " +:+ pretty (age / 3600000)%Z +:+ " hodinami"
  else if (age <? 604800000)%Z
       then "před " +:+ pretty (age / 86400000)%Z +:+ " dny"
  else toLocaleDateString dateString.

(** ** Optimistic updates of the query cache (hooks/useEmails.ts,
    [useUpdateEmail]) *)

(** A page of emails as [getEmails] returns it. *)
Record EmailsPage := {
  page_emails : list EmailMessage;
  total_count : Q;
  page : Q;
  page_size : Q
}.

(** What the cache holds for one email: the email, or an object with only
    the fields some update carried. *)
Inductive CachedEmail :=
| FullEmail (email : EmailMessage)
| Fragment (fields : PartialEmailMessage).

(** [{...a, ...b}] on two partial objects. *)
Definition spread_partial (x u : PartialEmailMessage) : PartialEmailMessage :=
  {| pe_id := default (pe_id x) (Some <$> pe_id u);
     pe_user_id := default (pe_user_id x) (Some <$> pe_user_id u);
     pe_client_id := default (pe_client_id x) (Some <$> pe_client_id u);
     pe_subject := default (pe_subject x) (Some <$> pe_subject u);
     pe_sender := default (pe_sender x) (Some <$> pe_sender u);
     pe_recipient := default (pe_recipient x) (Some <$> pe_recipient u);
     pe_body_text := default (pe_body_text x) (Some <$> pe_body_text u);
     pe_body_html := default (pe_body_html x) (Some <$> pe_body_html u);
     pe_sent_datetime := default (pe_sent_datetime x) (Some <$> pe_sent_datetime u);
     pe_received_datetime :=
       default (pe_received_datetime x) (Some <$> pe_received_datetime u);
     pe_is_read := default (pe_is_read x) (Some <$> pe_is_read u);
     pe_is_starred := default (pe_is_starred x) (Some <$> pe_is_starred u);
     pe_has_attachments :=
       default (pe_has_attachments x) (Some <$> pe_has_attachments u);
     pe_labels := default (pe_labels x) (Some <$> pe_labels u);
     pe_urgency_level := default (pe_urgency_level x) (Some <$> pe_urgency_level u);
     pe_sentiment_score :=
       default (pe_sentiment_score x) (Some <$> pe_sentiment_score u);
     pe_topic_categories :=
       default (pe_topic_categories x) (Some <$> pe_topic_categories u);
     pe_is_processed := default (pe_is_processed x) (Some <$> pe_is_processed u);
     pe_is_analyzed := default (pe_is_analyzed x) (Some <$> pe_is_analyzed u) |}.

(** The updater of the detail query: [(old) => ({ ...old, ...updates })];
    [old] is [undefined] when the email is not cached. *)
Definition detail_updater (updates : PartialEmailMessage) (old : option CachedEmail)
  : CachedEmail :=
  match old with
  | Some (FullEmail email) => FullEmail (spread_email email updates)
  | Some (Fragment fields) => Fragment (spread_partial fields updates)
  | None => Fragment updates
  end.

(** The updater of the list queries. *)
Definition lists_updater (emailId : string) (updates : PartialEmailMessage)
  (old : option EmailsPage) : option EmailsPage :=
  match old with
  | None => None
  | Some p =>
      Some {| page_emails :=
                map (fun email => if String.eqb (em_id email) emailId
                                  then spread_email email updates else email)
                    (page_emails p);
              total_count := total_count p; page := page p;
              page_size := page_size p |}
  end.

(** The part of the query cache the mutation touches: the detail queries
    by email id, and the list queries by their key. *)
Record EmailCache := {
  details : gmap string CachedEmail;
  lists : gmap string EmailsPage
}.

(** [onMutate]: the new cache and the context [{ previousEmail }]. *)
Definition onMutate (emailId : string) (updates : PartialEmailMessage)
  (cache : EmailCache) : EmailCache * option CachedEmail :=
  let previousEmail := details cache !! emailId in
  ({| details := <[emailId := detail_updater updates previousEmail]> (details cache);
      lists := omap (fun p => lists_updater emailId updates (Some p)) (lists cache) |},
   previousEmail).

(** [onError]: the roll back, [if (context?.previousEmail)]. *)
Definition onError_rollback (emailId : string) (previousEmail : option CachedEmail)
  (cache : EmailCache) : EmailCache :=
  match previousEmail with
  | Some previous =>
      {| details := <[emailId := previous]> (details cache); lists := lists cache |}
  | None => cache
  end.

Definition sample_page : EmailsPage :=
  {| page_emails := [sample_email "m-1" false; sample_email "m-2" true];
     total_count := 2; page := 1; page_size := 10 |}.

(** ** services/api.ts, [streamTaskUpdates]: the interval and the requests in flight *)

(** What happens once [streamTaskUpdates] has set its interval: the timer
    fires, or the answer to one of the requests arrives.  The timer fires
    every 2 s whether or not the earlier requests were answered, so several
    requests can be in flight; their answers come in any order, and can
    come after the interval was cleared.  Requests are numbered in the
    order in which they were sent, from 0. *)
Inductive StreamEvent :=
| TimerFires
| AnswerArrives (request : nat) (answer : Outcome TaskStatus).

Record Stream := {
  interval_cleared : bool;
  requests_sent : nat;
  in_flight : list nat
}.

Definition stream_start : Stream :=
  {| interval_cleared := false; requests_sent := 0; in_flight := [] |}.

(** One event.  A cleared interval does not fire; the callback of a firing
    runs up to its [await], sending the request; when the answer to a
    request in flight arrives the rest of that callback runs, whatever
    happened to the interval meanwhile. *)
Definition stream_step (taskId : string) (st : Stream) (ev : StreamEvent)
  : list Effect * Stream :=
  match ev with
  | TimerFires =>
      if interval_cleared st then ([], st)
      else (map Http (fst (run_api (getTaskStatus taskId) [])),
            {| interval_cleared := false;
               requests_sent := S (requests_sent st);
               in_flight := in_flight st ++ [requests_sent st] |})
  | AnswerArrives n answer =>
      if existsb (Nat.eqb n) (in_flight st) then
        let waiting := List.filter (fun k => negb (Nat.eqb n k)) (in_flight st) in
        match snd (run_api (getTaskStatus taskId) [answer]) with
        | Some (Resolved status_) =>
            if String.eqb (status status_) "SUCCESS"
               || String.eqb (status status_) "FAILURE"
            then ([OnUpdate status_; ClearInterval],
                  {| interval_cleared := true;
                     requests_sent := requests_sent st; in_flight := waiting |})
            else ([OnUpdate status_],
                  {| interval_cleared := interval_cleared st;
                     requests_sent := requests_sent st; in_flight := waiting |})
        | Some (Rejected _) =>
            ([ConsoleError "Error polling task status:"; ClearInterval],
             {| interval_cleared := true;
                requests_sent := requests_sent st; in_flight := waiting |})
        | None => ([], st)
        end
      else ([], st)
  end.

Fixpoint stream_run (taskId : string) (st : Stream) (evs : list StreamEvent)
  : list Effect * Stream :=
  match evs with
  | [] => ([], st)
  | ev :: rest =>
      let '(effs, st') := stream_step taskId st ev in
      let '(more, final) := stream_run taskId st' rest in
      (effs ++ more, final)
  end.

Definition streamTaskUpdates_events (taskId : string) (evs : list StreamEvent)
  : list Effect * Stream :=
  let '(effs, final) := stream_run taskId stream_start evs in
  (SetInterval 2000 :: effs, final).





(** ** The [Map] objects behind [activeTasks] *)

(** [activeTasks] is a [Map], an object with an identity: a state holds a
    reference to one, and two states can hold the same one.  The store gives
    the entries of every [Map] made so far. *)
Definition entries_of (store : gmap positive (gmap string TaskStatus))
  (ref : positive) : gmap string TaskStatus :=
  default ∅ (store !! ref).

(** What an action of the reducer does to the Maps, given the reference
    the state holds: the new store, and the reference the returned state
    holds.  ADD_TASK calls [set] on the Map of the state it is given, which
    writes to it and returns it, and then copies it with [new Map(...)];
    UPDATE_TASK and REMOVE_TASK copy first and write to the copy; every
    other action spreads the state ([{ ...state, ... }]) and so keeps the
    reference. *)
Definition reduce_tasks (store : gmap positive (gmap string TaskStatus))
  (ref : positive) (a : AppAction)
  : gmap positive (gmap string TaskStatus) * positive :=
  match a with
  | ADD_TASK payload =>
      let written := <[task_id payload := payload]> (entries_of store ref) in
      let store := <[ref := written]> store in
      let copy := fresh (dom store) in
      (<[copy := written]> store, copy)
  | UPDATE_TASK payload =>
      let updatedTasks := <[task_id payload := payload]> (entries_of store ref) in
      let updatedTasks :=
        if is_terminal (status payload)
        then delete (task_id payload) updatedTasks else updatedTasks in
      let copy := fresh (dom store) in
      (<[copy := updatedTasks]> store, copy)
  | REMOVE_TASK payload =>
      let tasksAfterRemoval := delete payload (entries_of store ref) in
      let copy := fresh (dom store) in
      (<[copy := tasksAfterRemoval]> store, copy)
  | _ => (store, ref)
  end.

(** The store when the module is loaded: [initialState] holds the one Map. *)
Definition initial_store : gmap positive (gmap string TaskStatus) :=
  {[ 1%positive := ∅ ]}.

(** * Properties of the reducer *)

Section Reducer.

Implicit Types (e : Env) (s : AppState) (a : AppAction) (p : TaskStatus).

Lemma dispatch_all_app s acts1 acts2 :
  dispatch_all s (acts1 ++ acts2) = dispatch_all (dispatch_all s acts1) acts2.
Proof. unfold dispatch_all. apply fold_left_app. Qed.

Lemma dispatch_all_cons s e a acts :
  dispatch_all s ((e, a) :: acts) = dispatch_all (appReducer e s a) acts.
Proof. reflexivity. Qed.

(** An invariant of single steps holds along every run. *)
Lemma dispatch_all_ind (P : AppState -> Prop) :
  (forall e s a, P s -> P (appReducer e s a)) ->
  forall acts s, P s -> P (dispatch_all s acts).
Proof.
  intros Hstep acts. induction acts as [|[e a] acts IH]; intros s Hs.
  - exact Hs.
  - rewrite dispatch_all_cons. apply IH, Hstep, Hs.
Qed.

Lemma taskHistory_step e s a :
  taskHistory (appReducer e s a) = taskHistory s
  \/ taskHistory (appReducer e s a) = []
  \/ exists p, a = UPDATE_TASK p /\ is_terminal (status p) = true
               /\ taskHistory (appReducer e s a) = p :: take 49 (taskHistory s).
Proof.
  destruct a; simpl; auto.
  destruct (is_terminal (status payload)) eqn:Ht; simpl; eauto 6.
Qed.

Lemma notifications_step e s a :
  length (notifications (appReducer e s a)) <= length (notifications s)
  \/ exists n, notifications (appReducer e s a) = n :: take 99 (notifications s).
Proof.
  destruct a; simpl; auto; try (right; eauto; fail).
  - destruct (is_terminal (status payload)); auto.
  - left. rewrite length_map. lia.
  - left. lia.
Qed.

Lemma appReducer_bounded e s a :
  length (taskHistory s) <= 50 /\ length (notifications s) <= 100 ->
  length (taskHistory (appReducer e s a)) <= 50
  /\ length (notifications (appReducer e s a)) <= 100.
Proof.
  intros [Hh Hn]. split.
  - destruct (taskHistory_step e s a) as [-> | [-> | (p & _ & _ & ->)]];
      simpl; try lia.
    rewrite length_take. lia.
  - destruct (notifications_step e s a) as [Hle | [n ->]]; simpl; try lia.
    rewrite length_take. lia.
Qed.

(** Every entry of the history was written by a terminal update. *)
Lemma taskHistory_terminal acts :
  Forall (fun p => is_terminal (status p) = true)
         (taskHistory (dispatch_all initialState acts)).
Proof.
  apply dispatch_all_ind; [|constructor].
  intros e s a Hs.
  destruct (taskHistory_step e s a) as [-> | [-> | (p & _ & Hp & ->)]]; auto.
  constructor; [exact Hp|]. apply Forall_take, Hs.
Qed.

(** ** C9 *)

(** C9: in every state reached from [initialState] by a sequence of
    reducer actions, [taskHistory] has at most 50 entries and
    [notifications] at most 100. *)
Theorem reachable_state_bounded (acts : list (Env * AppAction)) :
  length (taskHistory (dispatch_all initialState acts)) <= 50
  /\ length (notifications (dispatch_all initialState acts)) <= 100.
Proof.
  apply (dispatch_all_ind
           (fun s => length (taskHistory s) <= 50
                     /\ length (notifications s) <= 100)).
  - intros e s a. apply appReducer_bounded.
  - simpl. lia.
Qed.

End Reducer.

Section TaskLifecycle.

Implicit Types (e : Env) (s : AppState) (p : TaskStatus).

Lemma update_terminal e s p :
  is_terminal (status p) = true ->
  activeTasks (appReducer e s (UPDATE_TASK p)) = delete (task_id p) (activeTasks s)
  /\ taskHistory (appReducer e s (UPDATE_TASK p)) = p :: take 49 (taskHistory s).
Proof.
  intros Ht. simpl. rewrite Ht. simpl. split; [apply delete_insert_eq | reflexivity].
Qed.

Lemma update_in_progress e s p :
  is_terminal (status p) = false ->
  activeTasks (appReducer e s (UPDATE_TASK p)) !! task_id p = Some p
  /\ taskHistory (appReducer e s (UPDATE_TASK p)) = taskHistory s.
Proof.
  intros Ht. simpl. rewrite Ht. simpl. split; [apply lookup_insert_eq | reflexivity].
Qed.

(** ** C1 *)

(** C1, as stated, fails: a job recorded as SUCCESS is observed as STARTED
    again when a later UPDATE_TASK reports it so; the reducer has no guard
    on the previous status. *)
Lemma terminal_task_observed_started_again :
  let s1 := dispatch_all initialState [(env0, UPDATE_TASK job_done)] in
  let s2 := dispatch_all s1 [(env0, UPDATE_TASK job_started)] in
  taskHistory s1 = [job_done]
  /\ activeTasks s1 !! task_id job_done = None
  /\ activeTasks s2 !! task_id job_done = Some job_started
  /\ status job_started = "STARTED".
Proof.
  cbv zeta. split; [reflexivity|]. split; [|split; [|reflexivity]].
  - vm_compute. reflexivity.
  - vm_compute. reflexivity.
Qed.

Lemma absent_step e s a (t : string) :
  reactivates t a = false ->
  activeTasks s !! t = None ->
  activeTasks (appReducer e s a) !! t = None.
Proof.
  intros Hr Hnone. destruct a; simpl in *; auto.
  - apply String.eqb_neq in Hr. rewrite lookup_insert_ne; auto.
  - destruct (is_terminal (status payload)) eqn:Ht; simpl.
    + rewrite delete_insert_eq.
      destruct (decide (task_id payload = t)) as [->|Hne].
      * apply lookup_delete_eq.
      * rewrite lookup_delete_ne; auto.
    + rewrite andb_true_r in Hr. apply String.eqb_neq in Hr.
      rewrite lookup_insert_ne; auto.
  - destruct (decide (payload = t)) as [->|Hne].
    + apply lookup_delete_eq.
    + rewrite lookup_delete_ne; auto.
Qed.

Lemma stays_absent (t : string) acts : forall s,
  Forall (fun ea => reactivates t (snd ea) = false) acts ->
  activeTasks s !! t = None ->
  activeTasks (dispatch_all s acts) !! t = None.
Proof.
  induction acts as [|[e a] acts IH]; intros s Hall Hnone; [exact Hnone|].
  inversion Hall as [|? ? Ha Hrest]; subst. rewrite dispatch_all_cons.
  apply IH; [exact Hrest|]. apply absent_step; assumption.
Qed.

Lemma not_in_progress_step e s a (t : string) :
  reports_in_progress t a = false ->
  not_in_progress t s ->
  not_in_progress t (appReducer e s a).
Proof.
  unfold not_in_progress. intros Hr Hs q. destruct a; simpl in *; auto.
  - destruct (decide (task_id payload = t)) as [<-|Hne].
    + rewrite lookup_insert_eq. intros [= <-].
      rewrite String.eqb_refl in Hr. exact Hr.
    + rewrite lookup_insert_ne by exact Hne. apply Hs.
  - destruct (is_terminal (status payload)) eqn:Ht; simpl.
    + rewrite delete_insert_eq.
      destruct (decide (task_id payload = t)) as [<-|Hne].
      * rewrite lookup_delete_eq. discriminate.
      * rewrite lookup_delete_ne by exact Hne. apply Hs.
    + destruct (decide (task_id payload = t)) as [<-|Hne].
      * rewrite lookup_insert_eq. intros [= <-].
        rewrite String.eqb_refl in Hr. exact Hr.
      * rewrite lookup_insert_ne by exact Hne. apply Hs.
  - destruct (decide (payload = t)) as [->|Hne].
    + rewrite lookup_delete_eq. discriminate.
    + rewrite lookup_delete_ne by exact Hne. apply Hs.
Qed.

Lemma stays_not_in_progress (t : string) acts : forall s,
  Forall (fun ea => reports_in_progress t (snd ea) = false) acts ->
  not_in_progress t s ->
  not_in_progress t (dispatch_all s acts).
Proof.
  induction acts as [|[e a] acts IH]; intros s Hall Hs; [exact Hs|].
  inversion Hall as [|? ? Ha Hrest]; subst. rewrite dispatch_all_cons.
  apply IH; [exact Hrest|]. apply not_in_progress_step; assumption.
Qed.

(** C1, amended: a terminal update (SUCCESS or FAILURE) removes the job
    from [activeTasks] and records it first in [taskHistory], and every
    entry of the history of a reachable state has a terminal status.
    Through any later actions [quiet], none of which is an ADD_TASK for its
    id or an UPDATE_TASK for its id with a status other than SUCCESS or
    FAILURE, the job stays absent from [activeTasks] (a repeated terminal
    update or a REMOVE_TASK keeps it absent); through any later actions
    [later], none of which is an ADD_TASK or UPDATE_TASK that reports PENDING
    or STARTED for its id, the job is not observed as PENDING or STARTED.
    The reducer has no guard on the previous status: in any state an
    ADD_TASK for that id lists the job with the reported status, and so does
    an UPDATE_TASK whose status is not SUCCESS or FAILURE. *)
Theorem terminal_update_retires_task e s p (quiet later : list (Env * AppAction)) :
  is_terminal (status p) = true ->
  Forall (fun ea => reactivates (task_id p) (snd ea) = false) quiet ->
  Forall (fun ea => reports_in_progress (task_id p) (snd ea) = false) later ->
  let s1 := appReducer e s (UPDATE_TASK p) in
  activeTasks s1 !! task_id p = None
  /\ head (taskHistory s1) = Some p
  /\ (forall acts0, Forall (fun q => is_terminal (status q) = true)
                      (taskHistory (dispatch_all initialState acts0)))
  /\ activeTasks (dispatch_all s1 quiet) !! task_id p = None
  /\ (forall q, activeTasks (dispatch_all s1 later) !! task_id p = Some q ->
                is_in_progress (status q) = false)
  /\ (forall e' s' q,
        task_id q = task_id p ->
        activeTasks (appReducer e' s' (ADD_TASK q)) !! task_id p = Some q
        /\ activeTasks (appReducer e' s' (UPDATE_TASK q)) !! task_id p
           = if is_terminal (status q) then None else Some q).
Proof.
  intros Ht Hquiet Hlater s1.
  destruct (update_terminal e s p Ht) as [Ha Hh].
  assert (Hnone : activeTasks s1 !! task_id p = None).
  { unfold s1. rewrite Ha. apply lookup_delete_eq. }
  split; [exact Hnone|]. split; [unfold s1; rewrite Hh; reflexivity|].
  split; [apply taskHistory_terminal|].
  split; [apply stays_absent; assumption|].
  split.
  - apply stays_not_in_progress; [exact Hlater|].
    intros q Hq. rewrite Hnone in Hq. discriminate.
  - intros e' s' q Hid. rewrite <- Hid. split.
    + simpl. apply lookup_insert_eq.
    + destruct (is_terminal (status q)) eqn:Hq.
      * destruct (update_terminal e' s' q Hq) as [Hq' _].
        rewrite Hq'. apply lookup_delete_eq.
      * apply (update_in_progress e' s' q Hq).
Qed.

Lemma terminal_update_retires_task_witness :
  activeTasks
    (dispatch_all (appReducer env0 initialState (UPDATE_TASK job_done))
                  [(env0, TOGGLE_SIDEBAR); (env0, UPDATE_TASK job_failed);
                   (env0, REMOVE_TASK (task_id job_done))])
    !! task_id job_done = None
  /\ forall q,
       activeTasks
         (dispatch_all (appReducer env0 initialState (UPDATE_TASK job_done))
                       [(env0, UPDATE_TASK (revoked (task_id job_done)));
                        (env0, ADD_TASK job_failed)])
         !! task_id job_done = Some q ->
       is_in_progress (status q) = false.
Proof.
  assert (H := terminal_update_retires_task env0 initialState job_done
                 [(env0, TOGGLE_SIDEBAR); (env0, UPDATE_TASK job_failed);
                  (env0, REMOVE_TASK (task_id job_done))]
                 [(env0, UPDATE_TASK (revoked (task_id job_done)));
                  (env0, ADD_TASK job_failed)]
                 eq_refl
                 ltac:(repeat constructor) ltac:(repeat constructor)).
  split; [exact (proj1 (proj2 (proj2 (proj2 H))))
         | exact (proj1 (proj2 (proj2 (proj2 (proj2 H)))))].
Defined.

(** ** C3 *)

(** C3, as stated, fails: after a SUCCESS and then a FAILURE update of the
    same job the history holds both outcomes, the later one first. *)
Lemma second_finalization_is_recorded :
  taskHistory
    (dispatch_all initialState
       [(env0, UPDATE_TASK job_done); (env0, UPDATE_TASK job_failed)])
  = [job_failed; job_done].
Proof. reflexivity. Qed.

(** C3, amended: a second terminal update is not an error and is not
    dropped: it is recorded in front of the first one, both outcomes are
    kept (with the 48 most recent older entries), and the jobs named by
    the two updates are absent from [activeTasks]. *)
Theorem second_terminal_update_prepends e1 e2 s p1 p2 :
  is_terminal (status p1) = true ->
  is_terminal (status p2) = true ->
  let s2 := appReducer e2 (appReducer e1 s (UPDATE_TASK p1)) (UPDATE_TASK p2) in
  taskHistory s2 = p2 :: p1 :: take 48 (taskHistory s)
  /\ activeTasks s2 = delete (task_id p2) (delete (task_id p1) (activeTasks s)).
Proof.
  intros H1 H2 s2.
  destruct (update_terminal e2 (appReducer e1 s (UPDATE_TASK p1)) p2 H2) as [Ha2 Hh2].
  destruct (update_terminal e1 s p1 H1) as [Ha1 Hh1].
  unfold s2. rewrite Ha2, Hh2, Ha1, Hh1. split; [|reflexivity].
  change (take 49 (p1 :: take 49 (taskHistory s)))
    with (p1 :: take 48 (take 49 (taskHistory s))).
  rewrite take_take. reflexivity.
Qed.

Lemma second_terminal_update_prepends_witness :
  taskHistory
    (appReducer env0 (appReducer env0 initialState (UPDATE_TASK job_done))
                (UPDATE_TASK job_failed))
  = job_failed :: job_done :: take 48 (taskHistory initialState).
Proof.
  refine (proj1 (second_terminal_update_prepends env0 env0 initialState
                   job_done job_failed _ _)); reflexivity.
Defined.

End TaskLifecycle.

(** * Properties of the polling loops *)

Section Polling.

Implicit Types (st : TaskStatus) (tr : list Effect) (tid : string).

Lemma polls_made_app tr1 tr2 :
  polls_made (tr1 ++ tr2) = polls_made tr1 + polls_made tr2.
Proof. unfold polls_made. rewrite List.filter_app, length_app. reflexivity. Qed.

Lemma outcome_notified_app tr1 tr2 :
  outcome_notified (tr1 ++ tr2) = outcome_notified tr1 || outcome_notified tr2.
Proof. apply existsb_app. Qed.

Lemma is_status_request_getTaskStatus tid :
  is_status_request (Http (getTaskStatus_request tid)) = true.
Proof. destruct tid; reflexivity. Qed.

Lemma in_progress_not_terminal (s : string) :
  is_in_progress s = true -> is_terminal s = false.
Proof.
  unfold is_in_progress, is_terminal. intros H.
  apply orb_true_iff in H as [H|H]; apply String.eqb_eq in H; subst; reflexivity.
Qed.

Lemma updateTaskStatus_polls st : polls_made (updateTaskStatus st) = 0.
Proof.
  unfold updateTaskStatus.
  destruct (String.eqb (status st) "SUCCESS"); [reflexivity|].
  destruct (String.eqb (status st) "FAILURE"); reflexivity.
Qed.

Lemma updateTaskStatus_notifies st :
  outcome_notified (updateTaskStatus st) = is_terminal (status st).
Proof.
  unfold updateTaskStatus, is_terminal.
  destruct (String.eqb (status st) "SUCCESS"); [reflexivity|].
  destruct (String.eqb (status st) "FAILURE"); reflexivity.
Qed.

#[local] Ltac handle_cases unf :=
  intros st; unfold unf, is_in_progress, is_terminal;
  destruct st as [t s r er d ok]; cbn [status];
  by_status_string s
with by_status_string s :=
  destruct (String.eqb_spec s "SUCCESS") as [->|?]; [easy|];
  destruct (String.eqb_spec s "PENDING") as [->|?]; [easy|];
  destruct (String.eqb_spec s "STARTED") as [->|?]; [easy|];
  destruct (String.eqb_spec s "FAILURE") as [->|?]; easy.

#[global] Instance useGenerateResponse_handle_ok :
  PollHandle useGenerateResponse_handle.
Proof.
  split.
  - handle_cases useGenerateResponse_handle.
  - handle_cases useGenerateResponse_handle.
  - handle_cases useGenerateResponse_handle.
Qed.

#[global] Instance useAnalyzeEmail_handle_ok emailId :
  PollHandle (useAnalyzeEmail_handle emailId).
Proof.
  split.
  - handle_cases useAnalyzeEmail_handle.
  - handle_cases useAnalyzeEmail_handle.
  - handle_cases useAnalyzeEmail_handle.
Qed.

Lemma pollTask_once_resolved tid handle st :
  pollTask_once tid handle (Resolved st)
  = (Http (getTaskStatus_request tid) :: updateTaskStatus st ++ fst (handle st),
     snd (handle st)).
Proof. unfold pollTask_once. simpl. destruct (handle st); reflexivity. Qed.

Lemma pollTask_once_rejected tid handle err :
  pollTask_once tid handle (Rejected err)
  = ([Http (getTaskStatus_request tid);
      ConsoleError "Error polling task status:"], false).
Proof. reflexivity. Qed.

Section Loop.

Context (handle : TaskStatus -> list Effect * bool) `{!PollHandle handle}.

Lemma pollTask_once_again tid r :
  snd (pollTask_once tid handle r) = in_progress_answer r.
Proof.
  destruct r as [st|err].
  - rewrite pollTask_once_resolved. cbn [snd in_progress_answer].
    apply handle_again.
  - reflexivity.
Qed.

Lemma pollTask_once_polls tid r :
  polls_made (fst (pollTask_once tid handle r)) = 1.
Proof.
  destruct r as [st|err].
  - rewrite pollTask_once_resolved. cbn [fst].
    change (Http ?r :: ?l) with ([Http r] ++ l).
    rewrite !polls_made_app, updateTaskStatus_polls, handle_no_poll.
    unfold polls_made. cbn [List.filter].
    rewrite is_status_request_getTaskStatus. reflexivity.
  - rewrite pollTask_once_rejected. unfold polls_made. cbn [fst List.filter].
    rewrite is_status_request_getTaskStatus. reflexivity.
Qed.

Lemma pollTask_once_notifies tid r :
  outcome_notified (fst (pollTask_once tid handle r))
  = match r with
    | Resolved st => is_terminal (status st)
    | Rejected _ => false
    end.
Proof.
  destruct r as [st|err]; [|reflexivity].
  rewrite pollTask_once_resolved. cbn [fst].
  change (Http ?r :: ?l) with ([Http r] ++ l).
  rewrite !outcome_notified_app, updateTaskStatus_notifies.
  cbn [outcome_notified existsb is_outcome_notification orb].
  destruct (is_terminal (status st)) eqn:Ht; [reflexivity|].
  destruct (outcome_notified (fst (handle st))) eqn:Hn; [|reflexivity].
  apply handle_notifies in Hn. congruence.
Qed.

Lemma pollTask_cons tid r rest :
  pollTask tid handle (r :: rest)
  = if in_progress_answer r
    then (fst (pollTask_once tid handle r) ++ fst (pollTask tid handle rest),
          snd (pollTask tid handle rest))
    else (fst (pollTask_once tid handle r), Stopped).
Proof.
  rewrite <- (pollTask_once_again tid r). cbn [pollTask].
  destruct (pollTask_once tid handle r) as [effs again]. cbn [fst snd].
  destruct again; [|reflexivity].
  destruct (pollTask tid handle rest); reflexivity.
Qed.

(** While every answer is PENDING or STARTED the loop goes on: one status
    request per answer, no outcome reported, the next poll scheduled. *)
Lemma pollTask_in_progress tid server :
  forallb in_progress_answer server = true ->
  snd (pollTask tid handle server) = Scheduled
  /\ polls_made (fst (pollTask tid handle server)) = length server
  /\ outcome_notified (fst (pollTask tid handle server)) = false.
Proof.
  induction server as [|r rest IH]; intros Hall; [repeat split|].
  cbn [forallb] in Hall. apply andb_true_iff in Hall as [Hr Hrest].
  destruct (IH Hrest) as (Hs & Hp & Hn).
  rewrite pollTask_cons, Hr. cbn [fst snd length].
  rewrite polls_made_app, outcome_notified_app, pollTask_once_polls,
    pollTask_once_notifies, Hp, Hn.
  repeat split; [exact Hs|].
  destruct r as [st|err]; [|discriminate].
  cbn in Hr. rewrite (in_progress_not_terminal _ Hr). reflexivity.
Qed.

(** The first answer that is not PENDING or STARTED ends the loop, and
    later answers are never requested. *)
Lemma pollTask_stops tid pre r rest :
  forallb in_progress_answer pre = true ->
  in_progress_answer r = false ->
  pollTask tid handle (pre ++ r :: rest)
  = (fst (pollTask tid handle pre) ++ fst (pollTask_once tid handle r), Stopped).
Proof.
  intros Hpre Hr. induction pre as [|a pre IH].
  - cbn [app]. rewrite pollTask_cons, Hr. reflexivity.
  - cbn [forallb] in Hpre. apply andb_true_iff in Hpre as [Ha Hpre].
    cbn [app]. rewrite !pollTask_cons, Ha, (IH Hpre). cbn [fst snd].
    rewrite app_assoc. reflexivity.
Qed.

(** The hooks' loop polls again only on PENDING or STARTED. *)
Lemma pollTask_repolls_only_in_progress tid pre r rest :
  forallb in_progress_answer pre = true ->
  in_progress_answer r = false ->
  snd (pollTask tid handle (pre ++ r :: rest)) = Stopped
  /\ polls_made (fst (pollTask tid handle (pre ++ r :: rest))) = S (length pre).
Proof.
  intros Hpre Hr. rewrite (pollTask_stops tid pre r rest Hpre Hr).
  destruct (pollTask_in_progress tid pre Hpre) as (_ & Hp & _).
  cbn [fst snd]. rewrite polls_made_app, Hp, pollTask_once_polls.
  split; [reflexivity | lia].
Qed.

End Loop.

Lemma streamTaskUpdates_ticks_cons tid r rest :
  streamTaskUpdates_ticks tid (r :: rest)
  = match r with
    | Resolved st =>
        if is_terminal (status st)
        then ([Http (getTaskStatus_request tid); OnUpdate st; ClearInterval],
              Stopped)
        else (Http (getTaskStatus_request tid) :: OnUpdate st
                :: fst (streamTaskUpdates_ticks tid rest),
              snd (streamTaskUpdates_ticks tid rest))
    | Rejected _ =>
        ([Http (getTaskStatus_request tid);
          ConsoleError "Error polling task status:"; ClearInterval], Stopped)
    end.
Proof.
  destruct r as [st|err]; [|reflexivity].
  cbn [streamTaskUpdates_ticks await run_api getTaskStatus map app].
  fold (is_terminal (status st)).
  destruct (is_terminal (status st)); [reflexivity|].
  destruct (streamTaskUpdates_ticks tid rest); reflexivity.
Qed.

(** [streamTaskUpdates] keeps its interval on every status other than
    SUCCESS and FAILURE. *)
Lemma streamTaskUpdates_ticks_keep tid server :
  forallb keeps_interval server = true ->
  snd (streamTaskUpdates_ticks tid server) = Scheduled
  /\ polls_made (fst (streamTaskUpdates_ticks tid server)) = length server.
Proof.
  induction server as [|r rest IH]; intros Hall; [split; reflexivity|].
  cbn [forallb] in Hall. apply andb_true_iff in Hall as [Hr Hrest].
  destruct (IH Hrest) as [Hs Hp].
  rewrite streamTaskUpdates_ticks_cons.
  destruct r as [st|err]; [|discriminate].
  cbn in Hr. apply negb_true_iff in Hr. rewrite Hr. cbn [fst snd].
  split; [exact Hs|].
  unfold polls_made in *. cbn [List.filter].
  rewrite is_status_request_getTaskStatus. cbn. rewrite Hp. reflexivity.
Qed.

(** ** C2 *)

(** C2 at the failing input: with the server answering REVOKED (the status
    of a cancelled task) to every status request, [streamTaskUpdates] still
    has its interval set after any number of answers and has polled once
    per answer, while the hooks' [pollTask] has stopped after the first. *)
Theorem streamTaskUpdates_polls_on_after_revoked tid (n : nat) :
  let server := replicate (S n) (Resolved (revoked tid)) in
  snd (streamTaskUpdates tid server) = Scheduled
  /\ polls_made (fst (streamTaskUpdates tid server)) = S n
  /\ snd (pollTask tid useGenerateResponse_handle server) = Stopped
  /\ polls_made (fst (pollTask tid useGenerateResponse_handle server)) = 1.
Proof.
  intros server.
  assert (Hkeep : forallb keeps_interval server = true).
  { unfold server. generalize (S n). intros k.
    induction k as [|k IH]; [reflexivity|]. cbn. exact IH. }
  destruct (streamTaskUpdates_ticks_keep tid server Hkeep) as [Hs Hp].
  unfold streamTaskUpdates.
  destruct (streamTaskUpdates_ticks tid server) as [effs p]. cbn [fst snd] in *.
  split; [exact Hs|]. split.
  - unfold polls_made in *. cbn [List.filter is_status_request]. rewrite Hp.
    unfold server. rewrite length_replicate. reflexivity.
  - unfold server. cbn [replicate].
    apply (pollTask_repolls_only_in_progress useGenerateResponse_handle tid
             [] (Resolved (revoked tid)) (replicate n (Resolved (revoked tid))));
      reflexivity.
Qed.

Lemma useGenerateResponse_resolved emailId options data server :
  useGenerateResponse emailId options (Resolved data) server
  = (Http (generateResponse_request emailId options)
       :: addNotification
            {| ni_type := info; ni_title := "Response generation started";
               ni_message := "AI response generation in progress ("
                             +:+ slice8 (ref_task_id data) +:+ "...)" |}
       ++ SetTimeout 1000
       :: fst (pollTask (ref_task_id data) useGenerateResponse_handle server),
     snd (pollTask (ref_task_id data) useGenerateResponse_handle server)).
Proof.
  unfold useGenerateResponse, useMutation.
  cbn [await run_api generateResponse map app].
  destruct (pollTask (ref_task_id data) useGenerateResponse_handle server);
    reflexivity.
Qed.

Lemma useAnalyzeEmail_resolved emailId userId priority data server :
  useAnalyzeEmail emailId userId priority (Resolved data) server
  = (Http {| method := POST; url := "/tasks/analysis/email";
             body := [("email_id", JStr emailId); ("user_id", JStr userId);
                      ("priority", JStr (default "normal" priority))] |}
       :: addNotification
            {| ni_type := info; ni_title := "Analysis started";
               ni_message := "Email analysis task submitted ("
                             +:+ slice8 (ref_task_id data) +:+ "...)" |}
       ++ SetTimeout 1000
       :: fst (pollTask (ref_task_id data) (useAnalyzeEmail_handle emailId) server),
     snd (pollTask (ref_task_id data) (useAnalyzeEmail_handle emailId) server)).
Proof.
  unfold useAnalyzeEmail, useMutation.
  cbn [await run_api submitEmailAnalysis map app].
  destruct (pollTask (ref_task_id data) (useAnalyzeEmail_handle emailId) server);
    reflexivity.
Qed.

(** ** C7 *)

(** C7, as stated, fails: when the status request is rejected (here with
    404), and likewise when the status is none of PENDING, STARTED, SUCCESS
    and FAILURE (here REVOKED), polling stops and no success or error
    notification was ever added. *)
Lemma polling_ends_without_report :
  let rejected := useGenerateResponse "mail-1" None (Resolved submitted)
                    [Rejected not_found] in
  let cancelled := useGenerateResponse "mail-1" None (Resolved submitted)
                     [Resolved (revoked "7f3a9c2e-11")] in
  snd rejected = Stopped /\ outcome_notified (fst rejected) = false
  /\ snd cancelled = Stopped /\ outcome_notified (fst cancelled) = false.
Proof. cbv zeta. repeat split; reflexivity. Qed.

(** C7, amended: polling of a submitted generation job stops at the first
    answer that is not PENDING or STARTED, and the caller has then been
    notified of the outcome exactly when that answer reports SUCCESS or
    FAILURE; a rejected status request (logged to the console only) or any
    other status ends the polling with no outcome notification. *)
Theorem generation_outcome_reported emailId options data pre r rest :
  forallb in_progress_answer pre = true ->
  in_progress_answer r = false ->
  let run := useGenerateResponse emailId options (Resolved data)
               (pre ++ r :: rest) in
  snd run = Stopped
  /\ polls_made (fst run) = S (length pre)
  /\ outcome_notified (fst run)
     = match r with
       | Resolved st => is_terminal (status st)
       | Rejected _ => false
       end.
Proof.
  intros Hpre Hr run. unfold run. rewrite useGenerateResponse_resolved.
  cbn [fst snd].
  rewrite (pollTask_stops useGenerateResponse_handle _ pre r rest Hpre Hr).
  destruct (pollTask_in_progress useGenerateResponse_handle
              (ref_task_id data) pre Hpre) as (_ & Hp & Hn).
  cbn [fst snd]. split; [reflexivity|].
  change (Http ?q :: ?a ++ SetTimeout 1000 :: ?l)
    with ([Http q] ++ a ++ [SetTimeout 1000] ++ l).
  rewrite !polls_made_app, !outcome_notified_app, Hp, Hn,
    pollTask_once_polls, pollTask_once_notifies by typeclasses eauto.
  split; [cbn; lia | reflexivity].
Qed.

Lemma generation_outcome_reported_witness :
  let run := useGenerateResponse "mail-1" None (Resolved submitted)
               ([Resolved job_started; Resolved job_started]
                ++ Resolved job_failed :: []) in
  snd run = Stopped /\ polls_made (fst run) = 3
  /\ outcome_notified (fst run) = true.
Proof.
  apply (generation_outcome_reported "mail-1" None submitted
           [Resolved job_started; Resolved job_started]
           (Resolved job_failed) []); reflexivity.
Defined.

(** A polled success seen from the store: the job started, then succeeded;
    the hook made two status requests, the store holds the job in its history
    and three notifications (started, task completed, response generated). *)
Example polled_success_reaches_store :
  let tr := fst (useGenerateResponse "mail-1" None (Resolved submitted)
                   [Resolved job_started; Resolved job_done]) in
  let s := apply_effects (fun _ => env0) 0 initialState tr in
  polls_made tr = 2
  /\ taskHistory s = [job_done]
  /\ activeTasks s !! task_id job_done = None
  /\ map n_type (notifications s) = [success; success; info].
Proof. vm_compute. repeat split. Qed.

(** ** C8 *)

Lemma answered_from_Submit {Result : Type}
  (well_formed : JobRegistry.JobKind -> list (string * json) -> bool)
  (task_id_of : positive -> string) (p : Api TaskRef TaskRef) (req : Request) :
  is_status_request (Http req) = false ->
  run_api p [] = ([req], None) ->
  (forall answer later, run_api p (answer :: later) = ([req], Some answer)) ->
  returns_registered_job (Result := Result) well_formed task_id_of p req.
Proof.
  intros Hreq Hwait Hans. split; [exact Hreq|]. split; [exact Hwait|].
  split; [exact Hans|]. intros kind now reg.
  unfold answer_submission, JobRegistry.Submit.
  destruct (well_formed kind (body req)).
  - split; [apply Hans|]. eexists. eexists. split; [reflexivity|].
    split; [apply not_elem_of_dom, is_fresh|].
    split; [apply lookup_insert_eq|]. repeat split.
  - split; [apply Hans | reflexivity].
Qed.

#[local] Ltac submission_tac :=
  apply answered_from_Submit;
  [reflexivity | reflexivity | intros [d|err] rest; reflexivity].

(** C8: each Submit operation of ApiService sends one POST, to its own
    address and with its own body, and no status request; its promise
    settles with the answer to that POST as soon as the answer is there,
    whatever follows.  When the back end answers from [Submit] of the
    registry, what the operation returns is the id of the job just created,
    which is then registered as PENDING, neither started nor completed and
    without a result; a submission that is rejected has created no job.  In
    the hooks every status request comes after the submission has returned
    and the first [setTimeout(pollTask, 1000)] was set, and asks for the task
    id that was returned; none is made when the submission is rejected. *)
Theorem submit_returns_before_polling {Result : Type}
  (well_formed : JobRegistry.JobKind -> list (string * json) -> bool)
  (task_id_of : positive -> string) :
  (forall emailId userId priority,
      returns_registered_job (Result := Result) well_formed task_id_of
        (submitEmailAnalysis emailId userId priority)
        {| method := POST; url := "/tasks/analysis/email";
           body := [("email_id", JStr emailId); ("user_id", JStr userId);
                    ("priority", JStr (default "normal" priority))] |})
  /\ (forall emailId userId generationOptions,
         returns_registered_job (Result := Result) well_formed task_id_of
           (submitResponseGeneration emailId userId generationOptions)
           {| method := POST; url := "/tasks/generation/response";
              body := [("email_id", JStr emailId); ("user_id", JStr userId)]
                      ++ match generationOptions with
                         | Some options => [("generation_options", options)]
                         | None => []
                         end |})
  /\ (forall emailIds userId updateExisting,
         returns_registered_job (Result := Result) well_formed task_id_of
           (submitVectorization emailIds userId updateExisting)
           {| method := POST; url := "/tasks/vectorization/emails";
              body := [("email_ids", JArr (map JStr emailIds));
                       ("user_id", JStr userId);
                       ("update_existing",
                        JBool (default false updateExisting))] |})
  /\ (forall userId,
         returns_registered_job (Result := Result) well_formed task_id_of
           (submitProfileUpdate userId)
           {| method := POST; url := "/tasks/profile/update";
              body := [("user_id", JStr userId)] |})
  /\ (forall emailId options,
         returns_registered_job (Result := Result) well_formed task_id_of
           (generateResponse emailId options)
           (generateResponse_request emailId options)
         /\ method (generateResponse_request emailId options) = POST
         /\ url (generateResponse_request emailId options) = "/responses/generate")
  /\ (forall emailId options answer server,
         let run := useGenerateResponse emailId options answer server in
         match answer with
         | Resolved data =>
             exists before,
               fst run = before ++ SetTimeout 1000
                           :: fst (pollTask (ref_task_id data)
                                     useGenerateResponse_handle server)
               /\ polls_made before = 0
               /\ head before = Some (Http (generateResponse_request emailId options))
         | Rejected _ => polls_made (fst run) = 0 /\ snd run = Idle
         end)
  /\ (forall emailId userId priority answer server,
         let run := useAnalyzeEmail emailId userId priority answer server in
         match answer with
         | Resolved data =>
             exists before,
               fst run = before ++ SetTimeout 1000
                           :: fst (pollTask (ref_task_id data)
                                     (useAnalyzeEmail_handle emailId) server)
               /\ polls_made before = 0
               /\ head before
                  = Some (Http {| method := POST; url := "/tasks/analysis/email";
                                  body := [("email_id", JStr emailId);
                                           ("user_id", JStr userId);
                                           ("priority",
                                            JStr (default "normal" priority))] |})
         | Rejected _ => polls_made (fst run) = 0 /\ snd run = Idle
         end).
Proof.
  split; [intros; submission_tac|].
  split; [intros ? ? [options|]; submission_tac|].
  split; [intros; submission_tac|].
  split; [intros; submission_tac|].
  split; [intros; split; [submission_tac | split; reflexivity]|].
  split.
  - intros emailId options [data|err] server run; unfold run.
    + rewrite useGenerateResponse_resolved. cbn [fst].
      eexists (Http _ :: addNotification _).
      split; [reflexivity|]. split; reflexivity.
    + split; reflexivity.
  - intros emailId userId priority [data|err] server run; unfold run.
    + rewrite useAnalyzeEmail_resolved. cbn [fst].
      eexists (Http _ :: addNotification _).
      split; [reflexivity|]. split; reflexivity.
    + split; reflexivity.
Qed.

(** A back end that accepts every body and numbers its jobs: the analysis
    of an email is answered with the id of a job that is PENDING. *)
Example submitted_job_is_pending :
  let req := {| method := POST; url := "/tasks/analysis/email";
                body := [("email_id", JStr "mail-1"); ("user_id", JStr "u-1");
                         ("priority", JStr "normal")] |} in
  let '(reg, answer) :=
    answer_submission (Result := string) (fun _ _ => true) pretty
      JobRegistry.Analyze req 100%Z ∅ in
  answer = Resolved {| ref_task_id := "1" |}
  /\ JobRegistry.job_state <$> reg !! 1%positive = Some JobRegistry.PENDING
  /\ run_api (submitEmailAnalysis "mail-1" "u-1" None) [answer]
     = ([req], Some answer).
Proof. vm_compute. repeat split. Qed.

End Polling.

(** * Properties of the arithmetic of doubles *)

Section Doubles.
Import SpecFloat.
Open Scope Z_scope.

Lemma digits2_pos_bounds (p : positive) :
  2 ^ (Zpos (digits2_pos p) - 1) <= Zpos p < 2 ^ Zpos (digits2_pos p).
Proof.
  induction p as [p IH|p IH|]; cbn [digits2_pos].
  - rewrite Pos2Z.inj_succ.
    replace (Z.succ (Zpos (digits2_pos p)) - 1) with (Z.succ (Zpos (digits2_pos p) - 1)) by lia.
    rewrite !Z.pow_succ_r by lia. lia.
  - rewrite Pos2Z.inj_succ.
    replace (Z.succ (Zpos (digits2_pos p)) - 1) with (Z.succ (Zpos (digits2_pos p) - 1)) by lia.
    rewrite !Z.pow_succ_r by lia. lia.
  - cbn. lia.
Qed.

Lemma fexp_eq (e : Z) : fexp 53 1024 e = Z.max (e - 53) (-1074).
Proof. reflexivity. Qed.

Lemma pow2_pos (k : Z) : 0 <= k -> 0 < 2 ^ k.
Proof. intros H. apply Z.pow_pos_nonneg; lia. Qed.

Lemma pow2_split (a b : Z) : 0 <= a -> 0 <= b -> 2 ^ (a + b) = 2 ^ a * 2 ^ b.
Proof. intros Ha Hb. apply Z.pow_add_r; assumption. Qed.

Lemma shr_1_shifted l m k r :
  0 <= m -> 0 <= k -> shifted l m k r -> shifted l m (k + 1) (shr_1 r).
Proof.
  intros Hm Hk [Hq Hex]. destruct r as [q rb sb]. cbn [shr_m shr_r shr_s] in *.
  assert (Hp : 0 < 2 ^ k) by (apply pow2_pos; lia).
  assert (Hq0 : 0 <= q) by (subst q; apply Z.div_pos; lia).
  assert (Hdiv : m / 2 ^ (k + 1) = q / 2).
  { rewrite pow2_split by lia. change (2 ^ 1) with 2.
    rewrite <- Z.div_div by lia. subst q. reflexivity. }
  assert (Hmod : inexact l = false -> m mod 2 ^ (k + 1) = 0 ->
                 q mod 2 = 0 /\ rb = false /\ sb = false).
  { intros Hl H0. rewrite pow2_split in H0 by lia. change (2 ^ 1) with 2 in H0.
    rewrite Z.rem_mul_r in H0 by lia. rewrite <- Hq in H0.
    pose proof (Z.mod_pos_bound m (2 ^ k) Hp) as Hb1.
    pose proof (Z.mod_pos_bound q 2 ltac:(lia)) as Hb2.
    assert (Hz : m mod 2 ^ k = 0) by nia.
    split; [nia|]. apply Hex; assumption. }
  unfold shifted, shr_1. rewrite Hdiv.
  destruct q as [|[q'|q'|]|q']; cbn [shr_m shr_r shr_s]; try lia.
  - split; [reflexivity|]. intros Hl H0. destruct (Hmod Hl H0) as (_ & -> & ->). auto.
  - split.
    + rewrite Pos2Z.inj_xI. apply Z.div_unique with 1; lia.
    + intros Hl H0. destruct (Hmod Hl H0) as (Hev & _). rewrite Pos2Z.inj_xI in Hev.
      exfalso. rewrite Z.add_comm, Z.mul_comm, Z.mod_add in Hev by lia.
      discriminate Hev.
  - split.
    + rewrite Pos2Z.inj_xO. apply Z.div_unique with 0; lia.
    + intros Hl H0. destruct (Hmod Hl H0) as (_ & -> & ->). auto.
  - split; [reflexivity|]. intros Hl H0. destruct (Hmod Hl H0) as (Hev & _).
    discriminate Hev.
Qed.

Lemma iter_pos_shifted l m (n : positive) : forall k r,
  0 <= m -> 0 <= k -> shifted l m k r ->
  shifted l m (k + Zpos n) (iter_pos shr_1 n r).
Proof.
  induction n as [n IH|n IH|]; intros k r Hm Hk Hs; cbn [iter_pos].
  - replace (k + Zpos n~1) with (((k + 1) + Zpos n) + Zpos n) by lia.
    apply IH; [lia|lia|]. apply IH; [lia|lia|]. apply shr_1_shifted; assumption.
  - replace (k + Zpos n~0) with ((k + Zpos n) + Zpos n) by lia.
    apply IH; [lia|lia|]. apply IH; assumption.
  - apply shr_1_shifted; assumption.
Qed.

(** [shr_fexp]: a number [k] of right shifts, none when the exponent is
    already the one of the format. *)
Lemma shr_fexp_shifted (m e : Z) (l : location) :
  0 <= m ->
  exists k, 0 <= k
    /\ snd (shr_fexp 53 1024 m e l) = e + k
    /\ shifted l m k (fst (shr_fexp 53 1024 m e l))
    /\ (k = 0 \/ e + k = Z.max (Zdigits2 m + e - 53) (-1074)).
Proof.
  intros Hm. unfold shr_fexp. rewrite fexp_eq.
  set (n := Z.max (Zdigits2 m + e - 53) (-1074) - e).
  assert (Hn : e + n = Z.max (Zdigits2 m + e - 53) (-1074)) by (unfold n; lia).
  clearbody n. unfold shr.
  assert (H0 : shifted l m 0 (shr_record_of_loc m l)).
  { split.
    - rewrite Z.pow_0_r, Z.div_1_r. destruct l as [|[| |]]; reflexivity.
    - intros Hl _. destruct l; [auto | discriminate Hl]. }
  destruct n as [|p|p]; cbn [fst snd].
  - exists 0. split; [lia|]. split; [lia|]. split; [exact H0 | left; reflexivity].
  - exists (Zpos p). split; [lia|]. split; [reflexivity|]. split; [|right; exact Hn].
    apply (iter_pos_shifted l m p 0); [exact Hm|lia|exact H0].
  - exists 0. split; [lia|]. split; [lia|]. split; [exact H0 | left; reflexivity].
Qed.

Lemma round_nearest_even_cases (r : shr_record) :
  round_nearest_even (shr_m r) (loc_of_shr_record r) = shr_m r
  \/ (round_nearest_even (shr_m r) (loc_of_shr_record r) = shr_m r + 1
      /\ (shr_r r = true \/ shr_s r = true)).
Proof.
  destruct r as [q [|] [|]]; cbn; auto.
  destruct (IntDef.Z.even q); auto.
Qed.

Lemma Zdigits2_bound (m c : Z) :
  0 <= c -> 0 <= m < 2 ^ c -> Zdigits2 m <= c.
Proof.
  intros Hc [Hm Hlt]. destruct m as [|p|p]; cbn [Zdigits2]; try lia.
  destruct (digits2_pos_bounds p) as [Hlo _].
  assert (H : 2 ^ (Zpos (digits2_pos p) - 1) < 2 ^ c) by lia.
  apply Z.pow_lt_mono_r_iff in H; lia.
Qed.

(** Rounding does not pass an integer: a value that is not negative and at
    most [b], an integer below [2 ^ c], rounds to a double that is at most
    [b].  The value lies at the mantissa [m] or, when the location says
    so, above it. *)
Lemma binary_round_aux_at_most (m E b c : Z) (l : location) :
  0 <= m -> 0 <= c <= 53 -> 0 < b < 2 ^ c -> E <= c - 53 ->
  m <= b * 2 ^ (- E) ->
  (inexact l = true -> m < b * 2 ^ (- E)) ->
  at_most b c (binary_round_aux 53 1024 false m E l).
Proof.
  intros Hm0 Hc Hb HE HP Hstrict. unfold binary_round_aux.
  destruct (shr_fexp_shifted m E l Hm0) as (k & Hk & He' & [Hq Hex] & Hfe).
  destruct (shr_fexp 53 1024 m E l) as [r e']. cbn [fst snd] in *.
  subst e'.
  pose proof (pow2_pos k Hk) as H2k.
  pose proof (pow2_pos c ltac:(lia)) as H2c.
  pose proof (pow2_pos (- E) ltac:(lia)) as H2E.
  assert (He1 : E + k <= c - 53).
  { destruct Hfe as [-> | Hfe]; [lia|]. rewrite Hfe.
    assert (Hd : Zdigits2 m <= c + - E); [|lia].
    apply Zdigits2_bound; [lia|]. split; [lia|].
    rewrite pow2_split by lia. nia. }
  pose proof (pow2_pos (- (E + k)) ltac:(lia)) as H2e.
  assert (Hsplit : 2 ^ (- E) = 2 ^ (- (E + k)) * 2 ^ k).
  { rewrite <- pow2_split by lia. f_equal. lia. }
  set (m1 := round_nearest_even (shr_m r) (loc_of_shr_record r)).
  assert (Hm1 : 0 <= m1 <= b * 2 ^ (- (E + k))).
  { pose proof (Z.div_pos m (2 ^ k) ltac:(lia) H2k) as Hq0.
    destruct (round_nearest_even_cases r) as [Hr | [Hr Hin]];
      unfold m1; rewrite Hr, Hq.
    - split; [lia|]. apply Z.div_le_upper_bound; [lia|]. nia.
    - split; [lia|].
      assert (Hlt : m < b * 2 ^ (- (E + k)) * 2 ^ k).
      { destruct (inexact l) eqn:Hl.
        - specialize (Hstrict eq_refl). rewrite Hsplit, Z.mul_assoc in Hstrict.
          exact Hstrict.
        - assert (Hne : m mod 2 ^ k <> 0).
          { intros H0. destruct (Hex eq_refl H0) as [H1 H2].
            destruct Hin; congruence. }
          assert (Hneq : m <> b * 2 ^ (- (E + k)) * 2 ^ k).
          { intros Heq. apply Hne. rewrite Heq. apply Z.mod_mul. lia. }
          rewrite Hsplit, Z.mul_assoc in HP. lia. }
      assert (Hlt' : m / 2 ^ k < b * 2 ^ (- (E + k))); [|lia].
      apply Z.div_lt_upper_bound; [lia|]. lia. }
  fold m1.
  destruct (shr_fexp_shifted m1 (E + k) loc_Exact (proj1 Hm1))
    as (k2 & Hk2 & He2 & [Hq2 _] & Hfe2).
  destruct (shr_fexp 53 1024 m1 (E + k) loc_Exact) as [r2 e2]. cbn [fst snd] in *.
  subst e2.
  pose proof (pow2_pos k2 Hk2) as H2k2.
  assert (He3 : E + k + k2 <= c - 53).
  { destruct Hfe2 as [-> | Hfe2]; [lia|]. rewrite Hfe2.
    assert (Hd : Zdigits2 m1 <= c + - (E + k)); [|lia].
    apply Zdigits2_bound; [lia|]. split; [lia|].
    rewrite pow2_split by lia. nia. }
  pose proof (pow2_pos (- (E + k + k2)) ltac:(lia)) as H2e3.
  assert (Hsplit2 : 2 ^ (- (E + k)) = 2 ^ (- (E + k + k2)) * 2 ^ k2).
  { rewrite <- pow2_split by lia. f_equal. lia. }
  assert (Hm2 : 0 <= m1 / 2 ^ k2 <= b * 2 ^ (- (E + k + k2))).
  { split; [apply Z.div_pos; lia|]. apply Z.div_le_upper_bound; [lia|]. nia. }
  rewrite Hq2. destruct (m1 / 2 ^ k2) as [|m2|m2]; [exact I| |lia].
  destruct (E + k + k2 <=? 1024 - 53) eqn:Hle; [|apply Z.leb_gt in Hle; lia].
  split; [exact He3 | apply Hm2].
Qed.

Lemma at_most_weaken (a b c : Z) (x : number) :
  c <= 53 -> a <= b -> at_most a c x -> at_most b c x.
Proof.
  intros Hc Hab. destruct x as [[|]| | |[|] m e]; cbn [at_most]; auto.
  intros [He Hm]. split; [exact He|].
  pose proof (pow2_pos (- e) ltac:(lia)). nia.
Qed.

Lemma iter_xO (m d : positive) :
  Zpos (Pos.iter xO m d) = Zpos m * 2 ^ Zpos d.
Proof.
  induction d as [|d IH] using Pos.peano_ind.
  - cbn. lia.
  - rewrite Pos.iter_succ, Pos2Z.inj_xO, IH, Pos2Z.inj_succ, Z.pow_succ_r by lia.
    lia.
Qed.

(** [shl_align] lowers the exponent to the one asked for, when that is
    lower, and keeps the value. *)
Lemma shl_align_spec (mx : positive) (ex t : Z) :
  snd (shl_align mx ex t) = Z.min ex t
  /\ Zpos (fst (shl_align mx ex t))
     = Zpos mx * 2 ^ (ex - snd (shl_align mx ex t)).
Proof.
  unfold shl_align. destruct (t - ex) as [|d|d] eqn:Hd; cbn [fst snd].
  - split; [lia|]. rewrite Z.sub_diag. cbn. lia.
  - split; [lia|]. rewrite Z.sub_diag. cbn. lia.
  - split; [lia|]. change (PosDef.Pos.iter xO mx d) with (Pos.iter xO mx d).
    rewrite iter_xO. f_equal. f_equal. lia.
Qed.

Lemma digits2_pos_unique (m : positive) (d : Z) :
  2 ^ (d - 1) <= Zpos m < 2 ^ d -> Zpos (digits2_pos m) = d.
Proof.
  intros [Hlo Hhi]. destruct (digits2_pos_bounds m) as [Hlo' Hhi'].
  assert (0 < d).
  { destruct (Z.lt_ge_cases 0 d) as [|Hd]; [assumption|]. exfalso.
    destruct (Z.eq_dec d 0) as [->|Hne]; [cbn in Hhi; lia|].
    rewrite Z.pow_neg_r in Hhi by lia. lia. }
  assert (H1 : 2 ^ (d - 1) < 2 ^ Zpos (digits2_pos m)) by lia.
  assert (H2 : 2 ^ (Zpos (digits2_pos m) - 1) < 2 ^ d) by lia.
  apply Z.pow_lt_mono_r_iff in H1; [|lia|lia].
  apply Z.pow_lt_mono_r_iff in H2; [|lia|lia].
  lia.
Qed.

(** A mantissa of 53 digits at an exponent of the format is kept as it
    is. *)
Lemma binary_round_aux_canonical (s : bool) (m : positive) (e : Z) :
  2 ^ 52 <= Zpos m < 2 ^ 53 -> -1074 <= e <= 971 ->
  binary_round_aux 53 1024 s (Zpos m) e loc_Exact = S754_finite s m e.
Proof.
  intros Hm He. unfold binary_round_aux, shr_fexp. rewrite fexp_eq.
  assert (Hd : Zdigits2 (Zpos m) = 53).
  { cbn [Zdigits2]. apply digits2_pos_unique. exact Hm. }
  rewrite Hd. replace (Z.max (53 + e - 53) (-1074) - e) with 0 by lia.
  cbn [shr shr_record_of_loc shr_m loc_of_shr_record round_nearest_even].
  rewrite fexp_eq, Hd. replace (Z.max (53 + e - 53) (-1074) - e) with 0 by lia.
  cbn [shr shr_record_of_loc shr_m].
  destruct (Z.leb_spec e (1024 - 53)); [reflexivity | lia].
Qed.

(** The double of a positive integer below 2^53 is that integer. *)
Lemma number_of_Z_exact (n : Z) :
  0 < n < 2 ^ 53 ->
  exists m e, number_of_Z n = S754_finite false m e
              /\ -52 <= e <= 0 /\ Zpos m = n * 2 ^ (- e).
Proof.
  intros Hn. destruct n as [|p|p]; try lia.
  unfold number_of_Z, binary_normalize, binary_round. rewrite fexp_eq.
  destruct (digits2_pos_bounds p) as [Hlo Hhi].
  set (d := Zpos (digits2_pos p)) in *.
  assert (Hd : 1 <= d <= 53).
  { split; [unfold d; lia|].
    assert (H : 2 ^ (d - 1) < 2 ^ 53) by lia.
    apply Z.pow_lt_mono_r_iff in H; lia. }
  replace (Z.max (d + 0 - 53) (-1074)) with (d - 53) by lia.
  destruct (shl_align_spec p 0 (d - 53)) as [He Hmz].
  destruct (shl_align p 0 (d - 53)) as [mz ez]. cbn [fst snd] in *.
  replace (Z.min 0 (d - 53)) with (d - 53) in He by lia. subst ez.
  replace (0 - (d - 53)) with (53 - d) in Hmz by lia.
  pose proof (pow2_pos (53 - d) ltac:(lia)) as Hp.
  assert (Hs1 : 2 ^ 52 = 2 ^ (d - 1) * 2 ^ (53 - d)).
  { rewrite <- pow2_split by lia. f_equal. lia. }
  assert (Hs2 : 2 ^ 53 = 2 ^ d * 2 ^ (53 - d)).
  { rewrite <- pow2_split by lia. f_equal. lia. }
  rewrite binary_round_aux_canonical; [| rewrite Hmz, Hs1, Hs2; nia | lia].
  exists mz, (d - 53). split; [reflexivity|]. split; [lia|].
  rewrite Hmz. f_equal. f_equal. lia.
Qed.

(** The sum of two doubles that are at most [a] and [b] is at most
    [a + b]. *)
Lemma js_add_at_most (a b : Z) (x y : number) :
  0 <= a -> 0 <= b -> 0 < a + b < 2 ^ 53 ->
  at_most a 53 x -> at_most b 53 y -> at_most (a + b) 53 (js_add x y).
Proof.
  intros Ha Hb Hab Hx Hy.
  destruct x as [[|]| | |[|] mx ex]; cbn [at_most] in Hx; try contradiction;
    destruct y as [[|]| | |[|] my ey]; cbn [at_most] in Hy; try contradiction.
  - exact I.
  - apply (at_most_weaken b); [lia|lia|exact Hy].
  - apply (at_most_weaken a); [lia|lia|exact Hx].
  - destruct Hx as [Hex Hmx], Hy as [Hey Hmy].
    unfold js_add, SFadd. cbv zeta. cbn [cond_Zopp].
    change (IntDef.Z.min ex ey) with (Z.min ex ey).
    set (ez := Z.min ex ey).
    destruct (shl_align_spec mx ex ez) as [Hsx Hvx].
    destruct (shl_align_spec my ey ez) as [Hsy Hvy].
    rewrite Hsx in Hvx. rewrite Hsy in Hvy.
    replace (Z.min ex ez) with ez in Hvx by (unfold ez; lia).
    replace (Z.min ey ez) with ez in Hvy by (unfold ez; lia).
    rewrite Hvx, Hvy.
    pose proof (pow2_pos (ex - ez) ltac:(unfold ez; lia)) as Hpx.
    pose proof (pow2_pos (ey - ez) ltac:(unfold ez; lia)) as Hpy.
    pose proof (pow2_pos (- ex) ltac:(lia)) as Hnx.
    pose proof (pow2_pos (- ey) ltac:(lia)) as Hny.
    assert (Hez : ez <= 0) by (unfold ez; lia).
    assert (Hsx' : 2 ^ (- ez) = 2 ^ (- ex) * 2 ^ (ex - ez)).
    { rewrite <- pow2_split by (unfold ez; lia). f_equal. lia. }
    assert (Hsy' : 2 ^ (- ez) = 2 ^ (- ey) * 2 ^ (ey - ez)).
    { rewrite <- pow2_split by (unfold ez; lia). f_equal. lia. }
    set (M := Zpos mx * 2 ^ (ex - ez) + Zpos my * 2 ^ (ey - ez)).
    assert (HM : 0 < M <= (a + b) * 2 ^ (- ez)).
    { unfold M. split; [nia|].
      rewrite Z.mul_add_distr_r. rewrite Hsx' at 1. rewrite Hsy'. nia. }
    destruct M as [|pM|pM] eqn:HMe; try lia.
    unfold binary_normalize, binary_round.
    set (t := fexp 53 1024 (Zpos (digits2_pos pM) + ez)).
    destruct (shl_align_spec pM ez t) as [Hst Hvt].
    destruct (shl_align pM ez t) as [mz ez']. cbn [fst snd] in *.
    assert (Hez' : ez' <= ez) by lia.
    pose proof (pow2_pos (ez - ez') ltac:(lia)) as Hpz.
    assert (Hsz : 2 ^ (- ez') = 2 ^ (- ez) * 2 ^ (ez - ez')).
    { rewrite <- pow2_split by lia. f_equal. lia. }
    apply binary_round_aux_at_most; try lia.
    + rewrite Hvt, Hsz. nia.
    + discriminate.
Qed.

Lemma new_location_exact (m2 r : Z) :
  inexact (new_location m2 r) = true -> r <> 0.
Proof.
  unfold new_location, new_location_even, new_location_odd.
  intros H ->. destruct (IntDef.Z.even m2); discriminate H.
Qed.

(** The quotient of a double that is at most [n] by the double of [n] is
    at most 1. *)
Lemma js_div_at_most (n : Z) (x : number) :
  0 < n < 2 ^ 53 -> at_most n 53 x -> at_most 1 1 (js_div x (number_of_Z n)).
Proof.
  intros Hn Hx. destruct (number_of_Z_exact n Hn) as (m2 & e2 & -> & He2 & Hm2).
  destruct x as [[|]| | |[|] m1 e1]; cbn [at_most] in Hx; try contradiction.
  - exact I.
  - destruct Hx as [He1 Hm1]. unfold js_div, SFdiv, SFdiv_core_binary.
    cbv zeta. cbn [xorb Zdigits2]. rewrite fexp_eq.
    change IntDef.Z.min with Z.min. change IntDef.Z.shiftl with Z.shiftl.
    change IntDef.Z.div_eucl with Z.div_eucl.
    destruct (digits2_pos_bounds m1) as [Hl1 Hh1].
    destruct (digits2_pos_bounds m2) as [Hl2 Hh2].
    set (d1 := Zpos (digits2_pos m1)) in *.
    set (d2 := Zpos (digits2_pos m2)) in *.
    pose proof (pow2_pos (- e1) ltac:(lia)) as Hp1.
    pose proof (pow2_pos (- e2) ltac:(lia)) as Hp2.
    (* the value of the dividend is at most the value of the divisor *)
    assert (Hle : Zpos m1 * 2 ^ (- e2) <= Zpos m2 * 2 ^ (- e1)).
    { rewrite Hm2. nia. }
    assert (Hd : d1 + e1 <= d2 + e2).
    { assert (H : 2 ^ (d1 - 1 + - e2) < 2 ^ (d2 + - e1)).
      { rewrite !pow2_split by lia. nia. }
      apply Z.pow_lt_mono_r_iff in H; lia. }
    set (e' := Z.min (Z.max (d1 + e1 - (d2 + e2) - 53) (-1074)) (e1 - e2)).
    assert (He' : e' <= -53) by (unfold e'; lia).
    assert (Hs : 0 <= e1 - e2 - e') by (unfold e'; lia).
    set (m' := match e1 - e2 - e' with
               | 0 => Zpos m1
               | Zpos _ => Z.shiftl (Zpos m1) (e1 - e2 - e')
               | Zneg _ => 0
               end).
    assert (Hm' : m' = Zpos m1 * 2 ^ (e1 - e2 - e')).
    { unfold m'. destruct (e1 - e2 - e') as [|p|p] eqn:Hse; try lia.
      apply Z.shiftl_mul_pow2. lia. }
    clearbody m'.
    pose proof (Z.div_eucl_eq m' (Zpos m2) ltac:(lia)) as Hdiv.
    pose proof (Z.mod_pos_bound m' (Zpos m2) ltac:(lia)) as Hmod.
    unfold Z.modulo in Hmod.
    destruct (Z.div_eucl m' (Zpos m2)) as [q r].
    pose proof (pow2_pos (e1 - e2 - e') Hs) as Hps.
    pose proof (pow2_pos (- e') ltac:(lia)) as Hpe.
    (* m' <= 2^(-e') * m2 *)
    assert (Hbound : m' <= 2 ^ (- e') * Zpos m2).
    { assert (H : m' * 2 ^ (- e1) <= 2 ^ (- e') * Zpos m2 * 2 ^ (- e1)).
      { rewrite Hm'.
        assert (Hx1 : 2 ^ (e1 - e2 - e') * 2 ^ (- e1) = 2 ^ (- e2) * 2 ^ (- e')).
        { rewrite <- !pow2_split by lia. f_equal. lia. }
        nia. }
      nia. }
    assert (Hq : 0 <= q <= 2 ^ (- e')) by nia.
    apply binary_round_aux_at_most; try lia.
    intros Hin. apply new_location_exact in Hin. nia.
Qed.

Lemma number_of_Z_100 : number_of_Z 100 = S754_finite false 7036874417766400 (-46).
Proof. reflexivity. Qed.

Lemma in_unit_interval_finite s m e :
  in_unit_interval (S754_finite s m e) = true ->
  s = false /\ e <= 0 /\ Zpos m <= 2 ^ (- e).
Proof.
  unfold in_unit_interval, value. cbv zeta.
  intros H. apply andb_true_iff in H as [H0 H1].
  apply Qle_bool_iff in H0, H1.
  destruct (Z.leb_spec 0 e) as [He|He].
  - pose proof (pow2_pos e He) as Hp.
    unfold Qle in H0, H1. cbn in H0, H1.
    destruct s; cbn [cond_Zopp] in *; [nia|].
    split; [reflexivity|]. assert (e = 0).
    { destruct (Z.eq_dec e 0) as [|Hne]; [assumption|].
      assert (2 ^ 1 <= 2 ^ e) by (apply Z.pow_le_mono_r; lia).
      change (2 ^ 1) with 2 in *. nia. }
    subst e. cbn in *. lia.
  - pose proof (pow2_pos (- e) ltac:(lia)) as Hp.
    unfold Qle in H0, H1. cbn [Qnum Qden] in H0, H1.
    rewrite Z2Pos.id in H1 by lia.
    destruct s; cbn [cond_Zopp] in *; [lia|].
    split; [reflexivity|]. split; lia.
Qed.

(** The product of a score in [0,1] and 100 is at most 100. *)
Lemma times_hundred_at_most (m : positive) (e : Z) :
  e <= 0 -> Zpos m <= 2 ^ (- e) ->
  at_most 100 7 (js_mul (S754_finite false m e) (number_of_Z 100)).
Proof.
  intros He Hm. rewrite number_of_Z_100. unfold js_mul, SFmul. cbn [xorb].
  apply binary_round_aux_at_most; try lia; try discriminate.
  pose proof (pow2_pos (- e) ltac:(lia)) as Hp.
  replace (- (e + -46)) with (- e + 46) by lia.
  rewrite pow2_split by lia. rewrite Pos2Z.inj_mul.
  change (2 ^ 46) with 70368744177664. lia.
Qed.

Lemma Math_round_at_most (x : number) :
  at_most 100 7 x ->
  exists k, 0 <= k <= 100 /\ Math_round x = number_of_Z k.
Proof.
  destruct x as [[|]|s|  |[|] m e]; cbn [at_most]; try contradiction.
  - intros _. exists 0. split; [lia | reflexivity].
  - intros [He Hm]. unfold Math_round.
    destruct (Z.leb_spec 0 e) as [H0|H0]; [lia|]. cbn [cond_Zopp].
    pose proof (pow2_pos (- e - 1) ltac:(lia)) as Hp.
    assert (Hs : 2 ^ (- e) = 2 * 2 ^ (- e - 1)).
    { replace (- e) with (1 + (- e - 1)) at 1 by lia.
      rewrite pow2_split by lia. reflexivity. }
    set (r := (Zpos m + 2 ^ (- e - 1)) / 2 ^ (- e)).
    assert (Hr : 0 <= r <= 100).
    { unfold r. split; [apply Z.div_pos; lia|].
      assert ((Zpos m + 2 ^ (- e - 1)) / 2 ^ (- e) < 101); [|lia].
      apply Z.div_lt_upper_bound; lia. }
    destruct (Z.eqb_spec r 0) as [Hz|Hz].
    + exists 0. split; [lia | reflexivity].
    + exists r. split; [exact Hr | reflexivity].
Qed.


(** [Math.round] gives the integer nearest to the value of a finite
    double, halves rounded up: the double itself when it is that integer,
    a zero when the integer is 0, the double of the integer otherwise. *)
Lemma Math_round_nearest (x : number) (v : Q) :
  value x = Some v ->
  exists k : Z,
    (v - (1 # 2) < inject_Z k /\ inject_Z k <= v + (1 # 2))%Q
    /\ ((v == inject_Z k)%Q /\ Math_round x = x
        \/ k = 0 /\ (exists s, Math_round x = S754_zero s)
        \/ Math_round x = number_of_Z k).
Proof.
  destruct x as [s0|s0| |s m e]; cbn [value]; try discriminate.
  - intros [= <-]. exists 0.
    split; [split; [reflexivity | discriminate]|].
    left. split; reflexivity.
  - cbv zeta. intros [= <-]. unfold Math_round.
    destruct (Z.leb_spec 0 e) as [He|He].
    + exists (cond_Zopp s (Zpos m) * 2 ^ e). split.
      * set (q := inject_Z (cond_Zopp s (Zpos m) * 2 ^ e)). split; lra.
      * left. split; reflexivity.
    + cbv zeta. set (n := cond_Zopp s (Zpos m)).
      pose proof (pow2_pos (- e - 1) ltac:(lia)) as Hp.
      assert (Hs : 2 ^ (- e) = 2 * 2 ^ (- e - 1)).
      { replace (- e) with (1 + (- e - 1)) at 1 by lia.
        rewrite pow2_split by lia. reflexivity. }
      set (r := (n + 2 ^ (- e - 1)) / 2 ^ (- e)).
      pose proof (Z.div_mod (n + 2 ^ (- e - 1)) (2 ^ (- e)) ltac:(lia)) as Hdm.
      pose proof (Z.mod_pos_bound (n + 2 ^ (- e - 1)) (2 ^ (- e)) ltac:(lia)) as Hmb.
      fold r in Hdm.
      exists r. split.
      * unfold Qlt, Qle, Qminus, Qplus, Qopp. cbn [Qnum Qden inject_Z].
        rewrite !Pos2Z.inj_mul, !Z2Pos.id by lia.
        split; nia.
      * destruct (Z.eqb_spec r 0) as [Hz|Hz].
        -- right. left. split; [exact Hz|]. eexists. reflexivity.
        -- right. right. reflexivity.
Qed.


(** A double in [0,1] is a zero or a positive double that is at most 1. *)
Lemma in_unit_interval_cases (x : number) :
  in_unit_interval x = true -> (exists s, x = S754_zero s) \/ at_most 1 53 x.
Proof.
  intros Hx. destruct x as [s| | |s m e]; try discriminate Hx.
  - left. exists s. reflexivity.
  - right. apply in_unit_interval_finite in Hx as (-> & He & Hm).
    cbn [at_most]. split; lia.
Qed.

Lemma at_most_in_unit_interval (x : number) :
  at_most 1 1 x -> in_unit_interval x = true.
Proof.
  destruct x as [[|]| | |[|] m e]; cbn [at_most]; try contradiction.
  - reflexivity.
  - intros [He Hm]. unfold in_unit_interval, value. cbv zeta. cbn [cond_Zopp].
    destruct (Z.leb_spec 0 e) as [H0|_]; [lia|].
    pose proof (pow2_pos (- e) ltac:(lia)) as Hp.
    apply andb_true_iff. split; apply Qle_bool_iff; unfold Qle;
      cbn [Qnum Qden]; rewrite ?Z2Pos.id by lia; lia.
Qed.

Lemma js_add_zero (a : Z) (x : number) (s : bool) :
  at_most a 53 x -> at_most a 53 (js_add x (S754_zero s)).
Proof.
  destruct x as [[|]| | |[|] m e]; cbn [at_most]; try contradiction.
  - intros _. destruct s; exact I.
  - intros H. exact H.
Qed.

Lemma number_of_Z_at_most (k b : Z) :
  0 <= k <= b -> b < 2 ^ 53 -> at_most b 53 (number_of_Z k).
Proof.
  intros Hk Hb. destruct (Z.eq_dec k 0) as [->|Hne]; [exact I|].
  destruct (number_of_Z_exact k ltac:(lia)) as (m & e & -> & He & Hm).
  cbn [at_most]. split; [lia|]. rewrite Hm.
  pose proof (pow2_pos (- e) ltac:(lia)). nia.
Qed.

(** [Math.round(x * 100) / 100] of a double in [0,1] is a double in [0,1],
    the quotient of a whole number of hundredths by 100. *)
Lemma hundredths_in_unit_interval (x : number) :
  at_most 1 1 x ->
  exists k, 0 <= k <= 100
    /\ Math_round (js_mul x (number_of_Z 100)) = number_of_Z k
    /\ in_unit_interval (js_div (number_of_Z k) (number_of_Z 100)) = true.
Proof.
  intros Hx.
  assert (Hp : at_most 100 7 (js_mul x (number_of_Z 100))).
  { destruct x as [[|]| | |[|] m e]; cbn [at_most] in Hx; try contradiction.
    - exact I.
    - destruct Hx as [He Hm]. apply times_hundred_at_most; lia. }
  destruct (Math_round_at_most _ Hp) as (k & Hk & Hr).
  exists k. split; [exact Hk|]. split; [exact Hr|].
  apply at_most_in_unit_interval, js_div_at_most; [cbn; lia|].
  apply number_of_Z_at_most; [lia | cbn; lia].
Qed.

End Doubles.

(** * Properties of the Dashboard and of the client statistics *)

Section Rendering.

Lemma or_number_eq (x : option Q) : (or_number x 0 == default 0 x)%Q.
Proof.
  destruct x as [v|]; simpl; [|reflexivity].
  destruct (Qeq_bool v 0) eqn:Hv; [|reflexivity].
  apply Qeq_bool_eq in Hv. symmetry. exact Hv.
Qed.

(** ** C5 *)





Example scored_response_percent :
  confidence_percent scored_response = number_of_Z 87.
Proof. vm_compute. reflexivity. Qed.

(** The score 0.285 is shown as 28: the double nearest to 0.285 times 100
    is the double just below 28.5. *)
Example near_tie_response_percent :
  confidence_progress near_tie_response
  = SpecFloat.S754_finite false 8022036836253695 (-48)
  /\ confidence_percent near_tie_response = number_of_Z 28.
Proof. vm_compute. split; reflexivity. Qed.

End Rendering.

Section Statistics.

Variable parseDate : string -> option Z.
Variable now_ms : Z.

(** ** C10 *)

Lemma sum_at_most (clients : list Client) : forall (acc : number) (i : Z),
  (0 <= i)%Z ->
  at_most i 53 acc ->
  (i + Z.of_nat (length clients) < 2 ^ 53)%Z ->
  Forall (fun client =>
            in_unit_interval
              (js_number (or_number (relationship_strength client) 0)) = true)
         clients ->
  at_most (i + Z.of_nat (length clients)) 53
    (fold_left (fun sum client =>
                  js_add sum
                    (js_number (or_number (relationship_strength client) 0)))
               clients acc).
Proof.
  induction clients as [|c cs IH]; intros acc i Hi Hacc Hlen Hall.
  - cbn [fold_left length]. rewrite Z.add_0_r. exact Hacc.
  - inversion Hall as [|? ? Hc Hcs]; subst.
    cbn [fold_left]. rewrite length_cons, Nat2Z.inj_succ in *.
    replace (i + Z.succ (Z.of_nat (length cs)))%Z
      with ((i + 1) + Z.of_nat (length cs))%Z by lia.
    apply IH; [lia | | lia | exact Hcs].
    destruct (in_unit_interval_cases _ Hc) as [[s0 ->] | Hone].
    + apply (at_most_weaken i); [lia | lia | apply js_add_zero, Hacc].
    + apply js_add_at_most; [lia | lia | lia | exact Hacc | exact Hone].
Qed.

(** C10, amended: [useClientStats] is total.  For the empty list it returns
    the all-zero record.  For a non-empty list the average is
    [Math.round(mean * 100) / 100] computed in doubles, where [mean] is the
    double sum of the strengths (null and 0 counting as 0) divided by the
    number of clients, which is at least 1; and [Math.round] gives the
    integer nearest to the value of the double [mean * 100], halves rounded
    up.  That double is itself rounded, so the result is not always the
    exact mean rounded to two decimal places; but for fewer than 2^53
    clients whose strengths lie in [0,1] it is the quotient by 100 of a
    whole number of hundredths between 0 and 100, and lies in [0,1]. *)
Theorem useClientStats_total (clients : list Client) :
  totalClients (useClientStats parseDate now_ms clients) = length clients
  /\ match clients with
     | [] => useClientStats parseDate now_ms clients = no_clients_stats
     | _ :: _ =>
         let sum :=
           fold_left (fun sum client =>
                        js_add sum
                          (js_number (or_number (relationship_strength client) 0)))
                     clients (number_of_Z 0) in
         let product :=
           js_mul (js_div sum (number_of_Z (Z.of_nat (length clients))))
                  (number_of_Z 100) in
         1 <= length clients
         /\ averageRelationshipStrength (useClientStats parseDate now_ms clients)
            = js_div (Math_round product) (number_of_Z 100)
         /\ forall v : Q,
              value product = Some v ->
              exists k : Z,
                (v - (1 # 2) < inject_Z k /\ inject_Z k <= v + (1 # 2))%Q
                /\ ((v == inject_Z k)%Q /\ Math_round product = product
                    \/ k = 0%Z
                       /\ (exists s, Math_round product = SpecFloat.S754_zero s)
                    \/ Math_round product = number_of_Z k)
     end
  /\ ((Z.of_nat (length clients) < 2 ^ 53)%Z ->
      Forall (fun client =>
                in_unit_interval
                  (js_number (or_number (relationship_strength client) 0)) = true)
             clients ->
      in_unit_interval
        (averageRelationshipStrength (useClientStats parseDate now_ms clients))
      = true
      /\ exists k : Z,
           (0 <= k <= 100)%Z
           /\ averageRelationshipStrength (useClientStats parseDate now_ms clients)
              = js_div (number_of_Z k) (number_of_Z 100)).
Proof.
  destruct clients as [|c cs].
  - split; [reflexivity|]. split; [reflexivity|]. intros _ _.
    split; [reflexivity|]. exists 0%Z. split; [lia | reflexivity].
  - split; [reflexivity|]. split.
    + cbv zeta. split; [cbn [length]; lia|]. split; [reflexivity|].
      intros v Hv. apply Math_round_nearest, Hv.
    + intros Hlen Hall.
      pose proof (sum_at_most (c :: cs) (number_of_Z 0) 0 ltac:(lia) I
                    ltac:(lia) Hall) as Hsum.
      rewrite Z.add_0_l in Hsum.
      apply js_div_at_most in Hsum;
        [|split; [rewrite length_cons, Nat2Z.inj_succ; lia | exact Hlen]].
      destruct (hundredths_in_unit_interval _ Hsum) as (k & Hk & Hr & Hu).
      cbn [useClientStats averageRelationshipStrength].
      rewrite Hr. split; [exact Hu|]. exists k. split; [exact Hk | reflexivity].
Qed.

Example useClientStats_empty :
  useClientStats parseDate now_ms [] = no_clients_stats.
Proof. reflexivity. Qed.

End Statistics.

Lemma useClientStats_total_witness :
  in_unit_interval
    (averageRelationshipStrength
       (useClientStats sample_parseDate 1736500000000%Z sample_clients))
  = true.
Proof.
  refine (proj1 (proj2 (proj2 (useClientStats_total sample_parseDate
                                 1736500000000%Z sample_clients)) _ _)).
  - vm_compute. reflexivity.
  - repeat constructor.
Defined.

(** C10, as stated, fails: for five clients with the strengths 0.5, 0.5,
    0.875, 0.5 and 0.5, all of them doubles, the mean is 0.575, which
    rounded to two decimal places (halves up, as [Math.round] rounds) is
    0.58; [useClientStats] returns 0.57, because the double nearest to the
    mean is below 0.575 and its product with 100 is the double just below
    57.5. *)
Lemma mean_at_a_tie_is_rounded_down :
  averageRelationshipStrength
    (useClientStats sample_parseDate 1736500000000%Z tie_clients)
  = js_number (57 # 100)
  /\ (mean_strength tie_clients == 575 # 1000)%Q
  /\ rounded_to_hundredths (mean_strength tie_clients) (58 # 100)
  /\ ~ rounded_to_hundredths (mean_strength tie_clients) (57 # 100)
  /\ js_mul (js_div (fold_left
                       (fun sum client =>
                          js_add sum
                            (js_number (or_number (relationship_strength client) 0)))
                       tie_clients (number_of_Z 0))
                    (number_of_Z 5))
            (number_of_Z 100)
     = SpecFloat.S754_finite false 8092405580431359 (-47).
Proof.
  split; [vm_compute; reflexivity|].
  assert (Hmean : (mean_strength tie_clients == 575 # 1000)%Q)
    by (vm_compute; reflexivity).
  split; [exact Hmean|]. split; [|split; [|vm_compute; reflexivity]].
  - exists 58%Z. rewrite Hmean. repeat split; vm_compute; congruence.
  - intros (n & Hn & Hlo & _). rewrite Hmean in Hlo.
    assert (n = 57%Z).
    { unfold Qeq in Hn. cbn in Hn. lia. }
    subst n. vm_compute in Hlo. discriminate Hlo.
Qed.


Example useClientStats_sample :
  let stats := useClientStats sample_parseDate 1736500000000%Z sample_clients in
  totalClients stats = 3
  /\ activeClients stats = 1
  /\ highPriorityClients stats = 1
  /\ averageRelationshipStrength stats = js_number (43 # 100)
  /\ topBusinessCategories stats
     = [{| category := "legal"; count := 2 |}; {| category := "retail"; count := 1 |}]
  /\ recentInteractions stats = 1.
Proof. vm_compute. repeat split. Qed.

Example Object_entries_order :
  Object_entries [("b", 1); ("10", 2); ("a", 3); ("2", 4); ("02", 5)]
  = [("2", 4); ("10", 2); ("b", 1); ("a", 3); ("02", 5)].
Proof. reflexivity. Qed.

(** * Properties of the job registry *)

Section RegistryProperties.

Import JobRegistry.

Context {Payload Result : Type} (well_formed : JobKind -> Payload -> bool).

#[local] Abbreviation Registry := (gmap positive (@Job Result)).

Lemma Submit_other kind payload now (reg : Registry) (id : positive) :
  is_Some (reg !! id) ->
  fst (Submit well_formed kind payload now reg) !! id = reg !! id.
Proof.
  intros Hid. unfold Submit. destruct (well_formed kind payload); [|reflexivity].
  cbn [fst]. apply lookup_insert_ne. intros Heq. subst id.
  apply elem_of_dom in Hid. exact (is_fresh _ Hid).
Qed.

Lemma call_other (reg : Registry) (c : Call) (id : positive) :
  is_Some (reg !! id) ->
  match c with
  | CallSubmit _ _ _ => True
  | CallCancel id' _ | CallStart id' _ | CallFinalize id' _ _ => id' <> id
  end ->
  call well_formed reg c !! id = reg !! id.
Proof.
  intros Hid Hne. destruct c as [kind payload now|id' now|id' now|id' outcome now];
    cbn [call].
  - apply Submit_other, Hid.
  - unfold Cancel. destruct (reg !! id') as [j'|]; [|reflexivity].
    destruct (job_state j'); cbn [fst]; try reflexivity;
      apply lookup_insert_ne, Hne.
  - unfold start. destruct (reg !! id') as [j'|]; [|reflexivity].
    destruct (job_state j'); try reflexivity; apply lookup_insert_ne, Hne.
  - unfold finalize. destruct (reg !! id') as [j'|]; [|reflexivity].
    destruct (job_state j'); try reflexivity.
    destruct (cancellation_flag j'); [apply lookup_insert_ne, Hne|].
    destruct outcome; apply lookup_insert_ne, Hne.
Qed.

Lemma cancellation_accepted_call (reg : Registry) (c : Call) (id : positive) :
  cancellation_accepted id reg ->
  cancellation_accepted id (call well_formed reg c).
Proof.
  intros (j & Hj & Hflag & Hstate).
  assert (Hsame : call well_formed reg c !! id = reg !! id
                  -> cancellation_accepted id (call well_formed reg c)).
  { intros Heq. exists j. rewrite Heq. auto. }
  destruct c as [kind payload now|id' now|id' now|id' outcome now].
  - apply Hsame, call_other; [rewrite Hj; eauto | exact I].
  - destruct (decide (id' = id)) as [->|Hne];
      [|apply Hsame, call_other; [rewrite Hj; eauto | exact Hne]].
    cbn [call]. unfold Cancel. rewrite Hj.
    destruct Hstate as [Hs|[Hs Hr]]; rewrite Hs; cbn [fst].
    + eexists. rewrite lookup_insert_eq. split; [reflexivity|].
      split; [reflexivity | left; reflexivity].
    + exists j. auto.
  - destruct (decide (id' = id)) as [->|Hne];
      [|apply Hsame, call_other; [rewrite Hj; eauto | exact Hne]].
    cbn [call]. unfold start. rewrite Hj.
    destruct Hstate as [Hs|[Hs Hr]]; rewrite Hs; exists j; auto.
  - destruct (decide (id' = id)) as [->|Hne];
      [|apply Hsame, call_other; [rewrite Hj; eauto | exact Hne]].
    cbn [call]. unfold finalize. rewrite Hj.
    destruct Hstate as [Hs|[Hs Hr]]; rewrite Hs.
    + rewrite Hflag. eexists. rewrite lookup_insert_eq. split; [reflexivity|].
      split; [reflexivity | right; split; reflexivity].
    + exists j. auto.
Qed.

Lemma cancellation_accepted_calls (cs : list Call) (id : positive) :
  forall reg : Registry,
    cancellation_accepted id reg ->
    cancellation_accepted id (calls well_formed reg cs).
Proof.
  induction cs as [|c cs IH]; intros reg Hreg; [exact Hreg|].
  apply IH, cancellation_accepted_call, Hreg.
Qed.

Lemma cancellation_accepted_poll (reg : Registry) (id : positive) :
  cancellation_accepted id reg ->
  exists snap, GetStatus id reg = inl snap
               /\ job_state snap = CANCELLED /\ job_result snap = None.
Proof.
  intros (j & Hj & Hflag & Hstate). unfold GetStatus. rewrite Hj.
  eexists. split; [reflexivity|]. unfold snapshot.
  destruct Hstate as [Hs|[Hs Hr]]; rewrite Hs.
  - rewrite Hflag. split; reflexivity.
  - split; assumption.
Qed.

(** [Submit] registers the job as PENDING under a new id and touches no
    other job; it runs nothing.  A malformed payload creates no job. *)
Lemma Submit_registers_pending kind payload now (reg : Registry) :
  well_formed kind payload = true ->
  exists id j,
    snd (Submit well_formed kind payload now reg) = inl id
    /\ reg !! id = None
    /\ fst (Submit well_formed kind payload now reg) !! id = Some j
    /\ job_state j = PENDING
    /\ job_result j = None
    /\ forall id', id' <> id ->
         fst (Submit well_formed kind payload now reg) !! id' = reg !! id'.
Proof.
  intros Hwf. unfold Submit. rewrite Hwf. cbn [fst snd].
  eexists. eexists. split; [reflexivity|].
  split; [apply not_elem_of_dom, is_fresh|].
  split; [apply lookup_insert_eq|]. split; [reflexivity|]. split; [reflexivity|].
  intros id' Hne. apply lookup_insert_ne. congruence.
Qed.

Lemma Submit_rejects_malformed kind payload now (reg : Registry) :
  well_formed kind payload = false ->
  Submit well_formed kind payload now reg = (reg, inr ValidationError).
Proof. intros Hwf. unfold Submit. rewrite Hwf. reflexivity. Qed.

(** ** C6 *)

(** C6: when Cancel is accepted for a RUNNING job, then after every
    sequence of later Submit, Cancel, start and finalize calls a poll of
    the job reports CANCELLED, with no result: never RUNNING, and never
    SUCCEEDED even when the worker finishes with a result. *)
Theorem cancel_wins (reg : Registry) (id : positive) (j : Job) (now : Z)
  (cs : list Call) :
  reg !! id = Some j ->
  job_state j = RUNNING ->
  snd (Cancel id now reg) = None
  /\ exists snap,
       GetStatus id (calls well_formed (fst (Cancel id now reg)) cs) = inl snap
       /\ job_state snap = CANCELLED
       /\ job_result snap = None.
Proof.
  intros Hj Hs.
  assert (Hacc : cancellation_accepted id (fst (Cancel id now reg))).
  { unfold Cancel. rewrite Hj, Hs. cbn [fst]. eexists.
    rewrite lookup_insert_eq. split; [reflexivity|].
    split; [reflexivity | left; reflexivity]. }
  split.
  - unfold Cancel. rewrite Hj, Hs. reflexivity.
  - apply cancellation_accepted_poll, cancellation_accepted_calls, Hacc.
Qed.

End RegistryProperties.

Lemma cancel_wins_witness :
  let reg : gmap positive (@JobRegistry.Job string) := {[ 1%positive := running_job ]} in
  let later := [JobRegistry.CallFinalize 1%positive (inl "Dear Ann, ...") 105%Z;
                JobRegistry.CallSubmit JobRegistry.Analyze "mail-2" 106%Z;
                JobRegistry.CallCancel 1%positive 107%Z] in
  snd (JobRegistry.Cancel 1%positive 104%Z reg) = None
  /\ exists snap,
       JobRegistry.GetStatus 1%positive
         (JobRegistry.calls (fun _ (_ : string) => true)
            (fst (JobRegistry.Cancel 1%positive 104%Z reg)) later) = inl snap
       /\ JobRegistry.job_state snap = JobRegistry.CANCELLED
       /\ JobRegistry.job_result snap = None.
Proof.
  cbv zeta.
  apply (cancel_wins (fun _ (_ : string) => true) {[ 1%positive := running_job ]}
           1%positive running_job 104%Z); reflexivity.
Defined.

(** * Properties of the generation engine *)

Section EngineProperties.

Import JobRegistry Engine.

Variable cfg : Config.

Lemma quality_ok_nonempty (t : string) : quality_ok cfg t = true -> t <> "".
Proof.
  unfold quality_ok. intros H Ht. subst t. discriminate H.
Qed.

Lemma first_acceptable_quality (attempts : list (option GeneratedDraft))
  (fallback : GeneratedDraft) :
  quality_ok cfg (text fallback) = true ->
  quality_ok cfg (text (first_acceptable cfg attempts fallback)) = true.
Proof.
  intros Hfb. induction attempts as [|[d|] rest IH]; cbn [first_acceptable]; auto.
  destruct (acceptable cfg d) eqn:Hd; [|exact IH].
  unfold acceptable in Hd. apply andb_true_iff in Hd. apply Hd.
Qed.

(** Full fallback: with the retriever unavailable and no rule matching,
    the draft is the template with its fixed confidence. *)
Lemma generate_full_fallback req (rules : list ResponseRule) profile body :
  req_body req = Some body ->
  List.find (fun r => matches cfg r req) rules = None ->
  generate cfg req (inr RetrievalUnavailable) rules profile
  = inl (template_fallback cfg).
Proof.
  intros Hb Hr. unfold generate, rag_strategy, rule_strategy, hybrid_strategy.
  rewrite Hb, Hr. reflexivity.
Qed.

(** ** C4 *)

(** C4: for every valid GenerationRequest (one with a body), whatever the
    retriever returned (even an error), whatever the rules and the
    profile, submitting the request and letting the worker execute it to
    completion yields a SUCCEEDED job whose result is the draft the engine
    generated, and that draft is not empty; the Template fallback, which
    passes the quality check by construction, is what guarantees it. *)
Theorem generate_response_total (req : GenerationRequest)
  (retrieved : list Passage + ErrorKind) (rules : list ResponseRule)
  (profile : option StyleProfile)
  (reg : gmap positive (@Job GeneratedDraft)) (t0 t1 : Z) :
  Engine.well_formed GenerateResponse req = true ->
  quality_ok cfg (template_text cfg) = true ->
  exists id snap d,
    snd (Submit Engine.well_formed GenerateResponse req t0 reg) = inl id
    /\ GetStatus id
         (execute (fun r => generate cfg r retrieved rules profile) id req t1
            (fst (Submit Engine.well_formed GenerateResponse req t0 reg)))
       = inl snap
    /\ job_state snap = SUCCEEDED
    /\ job_result snap = Some d
    /\ generate cfg req retrieved rules profile = inl d
    /\ text d <> "".
Proof.
  intros Hwf Htpl. unfold Submit. rewrite Hwf. cbn [fst snd].
  unfold Engine.well_formed in Hwf.
  set (id := fresh (dom reg)).
  set (d := first_acceptable cfg
              [rag_strategy cfg req retrieved profile;
               rule_strategy cfg req rules profile;
               hybrid_strategy cfg req retrieved rules profile]
              (template_fallback cfg)).
  assert (Hgen : generate cfg req retrieved rules profile = inl d).
  { unfold generate. destruct (req_body req); [reflexivity | discriminate]. }
  exists id. eexists. exists d.
  split; [reflexivity|].
  unfold execute, start, finalize, GetStatus.
  rewrite lookup_insert_eq. cbn [job_state].
  rewrite lookup_insert_eq. cbn [job_state with_state cancellation_flag].
  rewrite Hgen, lookup_insert_eq.
  split; [reflexivity|]. split; [reflexivity|]. split; [reflexivity|].
  split; [reflexivity|].
  apply quality_ok_nonempty. apply first_acceptable_quality. exact Htpl.
Qed.

End EngineProperties.

Lemma generate_response_total_witness :
  exists id snap d,
    snd (JobRegistry.Submit Engine.well_formed JobRegistry.GenerateResponse
           deadline_request 100%Z no_jobs) = inl id
    /\ JobRegistry.GetStatus id
         (JobRegistry.execute
            (fun r => Engine.generate sample_config r
                        (inr JobRegistry.RetrievalUnavailable) [] None)
            id deadline_request 101%Z
            (fst (JobRegistry.Submit Engine.well_formed
                    JobRegistry.GenerateResponse deadline_request 100%Z no_jobs)))
       = inl snap
    /\ JobRegistry.job_state snap = JobRegistry.SUCCEEDED
    /\ JobRegistry.job_result snap = Some d
    /\ Engine.generate sample_config deadline_request
         (inr JobRegistry.RetrievalUnavailable) [] None = inl d
    /\ Engine.text d <> "".
Proof.
  apply (generate_response_total sample_config deadline_request
           (inr JobRegistry.RetrievalUnavailable) [] None no_jobs 100%Z 101%Z);
    reflexivity.
Defined.

(** The scenarios of the specification, on the sample configuration. *)
Example scenario_rag_success :
  exists d,
    Engine.generate sample_config deadline_request (inl deadline_passages) [] None
    = inl d
    /\ Engine.strategy d = Engine.RAG
    /\ Engine.sources d = ["m-10"; "m-11"]
    /\ exists rel, Engine.relevance d = Some rel /\ (rel == 875 # 1000)%Q.
Proof.
  eexists. split; [reflexivity|]. split; [reflexivity|]. split; [reflexivity|].
  eexists. split; [reflexivity|]. reflexivity.
Qed.

Example scenario_full_fallback :
  Engine.generate sample_config deadline_request
    (inr JobRegistry.RetrievalUnavailable) [] None
  = inl (Engine.template_fallback sample_config).
Proof. reflexivity. Qed.

(** * Further properties of the store *)

Section Store.

Implicit Types (e : Env) (s : AppState) (a : AppAction) (p : TaskStatus).

(** X1: every action of the reducer changes only the fields of its own
    group: a task action never touches emails, responses, clients, health,
    interface or notifications, and no other action touches the tasks. *)
Theorem appReducer_changes_own_slice e s a :
  same_outside (slice_of a) s (appReducer e s a).
Proof.
  unfold same_outside.
  destruct a; cbn [slice_of appReducer];
    try (destruct (is_terminal (status payload)));
    repeat split; (left; reflexivity) || (right; repeat split; reflexivity).
Qed.

Lemma keyed_step e s a :
  map_Forall (fun k p => task_id p = k) (activeTasks s) ->
  map_Forall (fun k p => task_id p = k) (activeTasks (appReducer e s a)).
Proof.
  intros Hs. destruct a; cbn; auto.
  - apply map_Forall_insert_2; auto.
  - destruct (is_terminal (status payload)); cbn.
    + apply map_Forall_delete, map_Forall_insert_2; auto.
    + apply map_Forall_insert_2; auto.
  - apply map_Forall_delete, Hs.
Qed.

(** X2: in every state reached from the initial one, each entry of
    [activeTasks] is stored under the task id it carries. *)
Theorem activeTasks_keyed_by_task_id (acts : list (Env * AppAction)) :
  map_Forall (fun k p => task_id p = k)
             (activeTasks (dispatch_all initialState acts)).
Proof.
  apply (dispatch_all_ind
           (fun s => map_Forall (fun k p => task_id p = k) (activeTasks s))).
  - intros e s a. apply keyed_step.
  - apply map_Forall_empty.
Qed.

Lemma in_progress_step e s a :
  adds_finished_task a = false ->
  map_Forall (fun _ p => is_terminal (status p) = false) (activeTasks s) ->
  map_Forall (fun _ p => is_terminal (status p) = false)
             (activeTasks (appReducer e s a)).
Proof.
  intros Ha Hs. destruct a; cbn in *; auto.
  - apply map_Forall_insert_2; auto.
  - destruct (is_terminal (status payload)) eqn:Ht; cbn.
    + rewrite delete_insert_eq. apply map_Forall_delete, Hs.
    + apply map_Forall_insert_2; auto.
  - apply map_Forall_delete, Hs.
Qed.

(** X3: as long as no ADD_TASK carries an already terminal status (the
    hooks only ever dispatch UPDATE_TASK), no task of [activeTasks] has a
    terminal status: finished jobs are found in the history only. *)
Theorem activeTasks_in_progress (acts : list (Env * AppAction)) :
  Forall (fun ea => adds_finished_task (snd ea) = false) acts ->
  map_Forall (fun _ p => is_terminal (status p) = false)
             (activeTasks (dispatch_all initialState acts)).
Proof.
  intros Hacts.
  assert (Hgen : forall s,
             map_Forall (fun _ p => is_terminal (status p) = false) (activeTasks s) ->
             map_Forall (fun _ p => is_terminal (status p) = false)
                        (activeTasks (dispatch_all s acts))).
  { induction Hacts as [|[e a] acts Ha _ IH]; intros s Hs; [exact Hs|].
    rewrite dispatch_all_cons. apply IH, in_progress_step; assumption. }
  apply Hgen, map_Forall_empty.
Qed.

Lemma activeTasks_in_progress_witness :
  map_Forall (fun _ p => is_terminal (status p) = false)
    (activeTasks
       (dispatch_all initialState
          [(env0, ADD_TASK job_started); (env0, UPDATE_TASK job_done);
           (env0, UPDATE_TASK job_started)])).
Proof.
  apply (activeTasks_in_progress
           [(env0, ADD_TASK job_started); (env0, UPDATE_TASK job_done);
            (env0, UPDATE_TASK job_started)]).
  repeat constructor.
Defined.

Lemma reduce_tasks_agrees e s a (store : gmap positive (gmap string TaskStatus))
  (ref : positive) :
  store !! ref = Some (activeTasks s) ->
  fst (reduce_tasks store ref a) !! snd (reduce_tasks store ref a)
  = Some (activeTasks (appReducer e s a)).
Proof.
  intros Href.
  assert (He : entries_of store ref = activeTasks s).
  { unfold entries_of. rewrite Href. reflexivity. }
  destruct a; cbn [reduce_tasks appReducer fst snd]; try exact Href;
    rewrite ?He.
  - rewrite lookup_insert_eq. reflexivity.
  - rewrite lookup_insert_eq.
    destruct (is_terminal (status payload)); reflexivity.
  - rewrite lookup_insert_eq. reflexivity.
Qed.

Lemma fresh_reference (store : gmap positive (gmap string TaskStatus))
  (ref : positive) :
  is_Some (store !! ref) -> fresh (dom store) <> ref.
Proof.
  intros Hs Heq. apply (is_fresh (dom store)). rewrite Heq.
  apply elem_of_dom, Hs.
Qed.

(** X4: adding a task and removing it again, for a task id that was not
    tracked.  The state that is returned holds a new Map whose entries are
    the entries the Map of the given state had before, which are also the
    entries the reducer of this development computes; but ADD_TASK has
    written to the Map of the state it was given: that Map, which the given
    state and every state sharing it still hold, now lists the task.  No
    other Map is touched. *)
Theorem add_then_remove_task e1 e2 s p
  (store : gmap positive (gmap string TaskStatus)) (ref : positive) :
  store !! ref = Some (activeTasks s) ->
  activeTasks s !! task_id p = None ->
  let added := reduce_tasks store ref (ADD_TASK p) in
  let removed := reduce_tasks (fst added) (snd added) (REMOVE_TASK (task_id p)) in
  fst removed !! snd removed = Some (activeTasks s)
  /\ fst removed !! snd removed
     = Some (activeTasks (appReducer e2 (appReducer e1 s (ADD_TASK p))
                                     (REMOVE_TASK (task_id p))))
  /\ snd removed <> ref
  /\ fst added !! ref = Some (<[task_id p := p]> (activeTasks s))
  /\ fst removed !! ref = Some (<[task_id p := p]> (activeTasks s))
  /\ forall other, other <> ref -> is_Some (store !! other) ->
                   fst removed !! other = store !! other.
Proof.
  intros Href Hnone added removed.
  assert (He : entries_of store ref = activeTasks s).
  { unfold entries_of. rewrite Href. reflexivity. }
  set (written := <[task_id p := p]> (activeTasks s)).
  set (store1 := <[ref := written]> store).
  set (copy1 := fresh (dom store1)).
  assert (Hadded : added = (<[copy1 := written]> store1, copy1)).
  { unfold added. cbn [reduce_tasks]. rewrite He. reflexivity. }
  assert (Hc1 : copy1 <> ref).
  { apply fresh_reference. unfold store1. rewrite lookup_insert_eq. eauto. }
  set (store2 := <[copy1 := written]> store1).
  set (copy2 := fresh (dom store2)).
  assert (He2 : entries_of store2 copy1 = written).
  { unfold entries_of, store2. rewrite lookup_insert_eq. reflexivity. }
  assert (Hremoved : removed
                     = (<[copy2 := delete (task_id p) written]> store2, copy2)).
  { unfold removed. rewrite Hadded. cbn [reduce_tasks fst snd].
    fold store2. rewrite He2. reflexivity. }
  assert (Href2 : store2 !! ref = Some written).
  { unfold store2, store1. rewrite lookup_insert_ne by exact Hc1.
    apply lookup_insert_eq. }
  assert (Hc2 : copy2 <> ref).
  { apply fresh_reference. rewrite Href2. eauto. }
  assert (Hback : delete (task_id p) written = activeTasks s).
  { unfold written. rewrite delete_insert_eq. apply delete_id, Hnone. }
  rewrite Hremoved, Hadded. cbn [fst snd].
  split; [rewrite lookup_insert_eq, Hback; reflexivity|].
  split.
  { rewrite lookup_insert_eq, Hback. f_equal. cbn.
    rewrite delete_insert_eq. symmetry. apply delete_id, Hnone. }
  split; [exact Hc2|].
  split; [exact Href2|].
  split; [rewrite lookup_insert_ne by exact Hc2; exact Href2|].
  intros other Hne Hsome.
  assert (Ho1 : store1 !! other = store !! other).
  { unfold store1. apply lookup_insert_ne. congruence. }
  assert (Hn1 : copy1 <> other).
  { apply fresh_reference. rewrite Ho1. exact Hsome. }
  assert (Ho2 : store2 !! other = store !! other).
  { unfold store2. rewrite lookup_insert_ne by exact Hn1. exact Ho1. }
  assert (Hn2 : copy2 <> other).
  { apply fresh_reference. rewrite Ho2. exact Hsome. }
  rewrite lookup_insert_ne by exact Hn2. exact Ho2.
Qed.

Lemma add_then_remove_task_witness :
  let added := reduce_tasks initial_store 1%positive (ADD_TASK job_started) in
  let removed := reduce_tasks (fst added) (snd added)
                   (REMOVE_TASK (task_id job_started)) in
  fst removed !! snd removed = Some (activeTasks initialState)
  /\ snd removed <> 1%positive
  /\ fst removed !! 1%positive
     = Some (<[task_id job_started := job_started]> (activeTasks initialState)).
Proof.
  pose proof (add_then_remove_task env0 env0 initialState job_started
                initial_store 1%positive eq_refl eq_refl) as H.
  cbv zeta in H. cbv zeta.
  split; [exact (proj1 H)|].
  split; [exact (proj1 (proj2 (proj2 H)))
         | exact (proj1 (proj2 (proj2 (proj2 (proj2 H)))))].
Defined.

Lemma map_spread_none (id : string) (u : PartialEmailMessage) (l : list EmailMessage) :
  Forall (fun m => em_id m <> id) l ->
  map (fun email => if String.eqb (em_id email) id
                    then spread_email email u else email) l = l.
Proof.
  induction 1 as [|m l Hm _ IH]; [reflexivity|]. cbn.
  apply String.eqb_neq in Hm. rewrite Hm, IH. reflexivity.
Qed.

(** X5: UPDATE_EMAIL for an id that no listed email and not the selected
    email carries leaves the whole state as it was. *)
Theorem update_unknown_email e s (id : string) (u : PartialEmailMessage) :
  Forall (fun m => em_id m <> id) (emails s) ->
  match selectedEmail s with
  | Some sel => em_id sel <> id
  | None => True
  end ->
  appReducer e s (UPDATE_EMAIL id u) = s.
Proof.
  intros Hl Hsel. destruct s.
  unfold appReducer, set_selectedEmail, set_emails. cbn in *. f_equal.
  - apply map_spread_none, Hl.
  - destruct selectedEmail0 as [sel|]; [|reflexivity].
    apply String.eqb_neq in Hsel. rewrite Hsel. reflexivity.
Qed.

Lemma update_unknown_email_witness :
  appReducer env0
    (dispatch_all initialState
       [(env0, SET_EMAILS [sample_email "m-1" false; sample_email "m-2" true]);
        (env0, SELECT_EMAIL (Some (sample_email "m-2" true)))])
    (UPDATE_EMAIL "m-9" (read_update true))
  = dispatch_all initialState
      [(env0, SET_EMAILS [sample_email "m-1" false; sample_email "m-2" true]);
       (env0, SELECT_EMAIL (Some (sample_email "m-2" true)))].
Proof.
  apply (update_unknown_email env0
           (dispatch_all initialState
              [(env0, SET_EMAILS [sample_email "m-1" false; sample_email "m-2" true]);
               (env0, SELECT_EMAIL (Some (sample_email "m-2" true)))])
           "m-9" (read_update true)).
  - cbn. repeat constructor; discriminate.
  - cbn. discriminate.
Defined.

(** X6: UPDATE_EMAIL keeps the selected email in step with the list: when
    the selected email was one of the listed emails it still is afterwards,
    with the same update applied to both; the number of emails is unchanged,
    and so are their ids unless the update carries an id. *)
Theorem update_email_keeps_selection e s (id : string) (u : PartialEmailMessage) :
  selected_is_listed s ->
  selected_is_listed (appReducer e s (UPDATE_EMAIL id u))
  /\ length (emails (appReducer e s (UPDATE_EMAIL id u))) = length (emails s)
  /\ (is_Some (pe_id u)
      \/ map em_id (emails (appReducer e s (UPDATE_EMAIL id u)))
         = map em_id (emails s)).
Proof.
  intros Hsel. unfold selected_is_listed in *. cbn.
  split; [|split].
  - destruct (selectedEmail s) as [sel|]; [|exact I].
    destruct (String.eqb (em_id sel) id) eqn:Hq; cbn;
      apply in_map_iff; exists sel; rewrite Hq; split; auto.
  - apply length_map.
  - destruct (pe_id u) as [i|] eqn:Hid; [left; eauto | right].
    rewrite map_map. apply map_ext. intros m.
    destruct (String.eqb (em_id m) id); [|reflexivity].
    cbn. rewrite Hid. reflexivity.
Qed.

Lemma update_email_keeps_selection_witness :
  let s := dispatch_all initialState
             [(env0, SET_EMAILS [sample_email "m-1" false; sample_email "m-2" true]);
              (env0, SELECT_EMAIL (Some (sample_email "m-2" true)))] in
  selected_is_listed (appReducer env0 s (UPDATE_EMAIL "m-2" (read_update true)))
  /\ length (emails (appReducer env0 s (UPDATE_EMAIL "m-2" (read_update true))))
     = length (emails s)
  /\ (is_Some (pe_id (read_update true))
      \/ map em_id (emails (appReducer env0 s (UPDATE_EMAIL "m-2" (read_update true))))
         = map em_id (emails s)).
Proof.
  cbv zeta.
  apply (update_email_keeps_selection env0
           (dispatch_all initialState
              [(env0, SET_EMAILS [sample_email "m-1" false; sample_email "m-2" true]);
               (env0, SELECT_EMAIL (Some (sample_email "m-2" true)))])
           "m-2" (read_update true)).
  cbn. right. left. reflexivity.
Defined.

Lemma unread_mark (id : string) (l : list Notification) :
  unread (map (fun notif => if String.eqb (n_id notif) id
                            then mark_read notif else notif) l)
  <= unread l.
Proof.
  unfold unread. induction l as [|n l IH]; [reflexivity|]. cbn.
  destruct (String.eqb (n_id n) id); cbn.
  - destruct (read n); cbn; lia.
  - destruct (read n); cbn; lia.
Qed.

(** X7: MARK_NOTIFICATION_READ never loses, reorders or un-reads a
    notification: the ids are as before, the number of unread ones does not
    grow, every notification with the given id is read afterwards, and
    marking twice is the same as marking once. *)
Theorem mark_notification_read_sound e e' s (id : string) :
  let s' := appReducer e s (MARK_NOTIFICATION_READ id) in
  map n_id (notifications s') = map n_id (notifications s)
  /\ unread (notifications s') <= unread (notifications s)
  /\ Forall (fun n => n_id n <> id \/ read n = true) (notifications s')
  /\ appReducer e' s' (MARK_NOTIFICATION_READ id) = s'.
Proof.
  cbv zeta. cbn. split; [|split; [|split]].
  - rewrite map_map. apply map_ext. intros n.
    destruct (String.eqb (n_id n)  id); reflexivity.
  - apply unread_mark.
  - apply Forall_map. apply Forall_forall. intros n _.
    destruct (String.eqb_spec (n_id n) id); [right; reflexivity | left; assumption].
  - destruct s. unfold set_notifications. cbn. f_equal.
    rewrite map_map. apply map_ext. intros n.
    destruct (String.eqb (n_id n) id) eqn:Hn; cbn; rewrite Hn; reflexivity.
Qed.

End Store.

(** * Further properties of the polling hooks *)

Section MoreHooks.

Implicit Types (st : TaskStatus) (tr : list Effect) (tid : string).

#[local] Ltac status_cases unf :=
  intros st; unfold unf, is_in_progress, is_terminal;
  destruct st as [t s r er d ok]; cbn [status];
  destruct (String.eqb_spec s "SUCCESS") as [->|?]; [easy|];
  destruct (String.eqb_spec s "PENDING") as [->|?]; [easy|];
  destruct (String.eqb_spec s "STARTED") as [->|?]; [easy|];
  destruct (String.eqb_spec s "FAILURE") as [->|?]; easy.

#[global] Instance useGenerateRagResponse_handle_ok :
  PollHandle useGenerateRagResponse_handle.
Proof. split; status_cases useGenerateRagResponse_handle. Qed.

#[global] Instance useAnalyzeWritingStyle_handle_ok :
  PollHandle useAnalyzeWritingStyle_handle.
Proof. split; status_cases useAnalyzeWritingStyle_handle. Qed.

#[global] Instance useComprehensiveAnalysis_handle_ok :
  PollHandle useComprehensiveAnalysis_handle.
Proof. split; status_cases useComprehensiveAnalysis_handle. Qed.

#[global] Instance useAnalyzeClient_handle_ok clientEmail :
  PollHandle (useAnalyzeClient_handle clientEmail).
Proof. split; status_cases useAnalyzeClient_handle. Qed.

(** X8: the [pollTask] closures of useGenerateRagResponse,
    useAnalyzeWritingStyle, useComprehensiveAnalysis and useAnalyzeClient
    poll again exactly while the answers are PENDING or STARTED: at the first
    other answer (any other status, or a rejected request) each has stopped,
    having made one status request per answer up to and including that one. *)
Theorem every_hook_stops_polling tid clientEmail pre r rest :
  forallb in_progress_answer pre = true ->
  in_progress_answer r = false ->
  Forall (fun handle =>
            snd (pollTask tid handle (pre ++ r :: rest)) = Stopped
            /\ polls_made (fst (pollTask tid handle (pre ++ r :: rest)))
               = S (length pre))
         [useGenerateRagResponse_handle; useAnalyzeWritingStyle_handle;
          useComprehensiveAnalysis_handle; useAnalyzeClient_handle clientEmail].
Proof.
  intros Hpre Hr.
  repeat constructor;
    apply pollTask_repolls_only_in_progress; (assumption || typeclasses eauto).
Qed.

Lemma every_hook_stops_polling_witness :
  Forall (fun handle =>
            snd (pollTask "7f3a9c2e-11" handle
                   ([Resolved job_started] ++ Rejected not_found :: [Resolved job_done]))
            = Stopped
            /\ polls_made (fst (pollTask "7f3a9c2e-11" handle
                                  ([Resolved job_started]
                                   ++ Rejected not_found :: [Resolved job_done])))
               = 2)
         [useGenerateRagResponse_handle; useAnalyzeWritingStyle_handle;
          useComprehensiveAnalysis_handle; useAnalyzeClient_handle "ann@example.com"].
Proof.
  apply (every_hook_stops_polling "7f3a9c2e-11" "ann@example.com"
           [Resolved job_started] (Rejected not_found) [Resolved job_done]);
    reflexivity.
Defined.

(** X9: when the answer to analyzeClient or analyzeWritingStyle carries no
    task id (missing or empty), the result is immediate: the hook makes no
    status request whatever the server would answer, never starts polling,
    and notifies the success at once. *)
Theorem immediate_result_is_not_polled userId clientEmail emailIds data server :
  truthy_id data = None ->
  polls_made (fst (useAnalyzeClient userId clientEmail (Resolved data) server)) = 0
  /\ snd (useAnalyzeClient userId clientEmail (Resolved data) server) = Idle
  /\ outcome_notified (fst (useAnalyzeClient userId clientEmail (Resolved data) server))
     = true
  /\ polls_made (fst (useAnalyzeWritingStyle userId emailIds (Resolved data) server)) = 0
  /\ snd (useAnalyzeWritingStyle userId emailIds (Resolved data) server) = Idle
  /\ outcome_notified
       (fst (useAnalyzeWritingStyle userId emailIds (Resolved data) server))
     = true.
Proof.
  intros Hdata. unfold useAnalyzeClient, useAnalyzeWritingStyle, useMutation.
  cbn [await run_api analyzeClient analyzeWritingStyle map app].
  rewrite Hdata. cbn. repeat split; reflexivity.
Qed.

Lemma immediate_result_is_not_polled_witness :
  polls_made (fst (useAnalyzeClient "u-1" "ann@example.com" (Resolved no_task_id)
                     [Resolved job_done])) = 0
  /\ snd (useAnalyzeClient "u-1" "ann@example.com" (Resolved no_task_id)
            [Resolved job_done]) = Idle
  /\ outcome_notified (fst (useAnalyzeClient "u-1" "ann@example.com"
                              (Resolved no_task_id) [Resolved job_done])) = true
  /\ polls_made (fst (useAnalyzeWritingStyle "u-1" None (Resolved no_task_id)
                        [Resolved job_done])) = 0
  /\ snd (useAnalyzeWritingStyle "u-1" None (Resolved no_task_id)
            [Resolved job_done]) = Idle
  /\ outcome_notified (fst (useAnalyzeWritingStyle "u-1" None (Resolved no_task_id)
                              [Resolved job_done])) = true.
Proof.
  apply (immediate_result_is_not_polled "u-1" "ann@example.com" None no_task_id
           [Resolved job_done]).
  reflexivity.
Defined.

End MoreHooks.

Section PollingAndStore.

Implicit Types (st : TaskStatus) (tr : list Effect) (tid : string) (s : AppState).

Lemma streamTaskUpdates_ticks_stop tid pre r rest :
  forallb keeps_interval pre = true ->
  keeps_interval r = false ->
  snd (streamTaskUpdates_ticks tid (pre ++ r :: rest)) = Stopped
  /\ polls_made (fst (streamTaskUpdates_ticks tid (pre ++ r :: rest))) = S (length pre)
  /\ updates_delivered (fst (streamTaskUpdates_ticks tid (pre ++ r :: rest)))
     = resolved_of (pre ++ [r])
  /\ last (fst (streamTaskUpdates_ticks tid (pre ++ r :: rest))) = Some ClearInterval.
Proof.
  intros Hpre Hr. induction pre as [|a pre IH].
  - cbn [app]. rewrite streamTaskUpdates_ticks_cons.
    destruct r as [st|err].
    + cbn in Hr. apply negb_false_iff in Hr. rewrite Hr. unfold polls_made.
      cbn [fst snd List.filter]. rewrite is_status_request_getTaskStatus.
      repeat split.
    + unfold polls_made. cbn [fst snd List.filter].
      rewrite is_status_request_getTaskStatus. repeat split.
  - cbn [forallb] in Hpre. apply andb_true_iff in Hpre as [Ha Hpre].
    destruct (IH Hpre) as (Hs & Hp & Hu & Hl).
    cbn [app]. rewrite streamTaskUpdates_ticks_cons.
    destruct a as [st|err]; [|discriminate].
    cbn in Ha. apply negb_true_iff in Ha. rewrite Ha. cbn [fst snd].
    split; [exact Hs|]. split; [|split].
    + unfold polls_made in *. cbn [List.filter].
      rewrite is_status_request_getTaskStatus. cbn [length is_status_request].
      rewrite Hp. reflexivity.
    + cbn [updates_delivered flat_map app resolved_of].
      fold (updates_delivered (fst (streamTaskUpdates_ticks tid (pre ++ r :: rest)))).
      fold (resolved_of (pre ++ [r])). rewrite Hu. reflexivity.
    + destruct (fst (streamTaskUpdates_ticks tid (pre ++ r :: rest))) as [|x l] eqn:Hf;
        [discriminate Hl|].
      change (last (x :: l) = Some ClearInterval). exact Hl.
Qed.

Lemma streamTaskUpdates_timely_stops tid pre r rest :
  forallb keeps_interval pre = true ->
  keeps_interval r = false ->
  snd (streamTaskUpdates tid (pre ++ r :: rest)) = Stopped
  /\ polls_made (fst (streamTaskUpdates tid (pre ++ r :: rest))) = S (length pre)
  /\ updates_delivered (fst (streamTaskUpdates tid (pre ++ r :: rest)))
     = resolved_of (pre ++ [r])
  /\ last (fst (streamTaskUpdates tid (pre ++ r :: rest))) = Some ClearInterval.
Proof.
  intros Hpre Hr.
  destruct (streamTaskUpdates_ticks_stop tid pre r rest Hpre Hr) as (Hs & Hp & Hu & Hl).
  unfold streamTaskUpdates.
  destruct (streamTaskUpdates_ticks tid (pre ++ r :: rest)) as [effs p].
  cbn [fst snd] in *. split; [exact Hs|]. split; [exact Hp|]. split; [exact Hu|].
  destruct effs as [|x l]; [discriminate Hl|].
  change (last (x :: l) = Some ClearInterval). exact Hl.
Qed.










(** A late answer: the timer fired twice before the first answer came.  The
    first answer reports SUCCESS and clears the interval; the second, to the
    request that was already in flight, still reaches [onUpdate], reporting
    STARTED after SUCCESS was reported. *)
Example late_answer_reaches_onUpdate :
  updates_delivered
    (fst (streamTaskUpdates_events "7f3a9c2e-11"
            [TimerFires; TimerFires; AnswerArrives 0 (Resolved job_done);
             AnswerArrives 1 (Resolved job_started); TimerFires]))
  = [job_done; job_started]
  /\ polls_made
       (fst (streamTaskUpdates_events "7f3a9c2e-11"
               [TimerFires; TimerFires; AnswerArrives 0 (Resolved job_done);
                AnswerArrives 1 (Resolved job_started); TimerFires])) = 2.
Proof. split; reflexivity. Qed.

Lemma tasks_frame (e : Env) s (a : AppAction) :
  slice_of a <> TaskSlice ->
  activeTasks (appReducer e s a) = activeTasks s
  /\ taskHistory (appReducer e s a) = taskHistory s.
Proof.
  intros Hsl. destruct a; cbn in *; try (split; reflexivity); congruence.
Qed.

Lemma apply_effects_app envs k s tr1 tr2 :
  apply_effects envs k s (tr1 ++ tr2)
  = apply_effects envs (k + dispatches tr1) (apply_effects envs k s tr1) tr2.
Proof.
  revert k s. induction tr1 as [|ef tr1 IH]; intros k s.
  - cbn. rewrite Nat.add_0_r. reflexivity.
  - destruct ef; cbn [app apply_effects]; rewrite IH; unfold dispatches;
      cbn [List.filter length]; try reflexivity.
    rewrite Nat.add_succ_r. reflexivity.
Qed.

Lemma apply_effects_no_task envs tr : forall k s,
  forallb (fun ef => negb (is_task_dispatch ef)) tr = true ->
  activeTasks (apply_effects envs k s tr) = activeTasks s
  /\ taskHistory (apply_effects envs k s tr) = taskHistory s.
Proof.
  induction tr as [|ef tr IH]; intros k s Hall; [split; reflexivity|].
  cbn [forallb] in Hall. apply andb_true_iff in Hall as [Hef Htr].
  destruct ef; cbn [apply_effects]; try (apply IH; exact Htr).
  destruct (IH (S k) (appReducer (envs k) s a) Htr) as [Ha Hh].
  rewrite Ha, Hh. apply tasks_frame. cbn in Hef.
  destruct (slice_of a); try discriminate; congruence.
Qed.

Lemma pollTask_last (handle : TaskStatus -> list Effect * bool)
  `{!PollHandle handle} tid pre r :
  forallb in_progress_answer pre = true ->
  fst (pollTask tid handle (pre ++ [r]))
  = fst (pollTask tid handle pre) ++ fst (pollTask_once tid handle r).
Proof.
  intros Hpre. pose proof (pollTask_cons handle tid) as Hcons.
  induction pre as [|a pre IH].
  - cbn [app]. rewrite Hcons.
    destruct (in_progress_answer r); cbn [fst pollTask]; [|reflexivity].
    rewrite app_nil_r. reflexivity.
  - cbn [forallb] in Hpre. apply andb_true_iff in Hpre as [Ha Hpre].
    cbn [app]. rewrite !Hcons, Ha. cbn [fst]. rewrite (IH Hpre).
    rewrite app_assoc. reflexivity.
Qed.

Lemma generate_handle_after_update st :
  exists rest,
    updateTaskStatus st ++ fst (useGenerateResponse_handle st)
    = Dispatch (UPDATE_TASK st) :: rest
    /\ forallb (fun ef => negb (is_task_dispatch ef)) rest = true.
Proof.
  unfold updateTaskStatus, useGenerateResponse_handle.
  destruct st as [t s r er d ok]; cbn [status].
  destruct (String.eqb_spec s "SUCCESS") as [->|?];
    [eexists; split; [reflexivity | reflexivity]|].
  destruct (String.eqb_spec s "PENDING") as [->|?];
    [eexists; split; [reflexivity | reflexivity]|].
  destruct (String.eqb_spec s "STARTED") as [->|?];
    [eexists; split; [reflexivity | reflexivity]|].
  destruct (String.eqb_spec s "FAILURE") as [->|?];
    eexists; split; reflexivity.
Qed.

(** X11: the store follows what [useGenerateResponse] polled last.  When
    the answers before it were PENDING or STARTED, then after the last
    resolved answer the job of that answer is, for SUCCESS or FAILURE,
    absent from [activeTasks] and first in [taskHistory]; for any other
    status (STARTED, but also one the hook stops on, such as REVOKED) it is
    listed in [activeTasks] with exactly that status. *)
Theorem store_follows_last_poll envs s emailId options data pre st :
  forallb in_progress_answer pre = true ->
  let s' := apply_effects envs 0 s
              (fst (useGenerateResponse emailId options (Resolved data)
                      (pre ++ [Resolved st]))) in
  if is_terminal (status st)
  then activeTasks s' !! task_id st = None /\ head (taskHistory s') = Some st
  else activeTasks s' !! task_id st = Some st.
Proof.
  intros Hpre s'. unfold s'. rewrite useGenerateResponse_resolved. cbn [fst].
  rewrite (pollTask_last useGenerateResponse_handle _ pre (Resolved st) Hpre).
  rewrite pollTask_once_resolved. cbn [fst].
  destruct (generate_handle_after_update st) as (rest & Heq & Hrest).
  rewrite Heq.
  change (Http ?q :: ?a ++ SetTimeout 1000 :: ?l
          ++ Http ?q' :: Dispatch (UPDATE_TASK st) :: rest)
    with ((Http q :: a ++ SetTimeout 1000 :: l)
          ++ [Http q'; Dispatch (UPDATE_TASK st)] ++ rest).
  rewrite !apply_effects_app.
  set (k1 := 0 + dispatches _). set (s1 := apply_effects envs 0 s _).
  cbn [apply_effects]. set (k2 := k1 + _).
  destruct (apply_effects_no_task envs rest k2
              (appReducer (envs k1) s1 (UPDATE_TASK st)) Hrest) as [Ha Hh].
  rewrite Ha, Hh.
  destruct (is_terminal (status st)) eqn:Ht.
  - destruct (update_terminal (envs k1) s1 st Ht) as [Ha' Hh'].
    rewrite Ha', Hh'. split; [apply lookup_delete_eq | reflexivity].
  - apply update_in_progress, Ht.
Qed.

Lemma store_follows_last_poll_witness :
  let s' := apply_effects (fun _ => env0) 0 initialState
              (fst (useGenerateResponse "mail-1" None (Resolved submitted)
                      ([Resolved job_started] ++ [Resolved job_done]))) in
  if is_terminal (status job_done)
  then activeTasks s' !! task_id job_done = None
       /\ head (taskHistory s') = Some job_done
  else activeTasks s' !! task_id job_done = Some job_done.
Proof.
  apply (store_follows_last_poll (fun _ => env0) initialState "mail-1" None
           submitted [Resolved job_started] job_done).
  reflexivity.
Defined.

End PollingAndStore.

(** * Properties of the batch update and of authentication *)

Section Batch.

Lemma batch_requests (jobs : list (string * Outcome EmailMessage)) (isRead : bool) :
  flat_map (fun run => map Http (fst run))
    (map (fun job => run_api (updateEmail (fst job) [("is_read", JBool isRead)])
                             [snd job]) jobs)
  = map (fun job => Http {| method := PUT; url := "/emails/" +:+ fst job;
                            body := [("is_read", JBool isRead)] |}) jobs.
Proof.
  induction jobs as [|[id ans] jobs IH]; [reflexivity|].
  cbn [map flat_map fst snd]. rewrite IH.
  destruct ans; reflexivity.
Qed.

Lemma batch_all_resolved (jobs : list (string * Outcome EmailMessage)) (isRead : bool) :
  forallb (fun run => is_resolved (snd run))
    (map (fun job => run_api (updateEmail (fst job) [("is_read", JBool isRead)])
                             [snd job]) jobs)
  = forallb (fun job => is_resolved (Some (snd job))) jobs.
Proof.
  induction jobs as [|[id ans] jobs IH]; [reflexivity|].
  cbn [map forallb fst snd]. rewrite IH. destruct ans; reflexivity.
Qed.

Lemma http_requests_app tr1 tr2 :
  http_requests (tr1 ++ tr2) = http_requests tr1 ++ http_requests tr2.
Proof. apply flat_map_app. Qed.

Lemma http_requests_map (l : list Request) : http_requests (map Http l) = l.
Proof. induction l as [|r l IH]; [reflexivity|]. cbn. f_equal. exact IH. Qed.

(** X12: [batchMarkRead] sends one PUT per email id, in order, each asking
    only for [is_read], whatever the answers are: a failure of one update
    does not hold back the others.  It reports success, and invalidates the
    email lists, exactly when every update resolved (so also for no ids at
    all); otherwise it reports one failure and invalidates nothing. *)
Theorem batchMarkRead_sends_every_update
  (jobs : list (string * Outcome EmailMessage)) (isRead : bool) :
  http_requests (batchMarkRead jobs isRead)
  = map (fun job => {| method := PUT; url := "/emails/" +:+ fst job;
                       body := [("is_read", JBool isRead)] |}) jobs
  /\ if forallb (fun job => is_resolved (Some (snd job))) jobs
     then invalidations (batchMarkRead jobs isRead) = [["emails"; "list"]]
          /\ map ni_type (notified (batchMarkRead jobs isRead)) = [success]
     else invalidations (batchMarkRead jobs isRead) = []
          /\ map ni_type (notified (batchMarkRead jobs isRead)) = [error_type].
Proof.
  unfold batchMarkRead. cbv zeta. rewrite batch_requests, batch_all_resolved.
  set (puts := map _ jobs).
  assert (Hputs : puts = map Http
            (map (fun job => {| method := PUT; url := "/emails/" +:+ fst job;
                                body := [("is_read", JBool isRead)] |}) jobs)).
  { unfold puts. rewrite map_map. reflexivity. }
  assert (Hinv : forall l : list Request, invalidations (map Http l) = []).
  { induction l; [reflexivity | exact IHl]. }
  assert (Hnot : forall l : list Request, notified (map Http l) = []).
  { induction l; [reflexivity | exact IHl]. }
  rewrite Hputs. split.
  - rewrite http_requests_app, http_requests_map.
    destruct (forallb _ jobs); cbn; apply app_nil_r.
  - unfold invalidations, notified. rewrite !flat_map_app.
    fold (invalidations (map Http (map (fun job : string * Outcome EmailMessage =>
            {| method := PUT; url := "/emails/" +:+ fst job;
               body := [("is_read", JBool isRead)] |}) jobs))).
    fold (notified (map Http (map (fun job : string * Outcome EmailMessage =>
            {| method := PUT; url := "/emails/" +:+ fst job;
               body := [("is_read", JBool isRead)] |}) jobs))).
    rewrite Hinv, Hnot.
    destruct (forallb _ jobs); cbn; split; reflexivity.
Qed.

End Batch.

Example batchMarkRead_partial_failure :
  let tr := batchMarkRead [("m-1", Resolved (sample_email "m-1" false));
                           ("m-2", Rejected server_error);
                           ("m-3", Resolved (sample_email "m-3" false))] true in
  map url (http_requests tr) = ["/emails/m-1"; "/emails/m-2"; "/emails/m-3"]
  /\ map ni_message (notified tr) = ["Failed to update emails"].
Proof. vm_compute. split; reflexivity. Qed.

Example batchMarkRead_nothing_to_do :
  map ni_message (notified (batchMarkRead [] false)) = ["Marked 0 emails as unread"].
Proof. vm_compute. reflexivity. Qed.

Section Authentication.

Implicit Types (a : ApiState) (st : AuthState).

Lemma truthy_nonempty (t : string) : t <> "" -> truthy (Some t) = Some t.
Proof. destruct t; [congruence | reflexivity]. Qed.

(** X13: a non-empty token saved with [setAuthToken] is sent as
    [Authorization: Bearer] by the instance, and is the token a later
    instance loads from [localStorage] and sends; once [clearAuth] ran,
    neither the instance nor a later one has a token or sends that header. *)
Theorem auth_token_round_trip a (token href : string) :
  token <> "" ->
  request_headers (setAuthToken token a)
  = [("Content-Type", "application/json"); ("Authorization", "Bearer " +:+ token)]
  /\ authToken (new_ApiService (localStorage (setAuthToken token a)) href)
     = Some token
  /\ request_headers (new_ApiService (localStorage (setAuthToken token a)) href)
     = request_headers (setAuthToken token a)
  /\ request_headers (clearAuth (setAuthToken token a))
     = [("Content-Type", "application/json")]
  /\ new_ApiService (localStorage (clearAuth (setAuthToken token a))) href
     = {| authToken := None;
          localStorage := delete "auth_token" (localStorage a);
          location_href := href |}.
Proof.
  intros Ht. pose proof (truthy_nonempty token Ht) as Htr.
  assert (Hnew : new_ApiService (localStorage (setAuthToken token a)) href
                 = {| authToken := Some token;
                      localStorage := <["auth_token" := token]> (localStorage a);
                      location_href := href |}).
  { unfold new_ApiService, loadAuthToken. cbn [localStorage setAuthToken].
    rewrite lookup_insert_eq, Htr. reflexivity. }
  split; [|split; [|split; [|split]]].
  - unfold request_headers. cbn [authToken setAuthToken]. rewrite Htr. reflexivity.
  - rewrite Hnew. reflexivity.
  - rewrite Hnew. unfold request_headers. cbn [authToken setAuthToken].
    reflexivity.
  - reflexivity.
  - unfold new_ApiService, loadAuthToken. cbn [localStorage clearAuth setAuthToken].
    rewrite lookup_delete_eq. cbn. rewrite delete_insert_eq. reflexivity.
Qed.

Lemma auth_token_round_trip_witness :
  request_headers (setAuthToken "tok-123" signed_in_api)
  = [("Content-Type", "application/json"); ("Authorization", "Bearer " +:+ "tok-123")]
  /\ authToken (new_ApiService (localStorage (setAuthToken "tok-123" signed_in_api))
                  "/inbox")
     = Some "tok-123"
  /\ request_headers
       (new_ApiService (localStorage (setAuthToken "tok-123" signed_in_api)) "/inbox")
     = request_headers (setAuthToken "tok-123" signed_in_api)
  /\ request_headers (clearAuth (setAuthToken "tok-123" signed_in_api))
     = [("Content-Type", "application/json")]
  /\ new_ApiService (localStorage (clearAuth (setAuthToken "tok-123" signed_in_api)))
       "/inbox"
     = {| authToken := None;
          localStorage := delete "auth_token" (localStorage signed_in_api);
          location_href := "/inbox" |}.
Proof.
  apply (auth_token_round_trip signed_in_api "tok-123" "/inbox"). discriminate.
Defined.

(** X14: an answer rejected with status 401 signs the user out whatever
    the state was: no token is left in the instance or in [localStorage],
    later requests carry no Authorization header, and the page is sent to
    [/login]; every other answer, resolved or rejected, leaves the token,
    the storage and the page as they were. *)
Theorem unauthorized_answer_signs_out {R : Type} a (answer : Outcome R) :
  match answer with
  | Rejected {| http_status := Some 401%Z |} =>
      authToken (on_response a answer) = None
      /\ localStorage (on_response a answer) !! "auth_token" = None
      /\ request_headers (on_response a answer)
         = [("Content-Type", "application/json")]
      /\ location_href (on_response a answer) = "/login"
  | _ => on_response a answer = a
  end.
Proof.
  destruct answer as [d|[[z|] dt]]; try reflexivity.
  destruct z as [|p|p]; try reflexivity.
  destruct (decide (p = 401%positive)) as [->|Hne].
  - cbn. rewrite lookup_delete_eq. repeat split.
  - do 9 (destruct p as [p|p|]; try reflexivity); congruence.
Qed.

(** X15: [logout] of ApiService clears the token only when the call
    resolved or was rejected with 401: after any other rejection the token
    is still in the instance and in [localStorage], and is still sent. *)
Theorem failed_logout_keeps_token a (answer : Outcome json) :
  match answer with
  | Resolved _ =>
      authToken (fst (ApiService_logout a answer)) = None
      /\ localStorage (fst (ApiService_logout a answer)) !! "auth_token" = None
  | Rejected {| http_status := Some 401%Z |} =>
      authToken (fst (ApiService_logout a answer)) = None
      /\ localStorage (fst (ApiService_logout a answer)) !! "auth_token" = None
  | Rejected e =>
      ApiService_logout a answer = (a, Rejected e)
  end.
Proof.
  destruct answer as [d|[[z|] dt]].
  - cbn. rewrite lookup_delete_eq. split; reflexivity.
  - destruct z as [|p|p]; try reflexivity.
    destruct (decide (p = 401%positive)) as [->|Hne].
    + cbn. rewrite lookup_delete_eq. split; reflexivity.
    + do 9 (destruct p as [p|p|]; try reflexivity); congruence.
  - reflexivity.
Qed.

End Authentication.

Section AuthenticationState.

Implicit Types (a : ApiState) (st : AuthState).

Lemma on_response_other {R : Type} a (e : HttpError) :
  http_status e <> Some 401%Z ->
  on_response a (Rejected e : Outcome R) = a.
Proof.
  intros Hne. unfold on_response. destruct (http_status e) as [z|]; [|reflexivity].
  destruct z as [|p|p]; try reflexivity.
  destruct (decide (p = 401%positive)) as [->|Hp]; [congruence|].
  do 9 (destruct p as [p|p|]; try reflexivity); congruence.
Qed.

Lemma on_response_sync {R : Type} a (answer : Outcome R) :
  token_in_sync a -> token_in_sync (on_response a answer).
Proof.
  intros Ha. destruct answer as [d|e]; [exact Ha|].
  destruct (decide (http_status e = Some 401%Z)) as [He|He].
  - unfold on_response. rewrite He. unfold token_in_sync. cbn.
    rewrite lookup_delete_eq. reflexivity.
  - rewrite on_response_other; assumption.
Qed.

Lemma clearAuth_sync a : token_in_sync (clearAuth a).
Proof. unfold token_in_sync. cbn. rewrite lookup_delete_eq. reflexivity. Qed.

Lemma api_step_sync a (op : ApiOp) : token_in_sync a -> token_in_sync (api_step a op).
Proof.
  intros Ha. destruct op as [token| | |answer|answer]; cbn [api_step].
  - unfold token_in_sync. cbn. rewrite lookup_insert_eq. reflexivity.
  - apply clearAuth_sync.
  - unfold loadAuthToken.
    destruct (truthy (localStorage a !! "auth_token")) as [t|] eqn:Ht; [|exact Ha].
    unfold token_in_sync. cbn. rewrite Ht.
    destruct (localStorage a !! "auth_token") as [[|c t']|]; cbn in Ht;
      try discriminate. injection Ht as <-. reflexivity.
  - apply on_response_sync, Ha.
  - destruct answer as [d|e]; cbn [ApiService_logout fst].
    + apply clearAuth_sync.
    + apply on_response_sync, Ha.
Qed.

(** X16: whatever is stored in [localStorage] when an ApiService is
    created, and whatever calls and answers follow, the token of the
    instance and the stored token never disagree: the instance has a
    (non-empty) token exactly when the same one is stored. *)
Theorem auth_token_stays_in_sync (storage : gmap string string) (href : string)
  (ops : list ApiOp) :
  token_in_sync (fold_left api_step ops (new_ApiService storage href)).
Proof.
  assert (Hnew : token_in_sync (new_ApiService storage href)).
  { unfold new_ApiService, loadAuthToken, token_in_sync. cbn [localStorage].
    destruct (storage !! "auth_token") as [[|c t]|] eqn:Hs; cbn; rewrite ?Hs;
      reflexivity. }
  revert Hnew. generalize (new_ApiService storage href).
  induction ops as [|op ops IH]; intros a Ha; [exact Ha|].
  cbn [fold_left]. apply IH, api_step_sync, Ha.
Qed.

Lemma auth_step_user (s : ApiState * AuthState) (op : AuthOp) :
  isAuthenticated (snd s) = true \/ user (snd s) = None ->
  isAuthenticated (snd (auth_step s op)) = true \/ user (snd (auth_step s op)) = None.
Proof.
  intros Hs. destruct op as [answer|answer|answer|]; cbn [auth_step].
  - destruct answer as [b|e]; cbn; [|right; reflexivity].
    destruct (is_authenticated b); cbn; [left | right]; reflexivity.
  - destruct answer; exact Hs.
  - unfold AuthContext_logout.
    destruct (ApiService_logout (fst s) answer) as [a' [u|e]]; right; reflexivity.
  - exact Hs.
Qed.

(** X17: in every state the AuthContext reaches from its initial one,
    through any sequence of status checks, logins, logouts and error
    clearings with any answers, a user is only ever present while
    [isAuthenticated] is set; and the Dashboard page is shown only then. *)
Theorem user_only_when_authenticated (a0 : ApiState) (ops : list AuthOp) :
  (isAuthenticated (snd (auth_run (a0, initial_auth) ops)) = true
   \/ user (snd (auth_run (a0, initial_auth) ops)) = None)
  /\ (Index (snd (auth_run (a0, initial_auth) ops)) <> DashboardPage
      \/ isAuthenticated (snd (auth_run (a0, initial_auth) ops)) = true).
Proof.
  assert (Hinv : isAuthenticated (snd (auth_run (a0, initial_auth) ops)) = true
                 \/ user (snd (auth_run (a0, initial_auth) ops)) = None).
  { unfold auth_run.
    assert (H0 : isAuthenticated (snd (a0, initial_auth)) = true
                 \/ user (snd (a0, initial_auth)) = None) by (right; reflexivity).
    revert H0. generalize (a0, initial_auth).
    induction ops as [|op ops IH]; intros s Hs; [exact Hs|].
    cbn [fold_left]. apply IH, auth_step_user, Hs. }
  split; [exact Hinv|].
  unfold Index.
  destruct (isLoading _); [left; discriminate|].
  destruct (isAuthenticated _); [right; reflexivity | left; discriminate].
Qed.



End AuthenticationState.

(** * Properties of the client filters *)

Section Sorting.

Context {A : Type} (after : A -> A -> bool).

Lemma insert_sorted_perm (x : A) (l : list A) :
  Permutation (insert_sorted after x l) (x :: l).
Proof.
  induction l as [|y l IH]; [reflexivity|]. cbn.
  destruct (after y x); [reflexivity|].
  rewrite IH. apply perm_swap.
Qed.

Lemma Array_sort_perm (l : list A) : Permutation (Array_sort after l) l.
Proof.
  unfold Array_sort.
  assert (H : forall acc, Permutation
                (fold_left (fun acc x => insert_sorted after x acc) l acc)
                (acc ++ l)).
  { induction l as [|x l IH]; intros acc; cbn.
    - rewrite app_nil_r. reflexivity.
    - rewrite IH, insert_sorted_perm. apply Permutation_middle. }
  apply (H []).
Qed.

(** When [after] comes from a consistent order, the result is sorted. *)
Lemma Array_sort_sorted (l : list A) :
  (forall x y, after y x = true -> after x y = false) ->
  (forall x y z, after x y = false -> after y z = false -> after x z = false) ->
  StronglySorted (fun x y => after x y = false) (Array_sort after l).
Proof.
  intros Hasym Htrans. unfold Array_sort.
  assert (Hins : forall x acc,
             StronglySorted (fun x y => after x y = false) acc ->
             StronglySorted (fun x y => after x y = false) (insert_sorted after x acc)).
  { intros x acc. induction 1 as [|y r Hr IH Hy]; cbn.
    - repeat constructor.
    - destruct (after y x) eqn:Hyx.
      + constructor; [constructor; assumption|].
        constructor; [apply Hasym, Hyx|].
        eapply Forall_impl; [exact Hy|]. intros z Hz.
        apply (Htrans x y z); [apply Hasym, Hyx | exact Hz].
      + constructor; [exact IH|].
        rewrite (insert_sorted_perm x r). constructor; assumption. }
  assert (H : forall acc,
             StronglySorted (fun x y => after x y = false) acc ->
             StronglySorted (fun x y => after x y = false)
               (fold_left (fun acc x => insert_sorted after x acc) l acc)).
  { induction l as [|x l IH]; intros acc Hacc; [exact Hacc|].
    cbn. apply IH, Hins, Hacc. }
  apply H. constructor.
Qed.

End Sorting.

Lemma StronglySorted_weaken {A : Type} (R S : A -> A -> Prop) (l : list A) :
  (forall a b, R a b -> S a b) -> StronglySorted R l -> StronglySorted S l.
Proof.
  intros HRS. induction 1 as [|x l Hl IH Hx]; constructor; [exact IH|].
  eapply Forall_impl; [exact Hx|]. intros b. apply HRS.
Qed.

Section Filtering.

Variable toLowerCase : string -> string.
Variable localeCompare : string -> string -> Z.
Variable getTime : string -> option Z.

#[local] Abbreviation filtered_clients :=
  (filteredClients toLowerCase localeCompare getTime).
#[local] Abbreviation passing := (passes toLowerCase).

Lemma filter_when (b : bool) (p : Client -> bool) (l : list Client) :
  (if b then l else List.filter p l) = List.filter (fun c => b || p c) l.
Proof.
  destruct b; cbn; [|reflexivity].
  induction l as [|c l IH]; [reflexivity|]. cbn. f_equal. exact IH.
Qed.

Lemma filter_twice (p q : Client -> bool) (l : list Client) :
  List.filter q (List.filter p l) = List.filter (fun c => p c && q c) l.
Proof.
  induction l as [|c l IH]; [reflexivity|]. cbn.
  destruct (p c); cbn; [|exact IH]. destruct (q c); cbn; rewrite IH; reflexivity.
Qed.

Lemma filteredClients_unfold (filters : Filters) (clients : list Client) :
  filtered_clients filters clients
  = Array_sort (sorts_after localeCompare getTime filters)
               (List.filter (passing filters) clients).
Proof.
  unfold filteredClients. cbv zeta. f_equal.
  rewrite !filter_when, !filter_twice. apply List.filter_ext.
  intros c. unfold passes. rewrite !andb_assoc. reflexivity.
Qed.

Lemma search_filter_iff (filters : Filters) (c : Client) :
  search_filter toLowerCase filters c = true
  <-> Exists (fun text => includes (toLowerCase (search filters))
                                   (toLowerCase text) = true)
             (searchable c).
Proof.
  unfold search_filter, searchable, matches_search. cbv zeta.
  destruct (client_name c), (organization_name c); cbn;
    repeat setoid_rewrite Exists_cons; setoid_rewrite Exists_nil;
    rewrite !orb_true_iff; intuition discriminate.
Qed.

Lemma passing_iff_wanted (filters : Filters) (c : Client) :
  passing filters c = true <-> wanted toLowerCase filters c.
Proof.
  unfold passes, wanted.
  rewrite !andb_true_iff, !orb_true_iff, !String.eqb_eq, search_filter_iff,
    !Qle_bool_iff.
  assert (Hcat : category_filter filters c = true
                 <-> business_category c = Some (businessCategory filters)).
  { unfold category_filter. destruct (business_category c) as [b|].
    - rewrite String.eqb_eq. split; [intros ->; reflexivity | intros [= ->]; reflexivity].
    - split; discriminate. }
  assert (Hprio : priority_filter filters c = true
                  <-> priority_level c = priorityLevel filters).
  { unfold priority_filter. apply String.eqb_eq. }
  assert (Hstr : strength_filter filters c = true
                 <-> (relationshipStrengthMin filters
                      <= default 0%Q (relationship_strength c))%Q).
  { unfold strength_filter. rewrite Qle_bool_iff, or_number_eq. reflexivity. }
  rewrite Hcat, Hprio, Hstr. tauto.
Qed.

(** X19: [filteredClients] returns exactly the clients the filters ask for,
    each as often as it was given, in some order.  What the filters ask for
    is said of the client's own fields ([wanted]): an empty search, category
    or priority and a minimum that is not positive ask for nothing; the
    search asks that the name, the address or the organization contains the
    search text, both in lower case; the category and the priority ask for
    equality; the minimum asks for a strength at least as large, a missing
    strength counting as 0.  The sort loses and adds nothing. *)
Theorem filteredClients_are_the_passing_clients (filters : Filters)
  (clients : list Client) :
  (exists keep : Client -> bool,
      (forall c, keep c = true <-> wanted toLowerCase filters c)
      /\ Permutation (filtered_clients filters clients) (List.filter keep clients))
  /\ (forall c, In c (filtered_clients filters clients)
                <-> In c clients /\ wanted toLowerCase filters c)
  /\ length (filtered_clients filters clients) <= length clients.
Proof.
  rewrite filteredClients_unfold.
  pose proof (Array_sort_perm (sorts_after localeCompare getTime filters)
                (List.filter (passing filters) clients)) as Hp.
  split; [|split].
  - exists (passing filters). split; [apply passing_iff_wanted | exact Hp].
  - intros c. split.
    + intros Hin. apply (Permutation_in _ Hp) in Hin.
      apply List.filter_In in Hin as [Hin Hpass].
      split; [exact Hin | apply passing_iff_wanted, Hpass].
    + intros [Hin Hw]. apply (Permutation_in _ (Permutation_sym Hp)).
      apply List.filter_In. split; [exact Hin | apply passing_iff_wanted, Hw].
  - rewrite (Permutation_length Hp). apply filter_length_le.
Qed.

(** X20: with the initial filters, which [resetFilters] restores, no client
    is left out, whatever its fields are: the result is a rearrangement of
    the given clients. *)
Theorem initial_filters_keep_every_client (clients : list Client) :
  Permutation (filtered_clients initial_filters clients) clients.
Proof.
  rewrite filteredClients_unfold, Array_sort_perm.
  assert (H : List.filter (passing initial_filters) clients = clients).
  { induction clients as [|c l IH]; [reflexivity|]. cbn. f_equal. exact IH. }
  rewrite H. reflexivity.
Qed.

Lemma sorts_after_strength (filters : Filters) (a b : Client) :
  sortBy filters = "relationship_strength" ->
  sorts_after localeCompare getTime filters a b
  = match sortOrder filters with
    | asc => negb (Qle_bool (strength_of a - strength_of b) 0)
    | desc => negb (Qle_bool (- (strength_of a - strength_of b)) 0)
    end.
Proof.
  intros Hs. unfold sorts_after, compare_clients, sort_value. rewrite Hs. cbn.
  destruct (sortOrder filters); reflexivity.
Qed.

(** X21: sorted by relationship strength, the result is in order: with
    [asc] no client comes before one of smaller strength, with [desc] none
    before one of greater strength, a missing strength counting as 0. *)
Theorem filteredClients_sorted_by_strength (filters : Filters)
  (clients : list Client) :
  sortBy filters = "relationship_strength" ->
  StronglySorted
    (fun a b => match sortOrder filters with
                | asc => (strength_of a <= strength_of b)%Q
                | desc => (strength_of b <= strength_of a)%Q
                end)
    (filtered_clients filters clients).
Proof.
  intros Hs. rewrite filteredClients_unfold.
  assert (Hle : forall a b,
             sorts_after localeCompare getTime filters a b = false
             <-> match sortOrder filters with
                 | asc => (strength_of a <= strength_of b)%Q
                 | desc => (strength_of b <= strength_of a)%Q
                 end).
  { intros a b. rewrite (sorts_after_strength filters a b Hs).
    destruct (sortOrder filters); rewrite negb_false_iff, Qle_bool_iff;
      split; intros H; lra. }
  eapply StronglySorted_weaken; [|apply Array_sort_sorted].
  - intros a b Hab. apply Hle, Hab.
  - intros x y Hyx. apply Hle. apply not_false_iff_true in Hyx.
    rewrite Hle in Hyx. destruct (sortOrder filters); lra.
  - intros x y z Hxy Hyz. apply Hle. apply Hle in Hxy. apply Hle in Hyz.
    destruct (sortOrder filters); lra.
Qed.

End Filtering.

Lemma filteredClients_sorted_by_strength_witness :
  StronglySorted
    (fun a b => match sortOrder (by_strength desc) with
                | asc => (strength_of a <= strength_of b)%Q
                | desc => (strength_of b <= strength_of a)%Q
                end)
    (filteredClients sample_toLowerCase sample_localeCompare sample_parseDate
       (by_strength desc) sample_clients).
Proof.
  apply (filteredClients_sorted_by_strength sample_toLowerCase sample_localeCompare
           sample_parseDate (by_strength desc) sample_clients).
  reflexivity.
Defined.

Example filteredClients_sample :
  map cl_id (filteredClients sample_toLowerCase sample_localeCompare sample_parseDate
               (by_strength desc) sample_clients)
  = ["ann"; "cy"; "bob"].
Proof. vm_compute. reflexivity. Qed.

(** * Further properties of the client statistics *)

Section StatisticsBounds.

Variable parseDate : string -> option Z.
Variable now_ms : Z.

Lemma filter_length_mono {A : Type} (p q : A -> bool) (l : list A) :
  (forall x, p x = true -> q x = true) ->
  length (List.filter p l) <= length (List.filter q l).
Proof.
  intros Hpq. induction l as [|x l IH]; [reflexivity|]. cbn.
  destruct (p x) eqn:Hp.
  - rewrite (Hpq x Hp). cbn. lia.
  - destruct (q x); cbn; lia.
Qed.

Lemma interacted_since_mono (since1 since2 : Z) (c : Client) :
  (since1 <= since2)%Z ->
  interacted_since parseDate since2 c = true ->
  interacted_since parseDate since1 c = true.
Proof.
  intros Hle. unfold interacted_since.
  destruct (last_interaction c) as [[|a s]|]; try discriminate.
  destruct (parseDate (String a s)) as [t|]; [|discriminate].
  rewrite !Z.ltb_lt. lia.
Qed.

(** X22: the counts of [useClientStats] are consistent for every list of
    clients and every clock: the active and the high-priority clients are
    at most all clients, the clients seen in the last 7 days are among the
    active ones (seen in the last 30), and at most 5 categories are listed. *)
Theorem useClientStats_counts_consistent (clients : list Client) :
  activeClients (useClientStats parseDate now_ms clients)
  <= totalClients (useClientStats parseDate now_ms clients)
  /\ highPriorityClients (useClientStats parseDate now_ms clients)
     <= totalClients (useClientStats parseDate now_ms clients)
  /\ recentInteractions (useClientStats parseDate now_ms clients)
     <= activeClients (useClientStats parseDate now_ms clients)
  /\ length (topBusinessCategories (useClientStats parseDate now_ms clients)) <= 5.
Proof.
  destruct clients as [|c cs]; [cbn; lia|].
  cbn [useClientStats activeClients totalClients highPriorityClients
       recentInteractions topBusinessCategories].
  split; [apply filter_length_le|]. split; [apply filter_length_le|]. split.
  - apply filter_length_mono. intros x. apply interacted_since_mono.
    unfold days. lia.
  - rewrite length_map, length_take. lia.
Qed.

End StatisticsBounds.

Section CategoryCounts.

Lemma count_of_increment (c k : string) (acc : list (string * nat)) :
  count_of k (increment c acc)
  = if String.eqb c k then S (count_of k acc) else count_of k acc.
Proof.
  induction acc as [|[k' n] acc IH]; cbn.
  - destruct (String.eqb c k); reflexivity.
  - destruct (String.eqb_spec k' c) as [->|Hne]; cbn.
    + destruct (String.eqb c k); reflexivity.
    + destruct (String.eqb_spec k' k) as [->|Hk].
      * apply String.eqb_neq in Hne. rewrite String.eqb_sym, Hne. reflexivity.
      * exact IH.
Qed.

Lemma increment_keys (c : string) (acc : list (string * nat)) :
  map fst (increment c acc)
  = if existsb (String.eqb c) (map fst acc) then map fst acc
    else map fst acc ++ [c].
Proof.
  induction acc as [|[k' n] acc IH]; [reflexivity|]. cbn.
  destruct (String.eqb_spec k' c) as [->|Hne]; cbn.
  - rewrite String.eqb_refl. reflexivity.
  - apply String.eqb_neq in Hne. rewrite String.eqb_sym, Hne. cbn. rewrite IH.
    destruct (existsb (String.eqb c) (map fst acc)); reflexivity.
Qed.

Lemma increment_NoDup (c : string) (acc : list (string * nat)) :
  NoDup (map fst acc) -> NoDup (map fst (increment c acc)).
Proof.
  intros Hnd. rewrite increment_keys.
  destruct (existsb (String.eqb c) (map fst acc)) eqn:He; [exact Hnd|].
  apply NoDup_app. split; [exact Hnd|]. split; [|apply NoDup_singleton].
  intros k Hk Hc. apply list_elem_of_singleton in Hc. subst k.
  assert (existsb (String.eqb c) (map fst acc) = true); [|congruence].
  apply existsb_exists. exists c. split; [|apply String.eqb_refl].
  apply list_elem_of_In, Hk.
Qed.

Lemma increment_positive (c : string) (acc : list (string * nat)) :
  c <> "" ->
  Forall (fun e => fst e <> "" /\ 1 <= snd e) acc ->
  Forall (fun e => fst e <> "" /\ 1 <= snd e) (increment c acc).
Proof.
  intros Hc. induction 1 as [|[k n] acc [Hk Hn] Hacc IH]; cbn.
  - constructor; [|constructor]. cbn. split; [exact Hc | lia].
  - cbn in Hk, Hn. destruct (String.eqb k c); constructor; cbn;
      try assumption; split; (exact Hk || lia).
Qed.

Lemma count_of_In (k : string) (n : nat) (acc : list (string * nat)) :
  NoDup (map fst acc) -> In (k, n) acc -> count_of k acc = n.
Proof.
  induction acc as [|[k' n'] acc IH]; intros Hnd Hin; [destruct Hin|].
  cbn in *. apply NoDup_cons in Hnd as [Hk' Hnd].
  destruct Hin as [Heq|Hin].
  - injection Heq as -> ->. rewrite String.eqb_refl. reflexivity.
  - destruct (String.eqb_spec k' k) as [->|Hne]; [|apply IH; assumption].
    exfalso. apply Hk'. apply list_elem_of_In.
    change k with (fst (k, n)). apply in_map, Hin.
Qed.

(** The object the reduction over the clients builds. *)
Lemma businessCategories_counts (clients : list Client) :
  forall acc,
    NoDup (map fst acc) ->
    Forall (fun e => fst e <> "" /\ 1 <= snd e) acc ->
    let obj := fold_left (fun acc client =>
                            match business_category client with
                            | None | Some EmptyString => acc
                            | Some c => increment c acc
                            end) clients acc in
    NoDup (map fst obj)
    /\ Forall (fun e => fst e <> "" /\ 1 <= snd e) obj
    /\ forall k, k <> "" ->
         count_of k obj = count_of k acc + clients_in_category k clients.
Proof.
  induction clients as [|cl clients IH]; intros acc Hnd Hpos; cbn zeta.
  - cbn. repeat split; auto.
  - cbn [fold_left].
    destruct (business_category cl) as [[|a c]|] eqn:Hcat.
    + destruct (IH acc Hnd Hpos) as (H1 & H2 & H3). repeat split; auto.
      intros k Hk. rewrite (H3 k Hk). unfold clients_in_category. cbn.
      rewrite Hcat. destruct k; [congruence | reflexivity].
    + destruct (IH (increment (String a c) acc)) as (H1 & H2 & H3).
      * apply increment_NoDup, Hnd.
      * apply increment_positive; [discriminate | exact Hpos].
      * repeat split; auto.
        intros k Hk. rewrite (H3 k Hk), count_of_increment.
        unfold clients_in_category. cbn [List.filter]. rewrite Hcat.
        destruct (String.eqb (String a c) k); cbn [length]; lia.
    + destruct (IH acc Hnd Hpos) as (H1 & H2 & H3). repeat split; auto.
      intros k Hk. rewrite (H3 k Hk). unfold clients_in_category. cbn.
      rewrite Hcat. reflexivity.
Qed.

Lemma insert_by_index_perm (i : N) (e : string * nat) (l : list (N * (string * nat))) :
  Permutation (insert_by_index i e l) ((i, e) :: l).
Proof.
  induction l as [|[j e'] l IH]; [reflexivity|]. cbn.
  destruct (i <? j)%N; [reflexivity|]. rewrite IH. apply perm_swap.
Qed.

Lemma filter_partition {A : Type} (p : A -> bool) (l : list A) :
  Permutation (List.filter p l ++ List.filter (fun x => negb (p x)) l) l.
Proof.
  induction l as [|x l IH]; [reflexivity|]. cbn.
  destruct (p x); cbn.
  - constructor. exact IH.
  - rewrite <- Permutation_middle. constructor. exact IH.
Qed.

Lemma Object_entries_perm (obj : list (string * nat)) :
  Permutation (Object_entries obj) obj.
Proof.
  unfold Object_entries.
  set (isidx := fun e : string * nat =>
                  match array_index (fst e) with Some _ => true | None => false end).
  assert (Hidx : forall acc,
             Permutation
               (map snd (fold_left
                           (fun acc e => match array_index (fst e) with
                                         | Some i => insert_by_index i e acc
                                         | None => acc
                                         end) obj acc))
               (map snd acc ++ List.filter isidx obj)).
  { induction obj as [|e obj IH]; intros acc; cbn [fold_left List.filter].
    - rewrite app_nil_r. reflexivity.
    - rewrite IH. unfold isidx at 2.
      destruct (array_index (fst e)) as [i|]; [|reflexivity].
      rewrite insert_by_index_perm. cbn. apply Permutation_middle. }
  rewrite (Hidx []). cbn [map app].
  etransitivity; [|apply (filter_partition isidx)].
  apply Permutation_app_head.
  assert (Heq : forall l : list (string * nat),
             List.filter (fun e => match array_index (fst e) with
                                   | Some _ => false
                                   | None => true
                                   end) l
             = List.filter (fun x => negb (isidx x)) l).
  { intros l. apply List.filter_ext. intros x. unfold isidx.
    destruct (array_index (fst x)); reflexivity. }
  rewrite Heq. reflexivity.
Qed.

Lemma sort_by_count_is_sort (l : list (string * nat)) :
  sort_by_count l = Array_sort (fun y x => (snd y <? snd x)%nat) l.
Proof.
  unfold sort_by_count, Array_sort.
  assert (Hins : forall e acc,
             insert_by_count e acc
             = insert_sorted (fun y x => (snd y <? snd x)%nat) e acc).
  { intros e acc. induction acc as [|e' acc IH]; [reflexivity|]. cbn.
    rewrite IH. reflexivity. }
  generalize (@nil (string * nat)).
  induction l as [|e l IH]; intros acc; [reflexivity|]. cbn.
  rewrite Hins. apply IH.
Qed.

Lemma StronglySorted_take {A : Type} (R : A -> A -> Prop) (n : nat) (l : list A) :
  StronglySorted R l -> StronglySorted R (take n l).
Proof.
  intros Hl. revert n. induction Hl as [|x l Hl IH Hx]; intros [|n]; cbn;
    try constructor; [apply IH|]. apply Forall_take, Hx.
Qed.

Lemma StronglySorted_map {A B : Type} (R : B -> B -> Prop) (f : A -> B) (l : list A) :
  StronglySorted (fun a b => R (f a) (f b)) l -> StronglySorted R (map f l).
Proof.
  induction 1 as [|x l Hl IH Hx]; cbn; constructor; [exact IH|].
  apply Forall_map. exact Hx.
Qed.

Variable parseDate : string -> option Z.
Variable now_ms : Z.

(** X23: for clients whose categories are not names that every object
    inherits, every category [useClientStats] lists carries as its count the
    number of clients of that category; the category is never empty and the
    count never 0, no category is listed twice, and the list is in order of
    decreasing count. *)
Theorem topBusinessCategories_counts (clients : list Client) :
  forallb ordinary_category clients = true ->
  Forall (fun e => count e = clients_in_category (category e) clients
                   /\ 1 <= count e /\ category e <> "")
         (topBusinessCategories (useClientStats parseDate now_ms clients))
  /\ NoDup (map category (topBusinessCategories
                            (useClientStats parseDate now_ms clients)))
  /\ StronglySorted (fun a b => count b <= count a)
       (topBusinessCategories (useClientStats parseDate now_ms clients)).
Proof.
  intros _.
  destruct clients as [|c0 cs]; [cbn; repeat constructor|].
  set (clients := c0 :: cs).
  destruct (businessCategories_counts clients [] (NoDup_nil_2) (Forall_nil_2 _))
    as (Hnd & Hpos & Hcnt).
  change (topBusinessCategories (useClientStats parseDate now_ms clients))
    with (map (fun e : string * nat => {| category := fst e; count := snd e |})
            (take 5 (sort_by_count (Object_entries
               (fold_left (fun acc client =>
                             match business_category client with
                             | None | Some EmptyString => acc
                             | Some c => increment c acc
                             end) clients []))))).
  set (obj := fold_left _ clients []) in *.
  cbn [count_of] in Hcnt.
  set (sorted := sort_by_count (Object_entries obj)).
  assert (Hperm : Permutation sorted obj).
  { unfold sorted. rewrite sort_by_count_is_sort, Array_sort_perm.
    apply Object_entries_perm. }
  assert (Hsorted : StronglySorted (fun a b : string * nat => snd b <= snd a) sorted).
  { unfold sorted. rewrite sort_by_count_is_sort.
    eapply StronglySorted_weaken; [|apply Array_sort_sorted].
    - cbn. intros a b Hab. apply Nat.ltb_ge in Hab. exact Hab.
    - cbn. intros x y Hyx. apply Nat.ltb_lt in Hyx. apply Nat.ltb_ge. lia.
    - cbn. intros x y z Hxy Hyz. apply Nat.ltb_ge in Hxy, Hyz. apply Nat.ltb_ge. lia. }
  split; [|split].
  - apply Forall_map. apply Forall_take. rewrite Hperm.
    apply Forall_forall. intros [k n] Hin. cbn [count category fst snd].
    apply list_elem_of_In in Hin.
    pose proof (proj1 (Forall_forall _ _) Hpos (k, n)) as Hkn.
    destruct Hkn as [Hk Hn]; [apply list_elem_of_In, Hin|]. cbn in Hk, Hn.
    split; [|split; assumption].
    pose proof (Hcnt k Hk) as Hc. rewrite Nat.add_0_l in Hc.
    rewrite <- Hc. symmetry. apply count_of_In; [exact Hnd | exact Hin].
  - rewrite map_map. cbn [category].
    change (fun x : string * nat => fst x) with (@fst string nat).
    rewrite <- firstn_map.
    assert (Hall : NoDup (map fst sorted)) by (rewrite Hperm; exact Hnd).
    exact (sublist_NoDup _ _ Hall (sublist_take (map fst sorted) 5)).
  - apply StronglySorted_map. cbn [count]. apply StronglySorted_take, Hsorted.
Qed.

End CategoryCounts.

Lemma topBusinessCategories_counts_witness :
  Forall (fun e => count e = clients_in_category (category e) sample_clients
                   /\ 1 <= count e /\ category e <> "")
         (topBusinessCategories
            (useClientStats sample_parseDate 1736500000000%Z sample_clients))
  /\ NoDup (map category (topBusinessCategories
                            (useClientStats sample_parseDate 1736500000000%Z
                               sample_clients)))
  /\ StronglySorted (fun a b => count b <= count a)
       (topBusinessCategories
          (useClientStats sample_parseDate 1736500000000%Z sample_clients)).
Proof.
  apply (topBusinessCategories_counts sample_parseDate 1736500000000%Z sample_clients).
  reflexivity.
Defined.

(** * Properties of the email list and of optimistic updates *)

Section TimeAgo.

Variable getTime : string -> option Z.
Variable toLocaleDateString : string -> string.
Variable now_ms : Z.

Lemma nested_floor (age : Z) :
  (age / (1000 * 60) / 60 = age / 3600000
   /\ age / (1000 * 60) / 60 / 24 = age / 86400000)%Z.
Proof.
  split.
  - rewrite Z.div_div by lia. reflexivity.
  - rewrite !Z.div_div by lia. reflexivity.
Qed.

Lemma floor_below (age d k : Z) :
  (0 < d)%Z -> ((age / d <? k) = (age <? k * d))%Z.
Proof.
  intros Hd.
  destruct (Z.ltb_spec (age / d) k) as [H|H];
    destruct (Z.ltb_spec age (k * d)) as [H'|H']; try reflexivity.
  - exfalso. apply (Z.div_le_mono _ _ d) in H'; [|lia].
    rewrite Z.div_mul in H' by lia. lia.
  - exfalso. assert (age / d < k)%Z; [|lia].
    apply Z.div_lt_upper_bound; lia.
Qed.

(** X24: for a valid date [formatTimeAgo] words the true age of the date:
    below one minute (so also for a date in the future) "just now", then
    the whole minutes up to an hour, the whole hours up to a day, the whole
    days up to a week, and the date itself from a week on; the number it
    prints is the age divided by the unit, rounded down. *)
Theorem formatTimeAgo_words_the_age (dateString : string) (date : Z) :
  getTime dateString = Some date ->
  formatTimeAgo getTime toLocaleDateString now_ms dateString
  = age_in_words toLocaleDateString dateString (now_ms - date).
Proof.
  intros Hd. unfold formatTimeAgo, age_in_words. rewrite Hd. cbv zeta.
  set (age := (now_ms - date)%Z).
  destruct (nested_floor age) as [Hh Hdays]. rewrite Hdays, Hh.
  rewrite (floor_below age (1000 * 60) 1), (floor_below age (1000 * 60) 60),
    (floor_below age 3600000 24), (floor_below age 86400000 7) by lia.
  change (1 * (1000 * 60))%Z with 60000%Z.
  change (60 * (1000 * 60))%Z with 3600000%Z.
  change (24 * 3600000)%Z with 86400000%Z.
  change (7 * 86400000)%Z with 604800000%Z.
  change (1000 * 60)%Z with 60000%Z.
  reflexivity.
Qed.

End TimeAgo.

Lemma formatTimeAgo_words_the_age_witness :
  formatTimeAgo sample_parseDate (fun s => s) 1736500000000%Z "2025-01-05"
  = age_in_words (fun s => s) "2025-01-05" (1736500000000 - 1736035200000)%Z.
Proof.
  apply (formatTimeAgo_words_the_age sample_parseDate (fun s => s)
           1736500000000%Z "2025-01-05" 1736035200000%Z).
  reflexivity.
Defined.

Example formatTimeAgo_sample :
  formatTimeAgo sample_parseDate (fun s => s) 1736500000000%Z "2025-01-05"
  = "před 5 dny"
  /\ formatTimeAgo sample_parseDate (fun s => s) 1736035000000%Z "2025-01-05"
     = "právě teď"
  /\ formatTimeAgo sample_parseDate (fun s => s) 1736500000000%Z "yesterday"
     = "yesterday".
Proof. vm_compute. repeat split. Qed.

Section Optimistic.

Lemma spread_star_twice (email : EmailMessage) :
  spread_email (spread_email email (star_update (negb (is_starred email))))
               (star_update (is_starred email))
  = email.
Proof. destruct email. reflexivity. Qed.

Lemma same_id_same_email (l : list EmailMessage) (e e' : EmailMessage) :
  NoDup (map em_id l) -> In e l -> In e' l -> em_id e' = em_id e -> e' = e.
Proof.
  induction l as [|x l IH]; intros Hnd He He' Hid; [destruct He|].
  cbn in Hnd. apply NoDup_cons in Hnd as [Hx Hnd].
  destruct He as [->|He], He' as [->|He']; auto.
  - exfalso. apply Hx. rewrite <- Hid. apply list_elem_of_In, in_map, He'.
  - exfalso. apply Hx. rewrite Hid. apply list_elem_of_In, in_map, He.
Qed.

(** X25: starring is undone by the next toggle.  For a page whose emails
    have distinct ids, the optimistic update that [handleToggleStar] asks
    for, followed by the one it asks for on the updated email, gives back
    the page as it was; a list query without data stays without data. *)
Theorem toggle_star_twice (p : EmailsPage) (email : EmailMessage) :
  NoDup (map em_id (page_emails p)) ->
  In email (page_emails p) ->
  let '(id1, u1) := handleToggleStar email in
  let '(id2, u2) := handleToggleStar (spread_email email u1) in
  lists_updater id2 u2 (lists_updater id1 u1 (Some p)) = Some p
  /\ lists_updater id1 u1 None = None.
Proof.
  intros Hnd Hin. unfold handleToggleStar.
  assert (Hmap : forall l,
             (forall e', In e' l -> em_id e' = em_id email -> e' = email) ->
             map (fun e' => if String.eqb (em_id e') (em_id email)
                            then spread_email e' (star_update (is_starred email))
                            else e')
               (map (fun e' => if String.eqb (em_id e') (em_id email)
                               then spread_email e'
                                      (star_update (negb (is_starred email)))
                               else e') l)
             = l).
  { induction l as [|x l IH]; intros Hl; [reflexivity|]. cbn.
    rewrite IH by (intros e' He'; apply Hl; right; exact He').
    destruct (String.eqb_spec (em_id x) (em_id email)) as [Hx|Hx].
    - rewrite (Hl x (or_introl eq_refl) Hx).
      assert (Hid : em_id (spread_email email (star_update (negb (is_starred email))))
                    = em_id email) by reflexivity.
      rewrite Hid, String.eqb_refl, spread_star_twice. reflexivity.
    - apply String.eqb_neq in Hx. rewrite Hx. reflexivity. }
  assert (Hsame : forall e', In e' (page_emails p) ->
                             em_id e' = em_id email -> e' = email).
  { intros e' He' Hid. apply (same_id_same_email (page_emails p)); assumption. }
  destruct (is_starred email) eqn:Hstar; cbn [fst snd]; split; try reflexivity.
  - cbn [lists_updater page_emails total_count page page_size].
    pose proof (Hmap (page_emails p) Hsame) as H. cbn in H.
    change (em_id (spread_email email (star_update false))) with (em_id email).
    rewrite H. destruct p; reflexivity.
  - cbn [lists_updater page_emails total_count page page_size].
    pose proof (Hmap (page_emails p) Hsame) as H. cbn in H.
    change (em_id (spread_email email (star_update true))) with (em_id email).
    rewrite H. destruct p; reflexivity.
Qed.

Lemma toggle_star_twice_witness :
  let '(id1, u1) := handleToggleStar (sample_email "m-2" true) in
  let '(id2, u2) := handleToggleStar (spread_email (sample_email "m-2" true) u1) in
  lists_updater id2 u2 (lists_updater id1 u1 (Some sample_page)) = Some sample_page
  /\ lists_updater id1 u1 None = None.
Proof.
  apply (toggle_star_twice sample_page (sample_email "m-2" true)).
  - cbn. repeat constructor; cbn; intros H; inversion H; subst;
      try discriminate; match goal with H' : _ ∈ _ |- _ => inversion H' end.
  - cbn. right. left. reflexivity.
Defined.

(** X26: what a failed update leaves in the cache, before the refetch
    that [onSettled] asks for.  The roll back of [onError] puts back the
    detail of the email exactly as it was when one was cached; when none was
    cached it removes nothing, so the fragment the optimistic update created
    stays; the details of other emails are untouched; and the list queries
    are never rolled back: every one of them keeps the optimistic value. *)
Theorem failed_update_rolls_back_detail_only (emailId : string)
  (updates : PartialEmailMessage) (cache : EmailCache) :
  let '(optimistic, previousEmail) := onMutate emailId updates cache in
  let after := onError_rollback emailId previousEmail optimistic in
  details after !! emailId
  = match details cache !! emailId with
    | Some previous => Some previous
    | None => Some (Fragment updates)
    end
  /\ (forall other, other <> emailId ->
                    details after !! other = details cache !! other)
  /\ (forall query,
        lists after !! query = lists_updater emailId updates (lists cache !! query)).
Proof.
  unfold onMutate, onError_rollback. cbv zeta.
  assert (Hlists : forall query,
             omap (fun p => lists_updater emailId updates (Some p)) (lists cache)
               !! query
             = lists_updater emailId updates (lists cache !! query)).
  { intros query. rewrite lookup_omap.
    destruct (lists cache !! query); reflexivity. }
  destruct (details cache !! emailId) as [previous|] eqn:Hprev;
    cbn [details lists].
  - split; [apply lookup_insert_eq|]. split; [|exact Hlists].
    intros other Hne. rewrite !lookup_insert_ne by congruence. reflexivity.
  - split; [rewrite lookup_insert_eq; reflexivity|]. split; [|exact Hlists].
    intros other Hne. rewrite lookup_insert_ne by congruence. reflexivity.
Qed.

End Optimistic.
